(** * cohalz/tools: a shallow embedding of the Deno scripts

    The repository holds small command-line clients:
    - [mackerel-alert-stats.ts]: alert statistics over two time windows;
    - [mackerel/list_monitors.ts] and an earlier copy of it
      ([src/unnamed/part_000]): monitor listing filtered by service;
    - [github/make_team_maintainer.ts] (REST) and its GraphQL sibling
      ([src/unnamed/part_001]): team maintainer assignment.

    Pure functions of the scripts are Rocq functions.  Code that talks to
    the network, the clock or the console runs in a small monad over a
    trace of events; the outside world answers as a function of the
    history so far.  Loops that the source leaves unbounded take fuel. *)

From Stdlib Require Import ZArith QArith Qround Qabs Qpower.
From Stdlib Require Import List String Ascii Bool Lia Lqa.
From Stdlib Require Qcanon.
From Stdlib Require Import Permutation.
Import ListNotations.

Set Implicit Arguments.

(** * JavaScript values used by the scripts *)

Module JS.

(** ** Numbers

    A JavaScript number is modelled by an exact rational, or one of the
    three IEEE special values.  [add], [sub], [mul] and [div] give the
    exact result of an operation; [round64] takes an exact result to the
    binary64 value that the machine keeps, and [add64], [sub64] and
    [div64] are the operations followed by that rounding.  [getMTTR],
    which divides open times by 60000 and sums the quotients, is written
    with the rounding operations; the arithmetic on the two dates of the
    command line and on the alert counts is written with the exact ones.
    The two zeros are identified, and a zero divisor counts as +0 (the
    only divisors are an array length and the result of [Math.round] on a
    positive value).  Finite values are kept in lowest terms, so that
    Leibniz equality on [number] is equality of values. *)

Inductive number : Type :=
| Num (q : Q)
| PosInf
| NegInf
| NaN.

Definition fin (q : Q) : number := Num (Qred q).

Definition ofZ (z : Z) : number := Num (inject_Z z).

Definition ofNat (n : nat) : number := ofZ (Z.of_nat n).

Definition Qltb (a b : Q) : bool := negb (Qle_bool b a).

Definition Qsign (q : Q) : Z := Z.sgn (Qnum q).

Definition neg (a : number) : number :=
  match a with
  | Num q => fin (- q)
  | PosInf => NegInf
  | NegInf => PosInf
  | NaN => NaN
  end.

Definition add (a b : number) : number :=
  match a, b with
  | NaN, _ | _, NaN => NaN
  | Num x, Num y => fin (x + y)
  | PosInf, NegInf | NegInf, PosInf => NaN
  | PosInf, _ | _, PosInf => PosInf
  | NegInf, _ | _, NegInf => NegInf
  end.

Definition sub (a b : number) : number := add a (neg b).

(** The infinity of sign [s] (a product or quotient of signs); a zero sign
    is the invalid operation. *)
Definition inf_of_sign (s : Z) : number :=
  match s with
  | Z0 => NaN
  | Zpos _ => PosInf
  | Zneg _ => NegInf
  end.

Definition sign_of (a : number) : Z :=
  match a with
  | Num q => Qsign q
  | PosInf => 1
  | NegInf => -1
  | NaN => 0
  end.

Definition mul (a b : number) : number :=
  match a, b with
  | NaN, _ | _, NaN => NaN
  | Num x, Num y => fin (x * y)
  | _, _ => inf_of_sign (sign_of a * sign_of b)
  end.

Definition div (a b : number) : number :=
  match a, b with
  | NaN, _ | _, NaN => NaN
  | Num x, Num y =>
      if Qeq_bool y 0 then inf_of_sign (Qsign x) else fin (x / y)
  | Num _, _ => Num 0
  | _, Num y => inf_of_sign (sign_of a * (if Qeq_bool y 0 then 1 else Qsign y))
  | _, _ => NaN
  end.

(** ** Binary64

    The binary64 value nearest to a rational [q]: with [e] the exponent
    of [q], the multiple of [2^(e-52)] (of [2^-1074] for a subnormal
    [q]) nearest to [q], a tie going to the even multiple; from [2^1024]
    on, the infinity of the sign of [q]. *)

(** [floor (log2 |q|)], for [q] other than 0. *)
Definition Qlog2 (q : Q) : Z :=
  let e := (Z.log2 (Z.abs (Qnum q)) - Z.log2 (Zpos (Qden q)))%Z in
  if Qle_bool (2 ^ e) (Qabs q) then e else (e - 1)%Z.

(** The integer nearest to [x], a tie going to the even one. *)
Definition Qround_even (x : Q) : Z :=
  let f := Qfloor x in
  match Qcompare (x - inject_Z f) (1 # 2) with
  | Lt => f
  | Gt => (f + 1)%Z
  | Eq => if Z.even f then f else (f + 1)%Z
  end.

Definition round64 (q : Q) : number :=
  if Qeq_bool q 0 then Num 0
  else
    let s := Z.max (Qlog2 q - 52) (-1074) in
    let r := inject_Z (Qround_even (q / 2 ^ s)) * 2 ^ s in
    if Qle_bool (2 ^ 1024) (Qabs r) then (if Qltb q 0 then NegInf else PosInf)
    else fin r.

Definition binary64 (a : number) : number :=
  match a with
  | Num q => round64 q
  | _ => a
  end.

(** [a + b], [a - b] and [a / b] as the machine computes them. *)
Definition add64 (a b : number) : number := binary64 (add a b).
Definition sub64 (a b : number) : number := binary64 (sub a b).
Definition div64 (a b : number) : number := binary64 (div a b).

(** [a >= b] and [a < b]: false as soon as one side is NaN. *)
Definition ge (a b : number) : bool :=
  match a, b with
  | NaN, _ | _, NaN => false
  | Num x, Num y => Qle_bool y x
  | PosInf, _ => true
  | _, NegInf => true
  | _, _ => false
  end.

Definition lt (a b : number) : bool :=
  match a, b with
  | NaN, _ | _, NaN => false
  | Num x, Num y => Qltb x y
  | NegInf, NegInf => false
  | NegInf, _ => true
  | PosInf, _ => false
  | Num _, PosInf => true
  | Num _, NegInf => false
  end.

(** [Math.round]: the nearest integer, a tie going up. *)
Definition Math_round (a : number) : number :=
  match a with
  | Num q => ofZ (Qfloor (q + (1 # 2)))
  | _ => a
  end.

(** [Number(x.toFixed(0))].  [toFixed(0)] writes the integer nearest to
    [x], a tie going away from zero, and [Number] reads it back; from
    10^21 on, [toFixed] writes [x] itself, and so do the special values. *)
Definition ten21 : Q := inject_Z (10 ^ 21).

Definition Number_toFixed0 (a : number) : number :=
  match a with
  | Num q =>
      if Qle_bool ten21 (Qabs q) then Num q
      else if Qltb q 0 then ofZ (- Qfloor (- q + (1 # 2)))
      else ofZ (Qfloor (q + (1 # 2)))
  | _ => a
  end.

(** ** Dates

    A [Date] object holds a time value: a whole number of milliseconds of
    magnitude at most 8.64e15, or NaN (an invalid date).  Comparing two
    dates with [>=] or [<] compares their time values. *)

Record Date : Type := mkDate { valueOf : number }.

Definition maxTime : Z := 8640000000000000.

Definition TimeClip (t : number) : number :=
  match t with
  | Num q =>
      if Qltb (inject_Z maxTime) (Qabs q) then NaN
      else ofZ (if Qltb q 0 then Qceiling q else Qfloor q)
  | _ => NaN
  end.

(** [new Date(t)] for a number [t]. *)
Definition newDate (t : number) : Date := mkDate (TimeClip t).

(** The valid date at [ms] milliseconds since the epoch. *)
Definition dateAt (ms : Z) : Date := mkDate (ofZ ms).

Definition date_ge (a b : Date) : bool := ge (valueOf a) (valueOf b).
Definition date_lt (a b : Date) : bool := lt (valueOf a) (valueOf b).

(** ** Strings

    A string is its sequence of code units; the model covers code units
    below 256, one per [ascii]. *)

(** [s.split(sep)] for a separator of one code unit: never empty. *)
Fixpoint split (sep : ascii) (s : string) : list string :=
  match s with
  | EmptyString => [EmptyString]
  | String c r =>
      if Ascii.eqb c sep then EmptyString :: split sep r
      else match split sep r with
           | h :: t => String c h :: t
           | [] => [String c EmptyString]
           end
  end.

(** [s.split(sep)[0]]. *)
Definition split_head (sep : ascii) (s : string) : string :=
  hd EmptyString (split sep s).

(** White space and line terminators below 256: TAB, LF, VT, FF, CR,
    SP and NBSP. *)
Definition isWhiteSpace (c : ascii) : bool :=
  existsb (Nat.eqb (nat_of_ascii c)) [9; 10; 11; 12; 13; 32; 160]%nat.

Fixpoint trimStart (s : string) : string :=
  match s with
  | EmptyString => EmptyString
  | String c r => if isWhiteSpace c then trimStart r else s
  end.

Fixpoint trimEnd (s : string) : string :=
  match s with
  | EmptyString => EmptyString
  | String c r =>
      let r' := trimEnd r in
      if isWhiteSpace c && String.eqb r' EmptyString then EmptyString
      else String c r'
  end.

Definition trim (s : string) : string := trimEnd (trimStart s).

(** [s.includes(sub)]. *)
Fixpoint str_includes (s sub : string) : bool :=
  String.prefix sub s ||
  match s with
  | EmptyString => false
  | String _ r => str_includes r sub
  end.

(** [arr.includes(x)] on an array of strings. *)
Definition arr_includes (arr : list string) (x : string) : bool :=
  existsb (String.eqb x) arr.

(** ** Objects used as records of groups

    [Object.groupBy] returns an object with one property per key, each
    holding the items of that key in their original order.  The object is
    kept as the list of its string-keyed properties in creation order. *)

Section Records.

Variable A : Type.

Definition record : Type := list (string * list A).

Fixpoint insert_group (k : string) (a : A) (r : record) : record :=
  match r with
  | [] => [(k, [a])]
  | (k', g) :: r' =>
      if String.eqb k k' then (k', g ++ [a]) :: r'
      else (k', g) :: insert_group k a r'
  end.

Definition groupBy (key : A -> string) (items : list A) : record :=
  fold_left (fun r a => insert_group (key a) a r) items [].

(** The property names of [r]. *)
Definition keys (r : record) : list string := map fst r.

(** [a] sits in one of the groups of [r]. *)
Definition placed (a : A) (r : record) : Prop :=
  exists k g, In (k, g) r /\ In a g.

(** [r[k]]: [None] is [undefined]. *)
Fixpoint lookup (k : string) (r : record) : option (list A) :=
  match r with
  | [] => None
  | (k', g) :: r' => if String.eqb k k' then Some g else lookup k r'
  end.

(** Property enumeration lists the array-index keys first, in ascending
    numeric order, then the other keys in creation order.  An array index
    is the canonical decimal form of an integer from 0 to 2^32 - 2. *)
Definition digit_of (c : ascii) : option Z :=
  let n := Z.of_nat (nat_of_ascii c) in
  if (48 <=? n)%Z && (n <=? 57)%Z then Some (n - 48)%Z else None.

Fixpoint digits_value (acc : Z) (s : string) : option Z :=
  match s with
  | EmptyString => Some acc
  | String c r =>
      match digit_of c with
      | Some d => digits_value (10 * acc + d)%Z r
      | None => None
      end
  end.

Definition arrayIndex (s : string) : option Z :=
  match s with
  | EmptyString => None
  | String c r =>
      if Ascii.eqb c "0"%char && negb (String.eqb r EmptyString) then None
      else match digits_value 0 s with
           | Some v => if (v <=? 4294967294)%Z then Some v else None
           | None => None
           end
  end.

Definition is_index (e : string * list A) : bool :=
  match arrayIndex (fst e) with Some _ => true | None => false end.

Definition index_le (e1 e2 : string * list A) : bool :=
  match arrayIndex (fst e1), arrayIndex (fst e2) with
  | Some i, Some j => (i <=? j)%Z
  | _, _ => true
  end.

Fixpoint insert_sorted (e : string * list A) (l : record) : record :=
  match l with
  | [] => [e]
  | e' :: l' => if index_le e e' then e :: l else e' :: insert_sorted e l'
  end.

Definition sort_index (l : record) : record :=
  fold_right insert_sorted [] l.

(** [Object.entries(r)]. *)
Definition entries (r : record) : record :=
  (sort_index (filter is_index r) ++ filter (fun e => negb (is_index e)) r)%list.

End Records.

End JS.

(** * Effects

    A computation starts from the history of events so far and ends in one
    of four ways, with the history extended by its own events.  [Exit] is
    [Deno.exit]: no handler catches it.  [Diverge] is a loop that has used
    up its fuel. *)

Module Eff.

Section Eff.

Variable E : Type.
Variable X : Type.

Inductive result (A : Type) : Type :=
| Ret (a : A)
| Throw (x : X)
| Exit (code : Z)
| Diverge.

Arguments Ret {A} a.
Arguments Throw {A} x.
Arguments Exit {A} code.
Arguments Diverge {A}.

Definition M (A : Type) : Type := list E -> result A * list E.

Definition ret {A} (a : A) : M A := fun h => (Ret a, h).

Definition bind {A B} (m : M A) (k : A -> M B) : M B :=
  fun h =>
    match m h with
    | (Ret a, h') => k a h'
    | (Throw x, h') => (Throw x, h')
    | (Exit c, h') => (Exit c, h')
    | (Diverge, h') => (Diverge, h')
    end.

Definition emit (e : E) : M unit := fun h => (Ret tt, h ++ [e]).

Definition throw {A} (x : X) : M A := fun h => (Throw x, h).

Definition exit {A} (code : Z) : M A := fun h => (Exit code, h).

Definition diverge {A} : M A := fun h => (Diverge, h).

(** The answer of the outside world, read off the history. *)
Definition ask {A} (f : list E -> A) : M A := fun h => (Ret (f h), h).

(** [try { m } catch (x) { handler x }]. *)
Definition try_catch {A} (m : M A) (handler : X -> M A) : M A :=
  fun h =>
    match m h with
    | (Throw x, h') => handler x h'
    | r => r
    end.

(** [for (const a of l) { body a }], and [l.map] with an effectful
    callback. *)
Fixpoint forM {A} (l : list A) (body : A -> M unit) : M unit :=
  match l with
  | [] => ret tt
  | a :: l' => bind (body a) (fun _ => forM l' body)
  end.

Fixpoint mapM {A B} (f : A -> M B) (l : list A) : M (list B) :=
  match l with
  | [] => ret []
  | a :: l' =>
      bind (f a) (fun b => bind (mapM f l') (fun bs => ret (b :: bs)))
  end.

(** Every event of the final history satisfies [P] when every event of
    the initial one does. *)
Definition emits_only {A} (P : E -> Prop) (m : M A) : Prop :=
  forall h, Forall P h -> Forall P (snd (m h)).

End Eff.

Arguments Ret {X A} a.
Arguments Throw {X A} x.
Arguments Exit {X A} code.
Arguments Diverge {X A}.
Arguments ret {E X A} a _.
Arguments throw {E X A} x _.
Arguments exit {E X A} code _.
Arguments diverge {E X A} _.
Arguments emit {E X} e _.
Arguments ask {E X A} f _.

End Eff.

Declare Scope eff_scope.
Delimit Scope eff_scope with eff.
Notation "x <- m ;; k" := (Eff.bind m (fun x => k))
  (at level 61, m at next level, right associativity) : eff_scope.
Notation "m ;; k" := (Eff.bind m (fun _ => k))
  (at level 61, right associativity) : eff_scope.

(** * mackerel-alert-stats.ts *)

Module AlertStats.

Import JS Eff.
Local Open Scope eff_scope.

(** The fields of the client library's [Alert] that the script reads.
    [monitorId] is [null] for an alert whose monitor no longer exists. *)
Record Alert : Type := mkAlert {
  id : string;
  monitorId : option string;
  type : string;
  openedAt : Date;
  closedAt : option Date
}.

(** One answer of [cli.alerts.list]. *)
Record Page : Type := mkPage {
  alerts : list Alert;
  cursor : option string
}.

Record AlertStats : Type := mkAlertStats {
  count : number;
  mttr : number;
  downTime : number
}.

Inductive event : Type :=
| EvNow                                   (* new Date() *)
| EvAlertsList (cursor : option string)   (* cli.alerts.list({includeClosed: true, cursor}) *)
| EvDelay (ms : Z)                        (* delay(ms) *)
| EvMonitorsGet (monitorId : string)      (* cli.monitors.get(monitorId) *)
| EvHeader (from to prev : Date)          (* console.log of the table title *)
| EvColumns                               (* console.log of the column names *)
| EvLine (name : string)                  (* console.log of one monitor's line: *)
         (count prevCount : number)       (*   the values handed to *)
         (mttr prevMttr : number)         (*   getNumberWithDelta, in order *)
         (availability prevAvailability : number).

(** The texts of the [Error]s of the script, with the values they are
    built from. *)
Inductive message : Type :=
| MsgKeyNotSet                     (* MACKEREL_APIKEY is not set *)
| MsgFromInvalid                   (* --from is not set or invalid *)
| MsgToInvalid                     (* --to is not set or invalid *)
| MsgInvalidRange (from to : Date).
    (* invavlid time range [${from.toISOString()}, ${to.toISOString()}) *)

Inductive error : Type :=
| Error (message : message)  (* throw new Error(message) *)
| TypeError                  (* a property read on undefined *)
| Rejected.                  (* a request of the client library failed *)

(** The outside world: the clock and the monitoring API.  Each answers
    from the history, which ends with the event of the call itself. *)
Record World : Type := mkWorld {
  clock : list event -> Date;
  alerts_list : list event -> option Page;
  monitors_get : list event -> option string
}.

Section Script.

Variable w : World.

Local Abbreviation M := (Eff.M event error).

Definition now : M Date :=
  emit EvNow ;; ask (clock w).

Definition cli_alerts_list (cursor : option string) : M Page :=
  emit (EvAlertsList cursor) ;;
  r <- ask (alerts_list w) ;;
  match r with
  | Some page => ret page
  | None => throw Rejected
  end.

Definition cli_monitors_get_name (monitorId : string) : M string :=
  emit (EvMonitorsGet monitorId) ;;
  r <- ask (monitors_get w) ;;
  match r with
  | Some name => ret name
  | None => throw Rejected
  end.

Definition delay (ms : Z) : M unit := emit (EvDelay ms).

(** [(alert.closedAt || new Date()).valueOf() - alert.openedAt.valueOf()) / 60000] *)
Definition minutesOpen (alert : Alert) : M number :=
  closed <- match closedAt alert with
            | Some d => ret d
            | None => now
            end ;;
  ret (div64 (sub64 (valueOf closed) (valueOf (openedAt alert))) (ofZ 60000)).

Definition getMTTR (alerts : list Alert) : M number :=
  if Nat.eqb (List.length alerts) 0 then ret (ofZ 0)
  else
    mins <- mapM minutesOpen alerts ;;
    ret (Number_toFixed0
           (div64 (fold_left (fun acc cur => add64 acc cur) mins (ofZ 0))
                  (ofNat (List.length alerts)))).

(** The [while (true)] loop of [getAlerts], one iteration per unit of
    fuel.  Reading [openedAt] off the last alert of an empty page is a
    TypeError. *)
Fixpoint getAlerts_loop (fuel : nat) (from : Date) (alerts : list Alert)
    (cursor : option string) (currentOpenedAt : Date) : M (list Alert) :=
  match fuel with
  | O => diverge
  | S fuel' =>
      res <- cli_alerts_list cursor ;;
      let '(mkPage resAlerts resCursor) := res in
      let alerts := (alerts ++ resAlerts)%list in
      if date_ge currentOpenedAt from then ret alerts
      else
        let cursor := resCursor in
        lastAlert <- match nth_error resAlerts (List.length resAlerts - 1) with
                     | Some a => ret a
                     | None => throw TypeError
                     end ;;
        delay 1000 ;;
        getAlerts_loop fuel' from alerts cursor (openedAt lastAlert)
  end.

Definition getAlerts (fuel : nat) (from : Date) : M (list Alert) :=
  currentOpenedAt <- now ;;
  getAlerts_loop fuel from [] None currentOpenedAt.

(** The property key under which [Object.groupBy] files an alert:
    [monitorId] converted to a string. *)
Definition groupKey (alert : Alert) : string :=
  match monitorId alert with
  | Some s => s
  | None => "null"%string
  end.

Definition inWindow (lo hi : Date) (alert : Alert) : bool :=
  date_ge (openedAt alert) lo && date_lt (openedAt alert) hi.

(** The two groupings that [getAlertsByMonitor] builds from the fetched
    alerts. *)
Definition splitWindows (prev from to : Date) (alerts : list Alert)
  : record Alert * record Alert :=
  (groupBy groupKey (filter (inWindow from to) alerts),
   groupBy groupKey (filter (inWindow prev from) alerts)).

Definition getAlertsByMonitor (fuel : nat) (prev from to : Date)
  : M (record Alert * record Alert) :=
  alerts <- getAlerts fuel prev ;;
  ret (splitWindows prev from to alerts).

Definition getAlertStats (alerts : list Alert) : M AlertStats :=
  let count := ofNat (List.length alerts) in
  mttr <- getMTTR alerts ;;
  ret (mkAlertStats count mttr (mul count mttr)).

(** [100 * (windowMin - downTime) / windowMin] *)
Definition availability (windowMin downTime : number) : number :=
  div (mul (ofZ 100) (sub windowMin downTime)) windowMin.

(** [new Date(2*from.valueOf() - to.valueOf())] *)
Definition prevOf (from to : Date) : Date :=
  newDate (sub (mul (ofZ 2) (valueOf from)) (valueOf to)).

(** [Math.round((to.valueOf() - from.valueOf()) / 60000)] *)
Definition windowMinOf (from to : Date) : number :=
  Math_round (div (sub (valueOf to) (valueOf from)) (ofZ 60000)).

(** The body of the report loop for one entry of the current window. *)
Definition reportMonitor (windowMin : number) (prevAlertsByMonitor : record Alert)
    (entry : string * list Alert) : M unit :=
  let '(monitorId, alerts) := entry in
  first <- match alerts with
           | a :: _ => ret a
           | [] => throw TypeError
           end ;;
  if String.eqb (type first) "check" then ret tt
  else
    match AlertStats.monitorId first with
    | None => ret tt
    | Some _ =>
        monitorName <- cli_monitors_get_name monitorId ;;
        currentStats <- getAlertStats alerts ;;
        prevStats <- getAlertStats
                       (match lookup monitorId prevAlertsByMonitor with
                        | Some l => l
                        | None => []
                        end) ;;
        emit (EvLine monitorName
                (count currentStats) (count prevStats)
                (mttr currentStats) (mttr prevStats)
                (availability windowMin (downTime currentStats))
                (availability windowMin (downTime prevStats)))
    end.

Definition isNaN (a : number) : bool :=
  match a with NaN => true | _ => false end.

(** The script, from the environment variable and the two dates that
    [new Date(flags.from ?? '')] and [new Date(flags.to ?? '')] gave. *)
Definition script (fuel : nat) (apiKey : option string) (from to : Date)
  : M unit :=
  match apiKey with
  | None => throw (Error MsgKeyNotSet)
  | Some _ =>
      if isNaN (valueOf from) then throw (Error MsgFromInvalid)
      else if isNaN (valueOf to) then throw (Error MsgToInvalid)
      else if negb (lt (valueOf from) (valueOf to))
      then throw (Error (MsgInvalidRange from to))
      else
        let prev := prevOf from to in
        let windowMin := windowMinOf from to in
        groups <- getAlertsByMonitor fuel prev from to ;;
        let '(alertsByMonitor, prevAlertsByMonitor) := groups in
        emit (EvHeader from to prev) ;;
        emit EvColumns ;;
        forM (entries alertsByMonitor)
             (reportMonitor windowMin prevAlertsByMonitor)
  end.

End Script.

(** ** Properties of alert lists and sample data *)

(** The alert has a valid opening date and was closed [k] minutes after
    it opened. *)
Definition closedAfter (k : number) (alert : Alert) : Prop :=
  exists o c,
    valueOf (openedAt alert) = ofZ o /\
    closedAt alert = Some c /\
    valueOf c = add (ofZ o) (mul k (ofZ 60000)).

(** The minutes from the first date there is to the last. *)
Definition maxMinutes : Z := 2 * maxTime / 60000.

Definition isCheck (alert : Alert) : Prop := type alert = "check"%string.

Definition isDeleted (alert : Alert) : Prop := monitorId alert = None.

Definition isAlertsList (e : event) : bool :=
  match e with EvAlertsList _ => true | _ => false end.

Module Sample.

Definition hostAlert (id monitor : string) (opened : Z) (closed : option Z)
  : Alert :=
  mkAlert id (Some monitor) "host" (dateAt opened) (option_map dateAt closed).

(** A world whose clock stands at [nowMs], whose alert API answers every
    request with [page], and in which every monitor is called web. *)
Definition world (nowMs : Z) (page : Page) : World :=
  mkWorld (fun _ => dateAt nowMs)
          (fun _ => Some page)
          (fun _ => Some "web"%string).

(** An alert open for fifteen seconds. *)
Definition quarterMinute : Alert := hostAlert "a1" "m1" 0 (Some 15000%Z).

(** Two alerts on one monitor, each open for the whole hour from 0. *)
Definition hourLong1 : Alert := hostAlert "a1" "m1" 0 (Some 3600000%Z).
Definition hourLong2 : Alert := hostAlert "a2" "m1" 0 (Some 3600000%Z).

Definition busyWorld : World :=
  world 4000000 (mkPage [hourLong1; hourLong2] None).

(** A page of one alert opened at 900000 ms, with a cursor to the next
    page; the clock stands at 1000000 ms. *)
Definition recent : Alert := hostAlert "a1" "m1" 900000 (Some 960000%Z).

Definition pagedWorld : World :=
  world 1000000 (mkPage [recent] (Some "c1"%string)).

(** A check monitor's alert and a deleted monitor's alert beside an
    ordinary one. *)
Definition checkAlert : Alert :=
  mkAlert "a3" (Some "m3"%string) "check" (dateAt 10) (Some (dateAt 70)).
Definition orphanAlert : Alert :=
  mkAlert "a4" None "host" (dateAt 20) (Some (dateAt 80)).

End Sample.

End AlertStats.

(** * mackerel/list_monitors.ts *)

Module ListMonitors.

Import JS.

(** The [scopes] property of a monitor, when the monitor has one: the
    value [undefined], an array of scopes, or an object whose [include]
    and [exclude] properties may each hold an array. *)
Inductive Scopes : Type :=
| ScopesUndefined
| ScopesArray (scopes : list string)
| ScopesObject (include exclude : option (list string)).

(** [scopes = None]: the monitor has no [scopes] property. *)
Record Monitor : Type := mkMonitor {
  id : string;
  type : string;
  name : string;
  isMuted : bool;
  scopes : option Scopes
}.

Definition scopesToIncludeArray (scopes : Scopes) : list string :=
  match scopes with
  | ScopesUndefined => []
  | ScopesArray l => l
  | ScopesObject (Some include) _ => include
  | ScopesObject None _ => []
  end.

Definition scopesToExcludeArray (scopes : Scopes) : list string :=
  match scopes with
  | ScopesUndefined => []
  | ScopesArray _ => []
  | ScopesObject _ (Some exclude) => exclude
  | ScopesObject _ None => []
  end.

(** The monitor types that are matched on their name. *)
Definition nameMatched (type : string) : bool :=
  String.eqb type "external" || String.eqb type "expression" ||
  String.eqb type "anomalyDetection" || String.eqb type "service".

(** The callback handed to [monitors.filter]. *)
Definition keeps (services : list string) (excludeAllServices : bool)
    (monitor : Monitor) : bool :=
  if nameMatched (type monitor)
  then existsb (fun svc => str_includes (name monitor) svc) services
  else
    match scopes monitor with
    | None => negb excludeAllServices
    | Some sc =>
        let scopesList := scopesToIncludeArray sc in
        if excludeAllServices && Nat.eqb (List.length scopesList) 0 then false
        else if Nat.eqb (List.length scopesList) 0 then true
        else existsb
               (fun scope =>
                  let servicePart := split_head ":" scope in
                  arr_includes services servicePart)
               scopesList
    end.

Definition filterByService (monitors : list Monitor) (service : string)
    (excludeAllServices : bool) : list Monitor :=
  let services := map trim (split "," service) in
  filter (keeps services excludeAllServices) monitors.

(** The scopes list of a monitor is absent or empty. *)
Definition noScopes (monitor : Monitor) : Prop :=
  match scopes monitor with
  | None => True
  | Some sc => scopesToIncludeArray sc = []
  end.

Module Sample.

Definition roleMonitor : Monitor :=
  mkMonitor "m1" "host" "cpu" false (Some (ScopesArray ["svcA:role"%string])).

Definition bareMonitor : Monitor :=
  mkMonitor "m2" "connectivity" "alive" false None.

End Sample.

End ListMonitors.

(** * src/unnamed/part_000: the earlier copy of list_monitors.ts *)

Module Part000.

Import JS.

(** [scopes], [excludeScopes] and [isMute] are optional properties. *)
Record Monitor : Type := mkMonitor {
  id : string;
  type : string;
  name : string;
  isMute : option bool;
  scopes : option (list string);
  excludeScopes : option (list string)
}.

Definition nameMatched (type : string) : bool :=
  String.eqb type "external" || String.eqb type "expression" ||
  String.eqb type "anomalyDetection" || String.eqb type "service".

(** [!arr || arr.length === 0] *)
Definition missingOrEmpty (arr : option (list string)) : bool :=
  match arr with
  | None => true
  | Some l => Nat.eqb (List.length l) 0
  end.

Definition servicePartIs (service scope : string) : bool :=
  String.eqb (split_head ":" scope) service.

(** The callback handed to [monitors.filter]. *)
Definition keeps (service : string) (excludeAllServices : bool)
    (monitor : Monitor) : bool :=
  if nameMatched (type monitor)
  then str_includes (name monitor) service
  else
    let isExcluded :=
      match excludeScopes monitor with
      | Some l => Nat.ltb 0 (List.length l) && existsb (servicePartIs service) l
      | None => false
      end in
    if isExcluded then false
    else if excludeAllServices && missingOrEmpty (scopes monitor) then false
    else if missingOrEmpty (scopes monitor) then true
    else existsb (servicePartIs service)
                 (match scopes monitor with Some l => l | None => [] end).

Definition filterByService (monitors : list Monitor) (service : string)
    (excludeAllServices : bool) : list Monitor :=
  filter (keeps service excludeAllServices) monitors.

(** The scopes list of a monitor is absent or empty. *)
Definition noScopes (monitor : Monitor) : Prop :=
  missingOrEmpty (scopes monitor) = true.

(** No exclude scope of the monitor belongs to [service]. *)
Definition notExcludedFrom (service : string) (monitor : Monitor) : Prop :=
  match excludeScopes monitor with
  | Some l => existsb (servicePartIs service) l = false
  | None => True
  end.

Module Sample.

Definition roleMonitor : Monitor :=
  mkMonitor "m1" "host" "cpu" None (Some ["svcA:role"%string]) None.

(** In scope of svcA:role, with svcA:db excluded. *)
Definition excludedRoleMonitor : Monitor :=
  mkMonitor "m2" "host" "cpu" None (Some ["svcA:role"%string])
            (Some ["svcA:db"%string]).

Definition bareMonitor : Monitor :=
  mkMonitor "m3" "connectivity" "alive" None None None.

(** No scopes, with svcA:db excluded. *)
Definition excludedBareMonitor : Monitor :=
  mkMonitor "m4" "host" "cpu" None None (Some ["svcA:db"%string]).

End Sample.

End Part000.

(** * HTTP responses

    What the scripts read of a [fetch] response: the status, and the body
    as text or as parsed JSON of the shape the script expects ([None]:
    reading the body fails).  [response.ok] holds for a status from 200 to
    299. *)

Module Http.

Record Response (J : Type) : Type := mkResponse {
  status : Z;
  text : option string;
  json : option J
}.

Definition ok {J} (r : Response J) : bool :=
  (200 <=? status r)%Z && (status r <=? 299)%Z.

(** A JavaScript string used as a condition: [undefined] and the empty
    string are falsy. *)
Definition truthy (s : option string) : option string :=
  match s with
  | Some EmptyString => None
  | _ => s
  end.

End Http.

(** * github/make_team_maintainer.ts *)

Module MakeTeamMaintainer.

Import Eff Http.
Local Open Scope eff_scope.

Record Team : Type := mkTeam {
  name : string;
  slug : string
}.

(** The body of the membership answer: [data.role]. *)
Record Membership : Type := mkMembership { role : string }.

Inductive error : Type :=
| NetworkError   (* fetch rejected *)
| BodyError.     (* response.text() or response.json() rejected *)

Inductive request : Type :=
| GetTeams (org user token : string)
    (* GET https://api.github.com/orgs/${org}/teams?query=${user} *)
| PutMembership (org teamSlug username token : string).
    (* PUT https://api.github.com/orgs/${org}/teams/${teamSlug}/memberships/${username}
       with body {"role":"maintainer"} *)

(** One constructor for each [console.log] and [console.error] call of
    the script, with the values its text is built from. *)
Inductive message : Type :=
| MsgApiStatus (status : Z)            (* GitHub API returned ${response.status} *)
| MsgErrorText (errorText : string)
| MsgSetting (username : string) (teams : nat) (org : string)
| MsgProcessing (teamSlug : string)
| MsgSuccess (username role teamSlug : string)
| MsgProcessingError (teamSlug : string) (e : error)
| MsgDone
| MsgParamsRequired
| MsgUsage
| MsgTokenNotSet
| MsgFetching (username org : string)
| MsgFound (teams : nat)
| MsgDryRunHeader
| MsgTeamName (name : string)
| MsgJson (teams : list Team)
| MsgError (e : error).

Inductive event : Type :=
| EvFetch (r : request)
| EvLog (m : message)      (* console.log *)
| EvError (m : message).   (* console.error *)

(** The API, answering the request that ends the history; [None]: the
    request itself fails. *)
Record World : Type := mkWorld {
  teams_response : list event -> option (Response (list Team));
  membership_response : list event -> option (Response Membership)
}.

Section Script.

Variable w : World.

Local Abbreviation M := (Eff.M event error).

Definition fetch {J} (r : request)
    (answer : list event -> option (Response J)) : M (Response J) :=
  emit (EvFetch r) ;;
  a <- ask answer ;;
  match a with
  | Some response => ret response
  | None => throw NetworkError
  end.

Definition response_text {J} (r : Response J) : M string :=
  match text r with
  | Some t => ret t
  | None => throw BodyError
  end.

Definition response_json {J} (r : Response J) : M J :=
  match json r with
  | Some j => ret j
  | None => throw BodyError
  end.

Definition getTeams (org user token : string) : M (list Team) :=
  response <- fetch (GetTeams org user token) (teams_response w) ;;
  if negb (ok response) then
    errorText <- response_text response ;;
    emit (EvError (MsgApiStatus (status response))) ;;
    emit (EvError (MsgErrorText errorText)) ;;
    exit 1
  else
    response_json response.

(** One iteration of the loop of [setMaintainer]: the [try] block and
    its [catch]. *)
Definition setMaintainerOf (org username token : string) (team : Team)
  : M unit :=
  let teamSlug := name team in
  try_catch
    (emit (EvLog (MsgProcessing teamSlug)) ;;
     response <- fetch (PutMembership org teamSlug username token)
                       (membership_response w) ;;
     if negb (ok response) then
       errorText <- response_text response ;;
       emit (EvError (MsgApiStatus (status response))) ;;
       emit (EvError (MsgErrorText errorText))
     else
       data <- response_json response ;;
       emit (EvLog (MsgSuccess username (role data) teamSlug)))
    (fun e => emit (EvError (MsgProcessingError teamSlug e))).

Definition setMaintainer (org username : string) (teams : list Team)
    (token : string) : M unit :=
  emit (EvLog (MsgSetting username (List.length teams) org)) ;;
  forM teams (setMaintainerOf org username token) ;;
  emit (EvLog MsgDone).

(** [main], from [Deno.args] and the value of [GITHUB_TOKEN]. *)
Definition main (args : list string) (GITHUB_TOKEN : option string) : M unit :=
  let '(dryRun, org, username) :=
    match args with
    | "--dry-run"%string :: _ => (true, nth_error args 1, nth_error args 2)
    | _ => (false, nth_error args 0, nth_error args 1)
    end in
  match truthy org, truthy username with
  | Some org, Some username =>
      match truthy GITHUB_TOKEN with
      | None => emit (EvError MsgTokenNotSet) ;; exit 1
      | Some token =>
          try_catch
            (emit (EvLog (MsgFetching username org)) ;;
             teams <- getTeams org username token ;;
             emit (EvLog (MsgFound (List.length teams))) ;;
             if dryRun : bool then
               emit (EvLog MsgDryRunHeader) ;;
               forM teams (fun team => emit (EvLog (MsgTeamName (name team))))
             else
               emit (EvLog (MsgJson teams)) ;;
               setMaintainer org username teams token)
            (fun e => emit (EvError (MsgError e)) ;; exit 1)
      end
  | _, _ =>
      emit (EvError MsgParamsRequired) ;;
      emit (EvError MsgUsage) ;;
      exit 1
  end.

End Script.

(** ** Events of interest and sample data *)

(** What one iteration of [setMaintainer] does first: the log line and
    the request. *)
Definition requestEvents (org username token teamSlug : string) : list event :=
  [EvLog (MsgProcessing teamSlug);
   EvFetch (PutMembership org teamSlug username token)].

(** The events of an iteration whose request is answered with an error
    status: the log line, the request, and the two error lines. *)
Definition httpErrorEvents (org username token teamSlug : string)
    (status : Z) (errorText : string) : list event :=
  requestEvents org username token teamSlug ++
  [EvError (MsgApiStatus status); EvError (MsgErrorText errorText)].

(** Neither a mutating request nor the opening line of [setMaintainer]. *)
Definition readOnly (e : event) : Prop :=
  match e with
  | EvFetch (PutMembership _ _ _ _) => False
  | EvLog (MsgSetting _ _ _) => False
  | _ => True
  end.

Module Sample.

Definition alpha : Team := mkTeam "alpha" "alpha-team".
Definition beta : Team := mkTeam "beta" "beta-team".
Definition gamma : Team := mkTeam "gamma" "gamma-team".

(** Every membership request is granted, except for team beta, which is
    answered 403 Forbidden. *)
Definition world : World :=
  mkWorld
    (fun _ => Some (mkResponse 200 (Some "[]"%string)
                               (Some [alpha; beta; gamma])))
    (fun h =>
       match last h (EvLog MsgDone) with
       | EvFetch (PutMembership _ "beta"%string _ _) =>
           Some (mkResponse 403 (Some "Forbidden"%string) None)
       | _ =>
           Some (mkResponse 200 (Some "{}"%string)
                            (Some (mkMembership "maintainer")))
       end).

End Sample.

End MakeTeamMaintainer.

(** * src/unnamed/part_001: make_team_maintainer.ts over GraphQL *)

Module Part001.

Import Eff Http.
Local Open Scope eff_scope.

Record TeamMember : Type := mkTeamMember { login : string }.

Record Team : Type := mkTeam {
  name : string;
  slug : string;
  id : string;
  members : list TeamMember
}.

Record PageInfo : Type := mkPageInfo {
  hasNextPage : bool;
  endCursor : option string
}.

(** [members { edges { node { login } } pageInfo }] *)
Record MembersConnection : Type := mkMembers {
  memberEdges : list string;
  membersPageInfo : PageInfo
}.

Record GraphQLTeamNode : Type := mkNode {
  nodeName : string;
  nodeSlug : string;
  nodeId : string;
  nodeMembers : MembersConnection
}.

(** [data.organization.teams] *)
Record TeamsConnection : Type := mkTeams {
  teamEdges : list GraphQLTeamNode;
  teamsPageInfo : PageInfo
}.

(** A GraphQL answer: an [errors] member, or the [data] of the query. *)
Inductive GraphQLBody (D : Type) : Type :=
| GraphQLErrors (errors : string)
| GraphQLData (data : D).

Arguments GraphQLErrors {D} errors.
Arguments GraphQLData {D} data.

Record Membership : Type := mkMembership { role : string }.

Inductive error : Type :=
| NetworkError
| BodyError.

Inductive request : Type :=
| PostTeamsQuery (org : string) (cursor : option string) (token : string)
    (* POST https://api.github.com/graphql, teams(first: 100, after: $cursor) *)
| PostMembersQuery (org teamSlug : string) (cursor : option string)
                   (token : string)
    (* POST https://api.github.com/graphql, members(first: 100, after: $cursor) *)
| PutMembership (org teamSlug username token : string).
    (* PUT https://api.github.com/orgs/${org}/teams/${teamSlug}/memberships/${username} *)

Inductive message : Type :=
| MsgGraphQLStatus (status : Z)
| MsgErrorText (errorText : string)
| MsgGraphQLErrors (errors : string)
| MsgMoreMembers (name : string)
| MsgFetchedSoFar (teams : nat)
| MsgFiltering (username : string)
| MsgFoundIn (name slug : string)
| MsgApiStatus (status : Z)
| MsgSetting (username : string) (teams : nat) (org : string)
| MsgProcessing (teamSlug : string)
| MsgSuccess (username role teamSlug : string)
| MsgProcessingError (teamSlug : string) (e : error)
| MsgDone
| MsgParamsRequired
| MsgUsage
| MsgTokenNotSet
| MsgFetchingAll (org : string)
| MsgFoundTotal (teams : nat)
| MsgResults
| MsgMemberOf (username : string) (teams : nat)
| MsgDryRunHeader
| MsgTeamSlug (slug : string)
| MsgError (e : error).

Inductive event : Type :=
| EvFetch (r : request)
| EvLog (m : message)
| EvError (m : message).

Record World : Type := mkWorld {
  teams_response :
    list event -> option (Response (GraphQLBody TeamsConnection));
  members_response :
    list event -> option (Response (GraphQLBody (option MembersConnection)));
  membership_response : list event -> option (Response Membership)
}.

Section Script.

Variable w : World.

Local Abbreviation M := (Eff.M event error).

Definition fetch {J} (r : request)
    (answer : list event -> option (Response J)) : M (Response J) :=
  emit (EvFetch r) ;;
  a <- ask answer ;;
  match a with
  | Some response => ret response
  | None => throw NetworkError
  end.

Definition response_text {J} (r : Response J) : M string :=
  match text r with
  | Some t => ret t
  | None => throw BodyError
  end.

Definition response_json {J} (r : Response J) : M J :=
  match json r with
  | Some j => ret j
  | None => throw BodyError
  end.

Definition executeGraphQL {D} (r : request)
    (answer : list event -> option (Response (GraphQLBody D))) : M D :=
  response <- fetch r answer ;;
  if negb (ok response) then
    errorText <- response_text response ;;
    emit (EvError (MsgGraphQLStatus (status response))) ;;
    emit (EvError (MsgErrorText errorText)) ;;
    exit 1
  else
    data <- response_json response ;;
    match data with
    | GraphQLErrors errors => emit (EvError (MsgGraphQLErrors errors)) ;; exit 1
    | GraphQLData d => ret d
    end.

(** The [while (hasNextPage)] loop of [getAdditionalMembers]. *)
Fixpoint getAdditionalMembers_loop (fuel : nat) (org teamSlug token : string)
    (members : list TeamMember) (currentCursor : option string)
    (hasNext : bool) : M (list TeamMember) :=
  if hasNext then
    match fuel with
    | O => diverge
    | S fuel' =>
        teamMembers <- executeGraphQL
                         (PostMembersQuery org teamSlug currentCursor token)
                         (members_response w) ;;
        match teamMembers with
        | None => ret members
        | Some teamMembers =>
            let members :=
              (members ++ map mkTeamMember (memberEdges teamMembers))%list in
            getAdditionalMembers_loop fuel' org teamSlug token members
              (endCursor (membersPageInfo teamMembers))
              (hasNextPage (membersPageInfo teamMembers))
        end
    end
  else ret members.

Definition getAdditionalMembers (fuel : nat) (org teamSlug cursor token : string)
  : M (list TeamMember) :=
  getAdditionalMembers_loop fuel org teamSlug token [] (Some cursor) true.

(** The body of [for (const edge of teamsData.edges)]: the team built
    from one node. *)
Definition teamOfNode (fuel : nat) (org token : string) (node : GraphQLTeamNode)
  : M Team :=
  let members := map mkTeamMember (memberEdges (nodeMembers node)) in
  members <-
    (if hasNextPage (membersPageInfo (nodeMembers node)) then
       match truthy (endCursor (membersPageInfo (nodeMembers node))) with
       | Some cursor =>
           emit (EvLog (MsgMoreMembers (nodeName node))) ;;
           additionalMembers <-
             getAdditionalMembers fuel org (nodeSlug node) cursor token ;;
           ret (members ++ additionalMembers)%list
       | None => ret members
       end
     else ret members) ;;
  ret (mkTeam (nodeName node) (nodeSlug node) (nodeId node) members).

(** The [while (hasNextPage)] loop of [getAllTeamsWithMembers]. *)
Fixpoint getAllTeamsWithMembers_loop (fuel inner : nat) (org token : string)
    (teams : list Team) (cursor : option string) (hasNext : bool)
  : M (list Team) :=
  if hasNext then
    match fuel with
    | O => diverge
    | S fuel' =>
        teamsData <- executeGraphQL (PostTeamsQuery org cursor token)
                                    (teams_response w) ;;
        page <- mapM (teamOfNode inner org token) (teamEdges teamsData) ;;
        let teams := (teams ++ page)%list in
        emit (EvLog (MsgFetchedSoFar (List.length teams))) ;;
        getAllTeamsWithMembers_loop fuel' inner org token teams
          (endCursor (teamsPageInfo teamsData))
          (hasNextPage (teamsPageInfo teamsData))
    end
  else ret teams.

Definition getAllTeamsWithMembers (fuel : nat) (org token : string)
  : M (list Team) :=
  getAllTeamsWithMembers_loop fuel fuel org token [] None true.

(** The body of the loop of [filterTeamsByUser]; [Some team] is a push
    onto [teamsWithUser]. *)
Definition teamIfMember (username : string) (team : Team) : M (option Team) :=
  let hasMember :=
    existsb (fun member => String.eqb (login member) username) (members team) in
  if hasMember then
    emit (EvLog (MsgFoundIn (name team) (slug team))) ;;
    ret (Some team)
  else ret None.

Definition somes {A} (l : list (option A)) : list A :=
  flat_map (fun o => match o with Some a => [a] | None => [] end) l.

Definition filterTeamsByUser (teams : list Team) (username : string)
  : M (list Team) :=
  emit (EvLog (MsgFiltering username)) ;;
  pushed <- mapM (teamIfMember username) teams ;;
  ret (somes pushed).

Definition setMaintainerOf (org username token : string) (team : Team)
  : M unit :=
  let teamSlug := slug team in
  try_catch
    (emit (EvLog (MsgProcessing teamSlug)) ;;
     response <- fetch (PutMembership org teamSlug username token)
                       (membership_response w) ;;
     if negb (ok response) then
       errorText <- response_text response ;;
       emit (EvError (MsgApiStatus (status response))) ;;
       emit (EvError (MsgErrorText errorText))
     else
       data <- response_json response ;;
       emit (EvLog (MsgSuccess username (role data) teamSlug)))
    (fun e => emit (EvError (MsgProcessingError teamSlug e))).

Definition setMaintainer (org username : string) (teams : list Team)
    (token : string) : M unit :=
  emit (EvLog (MsgSetting username (List.length teams) org)) ;;
  forM teams (setMaintainerOf org username token) ;;
  emit (EvLog MsgDone).

Definition main (fuel : nat) (args : list string)
    (GITHUB_TOKEN : option string) : M unit :=
  let '(dryRun, org, username) :=
    match args with
    | "--dry-run"%string :: _ => (true, nth_error args 1, nth_error args 2)
    | _ => (false, nth_error args 0, nth_error args 1)
    end in
  match truthy org, truthy username with
  | Some org, Some username =>
      match truthy GITHUB_TOKEN with
      | None => emit (EvError MsgTokenNotSet) ;; exit 1
      | Some token =>
          try_catch
            (emit (EvLog (MsgFetchingAll org)) ;;
             allTeams <- getAllTeamsWithMembers fuel org token ;;
             emit (EvLog (MsgFoundTotal (List.length allTeams))) ;;
             teamsWithUser <- filterTeamsByUser allTeams username ;;
             emit (EvLog MsgResults) ;;
             emit (EvLog (MsgMemberOf username (List.length teamsWithUser))) ;;
             if dryRun : bool then
               emit (EvLog MsgDryRunHeader) ;;
               forM teamsWithUser
                    (fun team => emit (EvLog (MsgTeamSlug (slug team))))
             else
               setMaintainer org username teamsWithUser token)
            (fun e => emit (EvError (MsgError e)) ;; exit 1)
      end
  | _, _ =>
      emit (EvError MsgParamsRequired) ;;
      emit (EvError MsgUsage) ;;
      exit 1
  end.

End Script.

(** ** Events of interest and sample data *)

Definition requestEvents (org username token teamSlug : string) : list event :=
  [EvLog (MsgProcessing teamSlug);
   EvFetch (PutMembership org teamSlug username token)].

Definition httpErrorEvents (org username token teamSlug : string)
    (status : Z) (errorText : string) : list event :=
  requestEvents org username token teamSlug ++
  [EvError (MsgApiStatus status); EvError (MsgErrorText errorText)].

(** Neither a mutating request nor the opening line of [setMaintainer]. *)
Definition readOnly (e : event) : Prop :=
  match e with
  | EvFetch (PutMembership _ _ _ _) => False
  | EvLog (MsgSetting _ _ _) => False
  | _ => True
  end.

Module Sample.

Definition alpha : Team := mkTeam "Alpha" "alpha" "T1" [mkTeamMember "octo"].
Definition beta : Team := mkTeam "Beta" "beta" "T2" [mkTeamMember "octo"].
Definition gamma : Team := mkTeam "Gamma" "gamma" "T3" [mkTeamMember "octo"].

Definition nodeOf (t : Team) : GraphQLTeamNode :=
  mkNode (name t) (slug t) (id t)
         (mkMembers (map login (members t)) (mkPageInfo false None)).

(** One page of three teams; every membership request is granted, except
    for team beta, which is answered 403 Forbidden. *)
Definition world : World :=
  mkWorld
    (fun _ =>
       Some (mkResponse 200 (Some "{}"%string)
               (Some (GraphQLData
                        (mkTeams (map nodeOf [alpha; beta; gamma])
                                 (mkPageInfo false None))))))
    (fun _ => Some (mkResponse 200 (Some "{}"%string) (Some (GraphQLData None))))
    (fun h =>
       match last h (EvLog MsgDone) with
       | EvFetch (PutMembership _ "beta"%string _ _) =>
           Some (mkResponse 403 (Some "Forbidden"%string) None)
       | _ =>
           Some (mkResponse 200 (Some "{}"%string)
                            (Some (mkMembership "maintainer")))
       end).

End Sample.

End Part001.

(** * How a computation ends *)

Module EffOutcome.

Import Eff.

Section Outcome.

Variable E : Type.
Variable X : Type.

(** The way a computation ended, without its value. *)
Definition outcome {A} (r : result X A) : result X unit :=
  match r with
  | Ret _ => Ret tt
  | Throw x => Throw x
  | Exit c => Exit c
  | Diverge => Diverge
  end.

(** Whenever the computation does not complete normally, the way it
    ends satisfies [Q]. *)
Definition fails_only {A} (Q : result X unit -> Prop) (m : M E X A) : Prop :=
  forall h, outcome (fst (m h)) = Ret tt \/ Q (outcome (fst (m h))).

End Outcome.

Section Preview.

Variable E : Type.
Variable X : Type.

(** What an event shows on the console, and what it asks of the API. *)
Variable shown : E -> list string.
Variable asked : E -> list string.

Definition quiet (e : E) : Prop := shown e = [] /\ asked e = [].

(** From any history without shows or asks, the two computations end the
    same way, and the first shows what the second asks for, in order. *)
Definition previews (dry real : M E X unit) : Prop :=
  forall h, Forall quiet h ->
    outcome (fst (dry h)) = outcome (fst (real h)) /\
    flat_map shown (snd (dry h)) = flat_map asked (snd (real h)).

End Preview.

End EffOutcome.

(** * mackerel-alert-stats.ts: shapes of histories *)

Module AlertStatsViews.

Import JS AlertStats.

(** Page requests with the given cursors, one 1000 ms delay between each
    request and the next. *)
Fixpoint paced (cursors : list (option string)) : list event :=
  match cursors with
  | [] => []
  | c :: rest =>
      match rest with
      | [] => [EvAlertsList c]
      | _ :: _ => EvAlertsList c :: EvDelay 1000 :: paced rest
      end
  end.

(** The alert was opened at [fst span] and closed at [snd span], both
    valid dates. *)
Definition closedSpan (alert : Alert) (span : Z * Z) : Prop :=
  valueOf (openedAt alert) = ofZ (fst span) /\
  exists d, closedAt alert = Some d /\ valueOf d = ofZ (snd span).

(** The span runs from a date to the same or a later one, a whole
    number of minutes apart. *)
Definition wholeMinutes (span : Z * Z) : Prop :=
  (Z.abs (fst span) <= maxTime)%Z /\ (Z.abs (snd span) <= maxTime)%Z /\
  (fst span <= snd span)%Z /\ (60000 | snd span - fst span)%Z.

Definition minutesOf (span : Z * Z) : Z := ((snd span - fst span) / 60000)%Z.

(** The minutes the spans cover, added up. *)
Definition totalMinutes (spans : list (Z * Z)) : Z :=
  fold_right (fun span acc => (minutesOf span + acc)%Z) 0%Z spans.

(** The alert was opened at a valid date, [lo] milliseconds or more and
    less than [hi] milliseconds after the epoch. *)
Definition openedWithin (lo hi : Z) (alert : Alert) : bool :=
  match valueOf (openedAt alert) with
  | Num q => Qle_bool (inject_Z lo) q && Qltb q (inject_Z hi)
  | _ => false
  end.

(** The alerts filed under the property key [k]. *)
Definition ofMonitor (k : string) (alert : Alert) : bool :=
  String.eqb (groupKey alert) k.

(** [r[k] ?? []] *)
Definition lookupOrEmpty (k : string) (r : record Alert) : list Alert :=
  match lookup k r with
  | Some l => l
  | None => []
  end.

(** A page request or a name lookup. *)
Definition isRequest (e : event) : Prop :=
  match e with
  | EvAlertsList _ | EvMonitorsGet _ => True
  | _ => False
  end.

Module Sample.

(** An alert opened at 3000000 ms. *)
Definition late : Alert :=
  AlertStats.Sample.hostAlert "a9" "m1" 3000000 (Some 3060000%Z).

(** The clock stands at 1000000 ms; the first page holds an alert opened
    at 900000 ms, the page after cursor c1 one opened at 3000000 ms, and
    every other page is empty. *)
Definition threePageWorld : World :=
  mkWorld (fun _ => dateAt 1000000)
          (fun h =>
             match last h EvNow with
             | EvAlertsList None =>
                 Some (mkPage [AlertStats.Sample.recent] (Some "c1"%string))
             | EvAlertsList (Some "c1"%string) =>
                 Some (mkPage [late] (Some "c2"%string))
             | _ => Some (mkPage [] None)
             end)
          (fun _ => Some "web"%string).

(** Alerts opened at the very start of a window that runs from 2000000
    to 4000000 ms, and at its very end. *)
Definition atFrom : Alert :=
  AlertStats.Sample.hostAlert "a5" "m2" 2000000 (Some 2060000%Z).
Definition atTo : Alert :=
  AlertStats.Sample.hostAlert "a6" "m2" 4000000 None.

(** One page, with alerts of the window from 2000000 to 4000000 ms, of
    the window before it, which starts at 0, and of neither. *)
Definition mixedPage : list Alert :=
  [late; atFrom; AlertStats.Sample.recent; AlertStats.Sample.hourLong1; atTo].

Definition mixedWorld : World :=
  AlertStats.Sample.world 8000000 (mkPage mixedPage None).

(** A world in which no monitor name can be looked up. *)
Definition namelessWorld : World :=
  mkWorld (fun _ => dateAt 4000000)
          (fun _ => Some (mkPage [AlertStats.Sample.hourLong1] None))
          (fun _ => None).

End Sample.

End AlertStatsViews.

(** * mackerel/list_monitors.ts: the command line *)

Module ListMonitorsCli.

Import JS Eff Http ListMonitors.
Local Open Scope eff_scope.

(** What the script reads of a notification group: its id, the ids of
    [scopes.monitors] and the names of [scopes.services]. *)
Record NotificationGroup : Type := mkGroup {
  groupId : string;
  groupMonitors : list string;
  groupServices : list string
}.

Inductive error : Type :=
| NotFound (notificationGroupId : string)
    (* new Error(`Notification group with id ${notificationGroupId} not found`) *)
| TypeError   (* a property read on undefined *)
| Rejected.   (* a request of the client library failed *)

(** One constructor for each [console.log] and [console.error] call. *)
Inductive message : Type :=
| MsgFetching
| MsgFilteringService (serviceFilter : string)
| MsgFilteringGroup (notificationGroupId : string)
| MsgJson (monitors : list Monitor)     (* JSON.stringify(monitors, null, 2) *)
| MsgCount (monitors : nat)
| MsgRule                               (* the line of 80 dashes *)
| MsgId (id : string)
| MsgName (name : string) (isMuted : bool)
| MsgType (type : string)
| MsgScopes (scopesList : list string)
| MsgExcludeScopes (excludeScopesList : list string)
| MsgKeyNotSet
| MsgUsageHeader
| MsgUsageService
| MsgUsageServices
| MsgUsageGroup
| MsgFilterRequired
| MsgBothFilters
| MsgFailed (e : error).

Inductive event : Type :=
| EvMonitorsList              (* cli.monitors.list() *)
| EvListNotificationGroups    (* cli.channels.listNotificationGroups() *)
| EvLog (m : message)         (* console.log *)
| EvError (m : message).      (* console.error *)

Record World : Type := mkWorld {
  monitors_response : list event -> option (list Monitor);
  groups_response : list event -> option (list NotificationGroup)
}.

Record Flags : Type := mkFlags {
  serviceFilter : option string;
  notificationGroupId : option string;
  format : string;
  excludeAllServices : bool
}.

Definition initialFlags : Flags := mkFlags None None "text" false.

(** The loop over [Deno.args]: an option that takes a value is read with
    the argument after it, which is then skipped. *)
Fixpoint parseArgs (args : list string) (f : Flags) : Flags :=
  match args with
  | [] => f
  | a :: rest =>
      match rest with
      | v :: rest' =>
          if String.eqb a "--service" then
            parseArgs rest' (mkFlags (Some v) (notificationGroupId f)
                                     (format f) (excludeAllServices f))
          else if String.eqb a "--notificationGroupId" then
            parseArgs rest' (mkFlags (serviceFilter f) (Some v)
                                     (format f) (excludeAllServices f))
          else if String.eqb a "--format" then
            parseArgs rest' (mkFlags (serviceFilter f) (notificationGroupId f)
                                     v (excludeAllServices f))
          else if String.eqb a "--excludeAllServices" then
            parseArgs rest (mkFlags (serviceFilter f) (notificationGroupId f)
                                    (format f) true)
          else parseArgs rest f
      | [] =>
          if String.eqb a "--excludeAllServices" then
            mkFlags (serviceFilter f) (notificationGroupId f) (format f) true
          else f
      end
  end.

(** The loop over the scopes of a monitor, left at the first scope whose
    service is allowed. *)
Fixpoint anyScopeAllowed (allowedServiceNames scopes : list string) : bool :=
  match scopes with
  | [] => false
  | scope :: rest =>
      let serviceName := split_head ":" scope in
      if arr_includes allowedServiceNames serviceName then true
      else anyScopeAllowed allowedServiceNames rest
  end.

Section Script.

Variable w : World.

(** [monitor.serviceName] when the monitor has that property and it holds
    a non-empty string; the property is not among the fields of
    [Monitor]. *)
Variable serviceNameOf : Monitor -> option string.

Local Abbreviation M := (Eff.M event error).

Definition getMonitors : M (list Monitor) :=
  emit EvMonitorsList ;;
  r <- ask (monitors_response w) ;;
  match r with
  | Some monitors => ret monitors
  | None => throw Rejected
  end.

Definition getNotificationGroup (notificationGroupId : string)
  : M NotificationGroup :=
  emit EvListNotificationGroups ;;
  r <- ask (groups_response w) ;;
  match r with
  | None => throw Rejected
  | Some notificationGroups =>
      match find (fun ng => String.eqb (groupId ng) notificationGroupId)
                 notificationGroups with
      | Some group => ret group
      | None => throw (NotFound notificationGroupId)
      end
  end.

(** The callback of [filterByNotificationGroup]; [None] is the TypeError
    of reading [include] off a [scopes] property that holds
    [undefined]. *)
Definition allowedBy (notificationGroup : NotificationGroup)
    (monitor : Monitor) : option bool :=
  let isAllowed := arr_includes (groupMonitors notificationGroup) (id monitor) in
  let isAllowed :=
    if negb isAllowed then
      match serviceNameOf monitor with
      | Some serviceName =>
          if arr_includes (groupServices notificationGroup) serviceName
          then true else isAllowed
      | None => isAllowed
      end
    else isAllowed in
  if negb isAllowed then
    match scopes monitor with
    | None => Some isAllowed
    | Some (ScopesArray l) =>
        Some (anyScopeAllowed (groupServices notificationGroup) l)
    | Some (ScopesObject (Some include) _) =>
        Some (anyScopeAllowed (groupServices notificationGroup) include)
    | Some (ScopesObject None _) => Some isAllowed
    | Some ScopesUndefined => None
    end
  else Some isAllowed.

Fixpoint filterByNotificationGroup (monitors : list Monitor)
    (notificationGroup : NotificationGroup) : option (list Monitor) :=
  match monitors with
  | [] => Some []
  | monitor :: rest =>
      match allowedBy notificationGroup monitor with
      | None => None
      | Some isAllowed =>
          match filterByNotificationGroup rest notificationGroup with
          | None => None
          | Some kept => Some (if isAllowed then monitor :: kept else kept)
          end
      end
  end.

(** The body of the loop of [displayMonitors]. *)
Definition displayMonitor (monitor : Monitor) : M unit :=
  emit (EvLog (MsgId (id monitor))) ;;
  emit (EvLog (MsgName (name monitor) (isMuted monitor))) ;;
  emit (EvLog (MsgType (type monitor))) ;;
  let scopesList :=
    match scopes monitor with
    | Some sc => scopesToIncludeArray sc
    | None => []
    end in
  let excludeScopesList :=
    match scopes monitor with
    | Some sc => scopesToExcludeArray sc
    | None => []
    end in
  (if Nat.ltb 0 (List.length scopesList)
   then emit (EvLog (MsgScopes scopesList)) else ret tt) ;;
  (if Nat.ltb 0 (List.length excludeScopesList)
   then emit (EvLog (MsgExcludeScopes excludeScopesList)) else ret tt) ;;
  emit (EvLog MsgRule).

Definition displayMonitors (monitors : list Monitor) : M unit :=
  emit (EvLog (MsgCount (List.length monitors))) ;;
  emit (EvLog MsgRule) ;;
  forM monitors displayMonitor.

Definition usage : M unit :=
  emit (EvError MsgUsageHeader) ;;
  emit (EvError MsgUsageService) ;;
  emit (EvError MsgUsageServices) ;;
  emit (EvError MsgUsageGroup).

Definition notJson (format : string) : bool := negb (String.eqb format "json").

(** [main], from [Deno.args] and the value of [MACKEREL_APIKEY]. *)
Definition main (args : list string) (MACKEREL_APIKEY : option string)
  : M unit :=
  match truthy MACKEREL_APIKEY with
  | None => emit (EvError MsgKeyNotSet) ;; usage ;; exit 1
  | Some apiKey =>
      let flags := parseArgs args initialFlags in
      match truthy (serviceFilter flags), truthy (notificationGroupId flags)
      with
      | None, None => emit (EvError MsgFilterRequired) ;; usage ;; exit 1
      | Some _, Some _ => emit (EvError MsgBothFilters) ;; exit 1
      | service, group =>
          try_catch
            ((if notJson (format flags) then emit (EvLog MsgFetching)
              else ret tt) ;;
             monitors <- getMonitors ;;
             monitors <-
               match service, group with
               | Some serviceFilter, _ =>
                   (if notJson (format flags)
                    then emit (EvLog (MsgFilteringService serviceFilter))
                    else ret tt) ;;
                   ret (filterByService monitors serviceFilter
                                        (excludeAllServices flags))
               | None, Some notificationGroupId =>
                   (if notJson (format flags)
                    then emit (EvLog (MsgFilteringGroup notificationGroupId))
                    else ret tt) ;;
                   notificationGroup <- getNotificationGroup notificationGroupId ;;
                   match filterByNotificationGroup monitors notificationGroup
                   with
                   | Some kept => ret kept
                   | None => throw TypeError
                   end
               | None, None => ret monitors
               end ;;
             if String.eqb (format flags) "json"
             then emit (EvLog (MsgJson monitors))
             else displayMonitors monitors)
            (fun e => emit (EvError (MsgFailed e)) ;; exit 1)
      end
  end.

End Script.

(** ** Events of interest and sample data *)

(** Nothing is written to standard output but the JSON document. *)
Definition jsonOnly (e : event) : Prop :=
  match e with
  | EvLog (MsgJson _) => True
  | EvLog _ => False
  | _ => True
  end.

Definition noRequest (e : event) : Prop :=
  match e with
  | EvMonitorsList | EvListNotificationGroups => False
  | _ => True
  end.

Module Sample.

Definition ops : NotificationGroup := mkGroup "ng1" ["m9"%string] ["svcA"%string].
Definition dev : NotificationGroup := mkGroup "ng2" [] ["svcB"%string].

Definition world : World :=
  mkWorld
    (fun _ => Some [ListMonitors.Sample.roleMonitor;
                    ListMonitors.Sample.bareMonitor])
    (fun _ => Some [ops; dev]).

Definition noServiceName : Monitor -> option string := fun _ => None.

(** An external monitor, matched on its name. *)
Definition pingMonitor : Monitor :=
  mkMonitor "m5" "external" "ping example.com" false None.

(** A monitor whose scopes come as an object. *)
Definition objectMonitor : Monitor :=
  mkMonitor "m6" "host" "disk" false
    (Some (ScopesObject (Some ["svcB:db"%string]) (Some ["svcB:tmp"%string]))).

End Sample.

End ListMonitorsCli.

(** * The maintainer scripts: what a run asks for and what it prints *)

Module MaintainerViews.

(** The team slug of a membership request. *)
Definition putSlug (e : MakeTeamMaintainer.event) : list string :=
  match e with
  | MakeTeamMaintainer.EvFetch
      (MakeTeamMaintainer.PutMembership _ teamSlug _ _) => [teamSlug]
  | _ => []
  end.

(** The team name printed by a dry run. *)
Definition printedName (e : MakeTeamMaintainer.event) : list string :=
  match e with
  | MakeTeamMaintainer.EvLog (MakeTeamMaintainer.MsgTeamName n) => [n]
  | _ => []
  end.

(** The team slugs of the membership requests of a history, in order,
    and the team names its dry-run lines print. *)
Definition putSlugs (trace : list MakeTeamMaintainer.event) : list string :=
  flat_map putSlug trace.

Definition printedNames (trace : list MakeTeamMaintainer.event) : list string :=
  flat_map printedName trace.

Definition gqlPutSlug (e : Part001.event) : list string :=
  match e with
  | Part001.EvFetch (Part001.PutMembership _ teamSlug _ _) => [teamSlug]
  | _ => []
  end.

(** The team slug printed by a dry run. *)
Definition gqlPrintedSlug (e : Part001.event) : list string :=
  match e with
  | Part001.EvLog (Part001.MsgTeamSlug s) => [s]
  | _ => []
  end.

Definition gqlPutSlugs (trace : list Part001.event) : list string :=
  flat_map gqlPutSlug trace.

Definition gqlPrintedSlugs (trace : list Part001.event) : list string :=
  flat_map gqlPrintedSlug trace.

(** Not a request of any kind. *)
Definition noFetch (e : MakeTeamMaintainer.event) : Prop :=
  match e with
  | MakeTeamMaintainer.EvFetch _ => False
  | _ => True
  end.

Definition gqlNoFetch (e : Part001.event) : Prop :=
  match e with
  | Part001.EvFetch _ => False
  | _ => True
  end.

(** The user is a member of the team. *)
Definition hasMember (username : string) (team : Part001.Team) : bool :=
  existsb (fun member => String.eqb (Part001.login member) username)
          (Part001.members team).

(** The team a node stands for when its first page of members is the
    last. *)
Definition teamOf (node : Part001.GraphQLTeamNode) : Part001.Team :=
  Part001.mkTeam (Part001.nodeName node) (Part001.nodeSlug node)
    (Part001.nodeId node)
    (map Part001.mkTeamMember (Part001.memberEdges (Part001.nodeMembers node))).

(** The first argument is not the dry-run flag. *)
Definition notDryRun (args : list string) : Prop :=
  match args with
  | a :: _ => a <> "--dry-run"%string
  | [] => True
  end.

Module Sample.

(** An API that answers the list of teams with 404 Not Found. *)
Definition closedWorld : MakeTeamMaintainer.World :=
  MakeTeamMaintainer.mkWorld
    (fun _ => Some (Http.mkResponse 404 (Some "Not Found"%string) None))
    (fun _ => None).

End Sample.

End MaintainerViews.

(** * Facts about the JavaScript values *)

Module JSFacts.

Import JS.

Lemma Qred_inject_Z (z : Z) : Qred (inject_Z z) = inject_Z z.
Proof.
  apply Qcanon.Qred_identity. simpl. apply Z.gcd_1_r.
Qed.

Lemma fin_ofZ (q : Q) (z : Z) : q == inject_Z z -> fin q = ofZ z.
Proof.
  intros H. unfold fin, ofZ. f_equal.
  rewrite (Qred_complete _ _ H). apply Qred_inject_Z.
Qed.

Lemma neg_ofZ (a : Z) : neg (ofZ a) = ofZ (- a).
Proof.
  unfold neg, ofZ at 1. apply fin_ofZ. now rewrite inject_Z_opp.
Qed.

Lemma add_ofZ (a b : Z) : add (ofZ a) (ofZ b) = ofZ (a + b).
Proof.
  unfold add, ofZ at 1 2. apply fin_ofZ. now rewrite inject_Z_plus.
Qed.

Lemma sub_ofZ (a b : Z) : sub (ofZ a) (ofZ b) = ofZ (a - b).
Proof.
  unfold sub. rewrite neg_ofZ, add_ofZ. reflexivity.
Qed.

Lemma mul_ofZ (a b : Z) : mul (ofZ a) (ofZ b) = ofZ (a * b).
Proof.
  unfold mul, ofZ at 1 2. apply fin_ofZ. now rewrite inject_Z_mult.
Qed.

Lemma Qeq_bool_inject_Z (a b : Z) :
  Qeq_bool (inject_Z a) (inject_Z b) = (a =? b)%Z.
Proof.
  unfold Qeq_bool, inject_Z. simpl. now rewrite !Z.mul_1_r.
Qed.

Lemma Qle_bool_inject_Z (a b : Z) :
  Qle_bool (inject_Z a) (inject_Z b) = (a <=? b)%Z.
Proof.
  unfold Qle_bool, inject_Z. simpl. now rewrite !Z.mul_1_r.
Qed.

Lemma Qltb_inject_Z (a b : Z) :
  Qltb (inject_Z a) (inject_Z b) = (a <? b)%Z.
Proof.
  unfold Qltb. rewrite Qle_bool_inject_Z. symmetry. apply Z.ltb_antisym.
Qed.

(** A quotient of integers that comes out whole. *)
Lemma div_ofZ_exact (a b : Z) : b <> 0%Z -> div (ofZ (a * b)) (ofZ b) = ofZ a.
Proof.
  intros Hb. unfold div, ofZ at 1 2.
  change 0 with (inject_Z 0). rewrite Qeq_bool_inject_Z.
  destruct (Z.eqb_spec b 0) as [E | _]; [contradiction |].
  apply fin_ofZ. rewrite inject_Z_mult. field.
  intros H. apply Hb. apply inject_Z_injective. exact H.
Qed.

Lemma Qfloor_half_up (z : Z) : Qfloor (inject_Z z + (1 # 2)) = z.
Proof.
  unfold Qfloor, Qplus, inject_Z. simpl.
  symmetry. apply Z.div_unique with (r := 1%Z); lia.
Qed.

Lemma Qabs_inject_Z (z : Z) : Qabs (inject_Z z) = inject_Z (Z.abs z).
Proof. reflexivity. Qed.

(** [Number(k.toFixed(0))] is [k] for a whole number [k]. *)
Lemma Number_toFixed0_ofZ (k : Z) : Number_toFixed0 (ofZ k) = ofZ k.
Proof.
  unfold Number_toFixed0, ofZ at 1.
  destruct (Qle_bool ten21 (Qabs (inject_Z k))); [reflexivity |].
  change 0 with (inject_Z 0). rewrite Qltb_inject_Z.
  destruct (k <? 0)%Z.
  - rewrite <- inject_Z_opp, Qfloor_half_up. now rewrite Z.opp_involutive.
  - now rewrite Qfloor_half_up.
Qed.

Lemma TimeClip_ofZ (z : Z) :
  (Z.abs z <= maxTime)%Z -> TimeClip (ofZ z) = ofZ z.
Proof.
  intros H. unfold TimeClip, ofZ at 1.
  rewrite Qabs_inject_Z, Qltb_inject_Z.
  destruct (Z.ltb_spec maxTime (Z.abs z)) as [L | _]; [lia |].
  change 0 with (inject_Z 0). rewrite Qltb_inject_Z.
  destruct (z <? 0)%Z; f_equal.
  - apply Qceiling_Z.
  - apply Qfloor_Z.
Qed.

Lemma TimeClip_ofZ_NaN (z : Z) :
  (maxTime < Z.abs z)%Z -> TimeClip (ofZ z) = NaN.
Proof.
  intros H. unfold TimeClip, ofZ.
  rewrite Qabs_inject_Z, Qltb_inject_Z.
  destruct (Z.ltb_spec maxTime (Z.abs z)) as [_ | L]; [reflexivity | lia].
Qed.

Lemma ge_NaN_r (a : number) : ge a NaN = false.
Proof. now destruct a. Qed.

(** ** Binary64 rounding *)

Lemma pow2_pos (e : Z) : 0 < 2 ^ e.
Proof. apply Qpower_0_lt. reflexivity. Qed.

Lemma pow2_add (a b : Z) : 2 ^ (a + b) == 2 ^ a * 2 ^ b.
Proof. apply Qpower_plus. discriminate. Qed.

Lemma pow2_Z (n : Z) : (0 <= n)%Z -> inject_Z (2 ^ n) == 2 ^ n.
Proof. intros H. now rewrite Zpower_Qpower. Qed.

Lemma pow2_le (a b : Z) : (a <= b)%Z -> 2 ^ a <= 2 ^ b.
Proof. intros H. apply Qpower_le_compat_l; [exact H | discriminate]. Qed.

Lemma pow2_lt_inv (a b : Z) : 2 ^ a < 2 ^ b -> (a < b)%Z.
Proof.
  intros H. apply Qpower_lt_compat_l_inv with (q := 2); [exact H | reflexivity].
Qed.

Lemma Qabs_frac (q : Q) :
  Qabs q == inject_Z (Z.abs (Qnum q)) / inject_Z (Zpos (Qden q)).
Proof.
  destruct q as [n d]. unfold Qabs. cbn [Qnum Qden].
  rewrite Qmake_Qdiv. reflexivity.
Qed.

Lemma Qlog2_spec (q : Q) :
  ~ q == 0 -> 2 ^ Qlog2 q <= Qabs q /\ Qabs q < 2 ^ (Qlog2 q + 1).
Proof.
  intros Hq.
  set (a := Z.abs (Qnum q)). set (b := Zpos (Qden q)).
  assert (0 < a)%Z as Ha.
  { unfold a. destruct q as [[| n | n] d]; try reflexivity.
    exfalso. apply Hq. reflexivity. }
  assert (0 < b)%Z as Hb by reflexivity.
  destruct (Z.log2_spec a Ha) as [Ha1 Ha2].
  destruct (Z.log2_spec b Hb) as [Hb1 Hb2].
  pose proof (Z.log2_nonneg a) as Hla. pose proof (Z.log2_nonneg b) as Hlb.
  assert (Qabs q == inject_Z a / inject_Z b) as Eq by apply Qabs_frac.
  assert (0 < inject_Z b) as Hb0
    by (change 0 with (inject_Z 0); now rewrite <- Zlt_Qlt).
  assert (2 ^ (Z.log2 a - Z.log2 b - 1) <= Qabs q) as Lo.
  { rewrite Eq. apply Qle_shift_div_l; [exact Hb0 |].
    apply Qle_trans with (2 ^ (Z.log2 a - Z.log2 b - 1) * 2 ^ (Z.succ (Z.log2 b))).
    - apply Qmult_le_l; [apply pow2_pos |].
      rewrite <- pow2_Z by lia. rewrite <- Zle_Qle. lia.
    - rewrite <- pow2_add.
      replace (Z.log2 a - Z.log2 b - 1 + Z.succ (Z.log2 b))%Z with (Z.log2 a) by lia.
      rewrite <- pow2_Z by lia. now rewrite <- Zle_Qle. }
  assert (Qabs q < 2 ^ (Z.log2 a - Z.log2 b + 1)) as Hi.
  { rewrite Eq. apply Qlt_shift_div_r; [exact Hb0 |].
    apply Qlt_le_trans with (2 ^ (Z.log2 a - Z.log2 b + 1) * 2 ^ Z.log2 b).
    - rewrite <- pow2_add.
      replace (Z.log2 a - Z.log2 b + 1 + Z.log2 b)%Z with (Z.succ (Z.log2 a)) by lia.
      rewrite <- pow2_Z by lia. now rewrite <- Zlt_Qlt.
    - apply Qmult_le_l; [apply pow2_pos |].
      rewrite <- pow2_Z by lia. now rewrite <- Zle_Qle. }
  unfold Qlog2. fold a b.
  destruct (Qle_bool (2 ^ (Z.log2 a - Z.log2 b)) (Qabs q)) eqn:T.
  - apply Qle_bool_iff in T. split; assumption.
  - split; [exact Lo |].
    replace (Z.log2 a - Z.log2 b - 1 + 1)%Z with (Z.log2 a - Z.log2 b)%Z by lia.
    apply Qnot_le_lt. intros H. apply Qle_bool_iff in H. congruence.
Qed.

Lemma Qround_even_Z (x : Q) (z : Z) : x == inject_Z z -> Qround_even x = z.
Proof.
  intros H. unfold Qround_even.
  assert (Qfloor x = z) as -> by (rewrite H; apply Qfloor_Z).
  assert (Qcompare (x - inject_Z z) (1 # 2) = Lt) as ->; [| reflexivity].
  apply (proj1 (Qlt_alt _ _)). rewrite H. lra.
Qed.

Lemma Qround_even_near (x : Q) :
  Qabs (inject_Z (Qround_even x) - x) <= 1 # 2.
Proof.
  unfold Qround_even.
  pose proof (Qfloor_le x) as L. pose proof (Qlt_floor x) as U.
  rewrite inject_Z_plus in U. change (inject_Z 1) with 1 in U.
  apply Qabs_Qle_condition.
  destruct (Qcompare (x - inject_Z (Qfloor x)) (1 # 2)) eqn:C.
  - apply (proj2 (Qeq_alt _ _)) in C.
    destruct (Z.even (Qfloor x)); [| rewrite inject_Z_plus; change (inject_Z 1) with 1];
      split; lra.
  - apply (proj2 (Qlt_alt _ _)) in C. split; lra.
  - apply (proj2 (Qgt_alt _ _)) in C. rewrite inject_Z_plus. change (inject_Z 1) with 1.
    split; lra.
Qed.

Lemma Qeq_bool_false (q : Q) : ~ q == 0 -> Qeq_bool q 0 = false.
Proof.
  intros H. destruct (Qeq_bool q 0) eqn:E; [| reflexivity].
  apply Qeq_bool_eq in E. contradiction.
Qed.

Lemma fin_comp (p q : Q) : p == q -> fin p = fin q.
Proof. intros H. unfold fin. f_equal. now apply Qred_complete. Qed.

(** A binary64 value is its own rounding. *)
Lemma round64_exact (q : Q) (m s0 : Z) :
  q == inject_Z m * 2 ^ s0 ->
  (Z.abs m < 2 ^ 53)%Z -> (-1074 <= s0 <= 971)%Z ->
  round64 q = fin q.
Proof.
  intros Hq Hm Hs. unfold round64.
  destruct (Qeq_bool q 0) eqn:Z0.
  { apply Qeq_bool_eq in Z0. unfold fin. f_equal.
    now rewrite (Qred_complete _ _ Z0). }
  assert (~ q == 0) as Hne.
  { intros H. apply Qeq_eq_bool in H. congruence. }
  destruct (Qlog2_spec Hne) as [Lo Hi].
  assert (Qabs q < 2 ^ (53 + s0)) as Hb.
  { assert (Qabs q == inject_Z (Z.abs m) * 2 ^ s0) as ->.
    { rewrite Hq, Qabs_Qmult.
      rewrite (Qabs_pos (2 ^ s0)) by (apply Qlt_le_weak, pow2_pos).
      reflexivity. }
    rewrite pow2_add. apply Qmult_lt_r; [apply pow2_pos |].
    rewrite <- pow2_Z by lia. now rewrite <- Zlt_Qlt. }
  assert (Qlog2 q < 53 + s0)%Z as He.
  { apply pow2_lt_inv. eapply Qle_lt_trans; eassumption. }
  set (s := Z.max (Qlog2 q - 52) (-1074)).
  assert (s <= s0)%Z as Hss by (unfold s; lia).
  assert (q / 2 ^ s == inject_Z (m * 2 ^ (s0 - s))) as Hint.
  { rewrite inject_Z_mult, pow2_Z by lia.
    rewrite Hq. unfold Zminus. rewrite pow2_add, Qpower_opp.
    field. pose proof (pow2_pos s). lra. }
  rewrite (Qround_even_Z Hint).
  assert (inject_Z (m * 2 ^ (s0 - s)) * 2 ^ s == q) as Hr.
  { rewrite <- Hint. field. pose proof (pow2_pos s). lra. }
  destruct (Qle_bool (2 ^ 1024) (Qabs (inject_Z (m * 2 ^ (s0 - s)) * 2 ^ s))) eqn:O.
  - exfalso. apply Qle_bool_iff in O. rewrite Hr in O.
    apply (Qlt_irrefl (2 ^ 1024)).
    eapply Qle_lt_trans; [exact O |].
    eapply Qlt_le_trans; [exact Hb |]. apply pow2_le. lia.
  - now apply fin_comp.
Qed.

(** Whole numbers of up to 53 bits, shifted left by [j] places. *)
Lemma round64_ofZ_shifted (z j : Z) :
  (0 <= j <= 971)%Z -> (2 ^ j | z)%Z -> (Z.abs z < 2 ^ (53 + j))%Z ->
  round64 (inject_Z z) = ofZ z.
Proof.
  intros Hj [m Hm] Hz.
  rewrite (@round64_exact (inject_Z z) m j); [now apply fin_ofZ | | | lia].
  - rewrite Hm, inject_Z_mult, pow2_Z by lia. reflexivity.
  - rewrite Hm, Z.abs_mul, Z.pow_add_r in Hz by lia.
    rewrite (Z.abs_eq (2 ^ j)) in Hz by (apply Z.pow_nonneg; lia).
    apply Z.mul_lt_mono_pos_r in Hz; [exact Hz | apply Z.pow_pos_nonneg; lia].
Qed.

Lemma round64_ofZ (z : Z) :
  (Z.abs z <= 2 ^ 53)%Z -> round64 (inject_Z z) = ofZ z.
Proof.
  intros H. destruct (Z.eq_dec (Z.abs z) (2 ^ 53)) as [E | N].
  - apply (@round64_ofZ_shifted z 1); [lia | | lia].
    destruct (Z.abs_eq_or_opp z) as [A | A]; rewrite A in E.
    + exists (2 ^ 52)%Z. rewrite E. reflexivity.
    + exists (- 2 ^ 52)%Z. replace z with (- 2 ^ 53)%Z by lia. reflexivity.
  - apply (@round64_ofZ_shifted z 0); [lia | apply Z.divide_1_l | lia].
Qed.

(** The rounding error of a value in the normal range is at most half a
    unit in the last place. *)
Lemma round64_error (q : Q) :
  2 ^ (-1022) <= Qabs q -> Qabs q < 2 ^ 1023 ->
  exists r, round64 q = fin r /\ Qabs (r - q) <= Qabs q * 2 ^ (-53).
Proof.
  intros Hlo Hhi.
  assert (~ q == 0) as Hne.
  { intros H. rewrite H in Hlo. pose proof (pow2_pos (-1022)).
    change (Qabs 0) with 0 in Hlo. lra. }
  destruct (Qlog2_spec Hne) as [Lo Hi].
  assert (-1022 <= Qlog2 q)%Z as He.
  { assert (-1022 < Qlog2 q + 1)%Z; [| lia].
    apply pow2_lt_inv. eapply Qle_lt_trans; eassumption. }
  unfold round64. rewrite (Qeq_bool_false Hne).
  replace (Z.max (Qlog2 q - 52) (-1074)) with (Qlog2 q - 52)%Z by lia.
  set (s := (Qlog2 q - 52)%Z).
  set (m := Qround_even (q / 2 ^ s)).
  pose proof (pow2_pos s) as Hs.
  assert (Qabs (inject_Z m * 2 ^ s - q) <= Qabs q * 2 ^ (-53)) as Herr.
  { assert (inject_Z m * 2 ^ s - q == (inject_Z m - q / 2 ^ s) * 2 ^ s) as ->
      by (field; lra).
    rewrite Qabs_Qmult, (Qabs_pos (2 ^ s)) by lra.
    apply Qle_trans with ((1 # 2) * 2 ^ s).
    - apply Qmult_le_r; [exact Hs | apply Qround_even_near].
    - apply Qle_trans with (2 ^ Qlog2 q * 2 ^ (-53)).
      + rewrite <- pow2_add.
        replace (Qlog2 q + -53)%Z with (s + -1)%Z by (unfold s; lia).
        rewrite pow2_add. change (2 ^ (-1)) with (1 # 2). lra.
      + apply Qmult_le_r; [apply pow2_pos | exact Lo]. }
  exists (inject_Z m * 2 ^ s). split; [| exact Herr].
  destruct (Qle_bool (2 ^ 1024) (Qabs (inject_Z m * 2 ^ s))) eqn:O;
    [exfalso | reflexivity].
  apply Qle_bool_iff in O.
  assert (Qabs (inject_Z m * 2 ^ s) <= Qabs q + Qabs q * 2 ^ (-53)) as T.
  { setoid_replace (inject_Z m * 2 ^ s) with (q + (inject_Z m * 2 ^ s - q)) at 1
      by ring.
    eapply Qle_trans; [apply Qabs_triangle |]. lra. }
  assert (2 ^ (-53) <= 1) as P by (apply (pow2_le (a := -53) (b := 0)); lia).
  assert (0 <= Qabs q) as A by apply Qabs_nonneg.
  assert (Qabs q * 2 ^ (-53) <= Qabs q * 1) as M.
  { rewrite !(Qmult_comm (Qabs q)). now apply Qmult_le_compat_r. }
  assert (2 ^ 1024 == 2 * 2 ^ 1023) as E by reflexivity.
  lra.
Qed.

(** ** The rounding operations on whole numbers *)

Lemma binary64_ofZ (z : Z) :
  (Z.abs z <= 2 ^ 53)%Z -> binary64 (ofZ z) = ofZ z.
Proof. apply round64_ofZ. Qed.

Lemma add64_ofZ (a b : Z) :
  (Z.abs (a + b) <= 2 ^ 53)%Z -> add64 (ofZ a) (ofZ b) = ofZ (a + b).
Proof.
  intros H. unfold add64. rewrite add_ofZ. now apply binary64_ofZ.
Qed.

(** A difference of two dates is even from 2^53 on when it is a whole
    number of minutes. *)
Lemma sub64_ofZ_even (a b : Z) :
  (2 | a - b)%Z -> (Z.abs (a - b) < 2 ^ 54)%Z ->
  sub64 (ofZ a) (ofZ b) = ofZ (a - b).
Proof.
  intros Hd Hb. unfold sub64. rewrite sub_ofZ.
  apply (@round64_ofZ_shifted (a - b) 1); [lia | exact Hd | exact Hb].
Qed.

Lemma div64_ofZ_exact (a b : Z) :
  b <> 0%Z -> (Z.abs a <= 2 ^ 53)%Z -> div64 (ofZ (a * b)) (ofZ b) = ofZ a.
Proof.
  intros Hb Ha. unfold div64. rewrite div_ofZ_exact by exact Hb.
  now apply binary64_ofZ.
Qed.

End JSFacts.

(** * Facts about records of groups *)

Module RecordFacts.

Import JS.

Section Groups.

Variable A : Type.
Variable key : A -> string.

Lemma keys_insert_group (k : string) (a : A) (r : record A) :
  keys (insert_group k a r) =
  if existsb (String.eqb k) (keys r) then keys r else (keys r ++ [k])%list.
Proof.
  induction r as [| [k' g] r IH]; simpl; [reflexivity |].
  destruct (String.eqb k k'); simpl; [reflexivity |].
  rewrite IH. now destruct (existsb (String.eqb k) (keys r)).
Qed.

Lemma NoDup_insert_group (k : string) (a : A) (r : record A) :
  NoDup (keys r) -> NoDup (keys (insert_group k a r)).
Proof.
  intros ND. rewrite keys_insert_group.
  destruct (existsb (String.eqb k) (keys r)) eqn:Ex; [exact ND |].
  apply NoDup_app; [exact ND | repeat constructor; intros [] | ].
  intros x Hx [E | []]. subst x.
  assert (existsb (String.eqb k) (keys r) = true) as T.
  { apply existsb_exists. exists k. split; [exact Hx | apply String.eqb_refl]. }
  congruence.
Qed.

Lemma In_insert_group (k k' : string) (a : A) (g' : list A) (r : record A) :
  In (k', g') (insert_group k a r) ->
  In (k', g') r \/
  (k' = k /\ exists g, g' = (g ++ [a])%list /\ (In (k, g) r \/ g = [])).
Proof.
  induction r as [| [k0 g0] r IH]; simpl.
  - intros [E | []]. inversion E; subst. right. split; [reflexivity |].
    exists []. auto.
  - destruct (String.eqb_spec k k0) as [-> | Hne]; simpl.
    + intros [E | H]; [| now left; right].
      inversion E; subst. right. split; [reflexivity |].
      exists g0. split; [reflexivity | left; now left].
    + intros [E | H]; [now left; left |].
      destruct (IH H) as [H1 | [-> [g [-> [H2 | ->]]]]].
      * left. now right.
      * right. split; [reflexivity |]. exists g. split; [reflexivity |].
        left. now right.
      * right. split; [reflexivity |]. exists []. auto.
Qed.

Lemma placed_insert_new (k : string) (a : A) (r : record A) :
  exists g, In (k, g) (insert_group k a r) /\ In a g.
Proof.
  induction r as [| [k0 g0] r [g [H1 H2]]]; simpl.
  - exists [a]. split; left; reflexivity.
  - destruct (String.eqb_spec k k0) as [-> | Hne].
    + exists (g0 ++ [a])%list. split; [now left |].
      apply in_or_app. right. now left.
    + exists g. split; [now right | exact H2].
Qed.

Lemma placed_insert_old (k : string) (a a' : A) (r : record A) :
  placed a' r -> placed a' (insert_group k a r).
Proof.
  intros (k' & g' & Hin & Ha). revert Hin.
  induction r as [| [k0 g0] r IH]; simpl; [intros [] |].
  intros [E | Hin].
  - inversion E; subst. destruct (String.eqb k k').
    + exists k', (g' ++ [a])%list. split; [now left |].
      apply in_or_app. now left.
    + exists k', g'. split; [now left | exact Ha].
  - destruct (String.eqb k k0).
    + exists k', g'. split; [now right | exact Ha].
    + destruct (IH Hin) as (k1 & g1 & H1 & H2).
      exists k1, g1. split; [now right | exact H2].
Qed.

(** What holds of a record built from the items [l] by successive
    insertions. *)
Record grouped (l : list A) (r : record A) : Prop := mkGrouped {
  grouped_keys : NoDup (keys r);
  grouped_nonempty : forall k g, In (k, g) r -> g <> [];
  grouped_key : forall k g a, In (k, g) r -> In a g -> key a = k;
  grouped_sound : forall a, placed a r -> In a l;
  grouped_complete : forall a, In a l -> placed a r
}.

Lemma grouped_nil : grouped [] [].
Proof.
  constructor; simpl; try (intros; contradiction).
  - constructor.
  - intros a (k & g & [] & _).
Qed.

Lemma grouped_insert (l : list A) (r : record A) (a : A) :
  grouped l r -> grouped (l ++ [a]) (insert_group (key a) a r).
Proof.
  intros [ND NE K S C]. constructor.
  - now apply NoDup_insert_group.
  - intros k g H. apply In_insert_group in H; destruct H
      as [H1 | [-> [g0 [-> _]]]]; [now apply NE in H1 |].
    now destruct g0.
  - intros k g x H Hx. apply In_insert_group in H; destruct H
      as [H1 | [-> [g0 [-> Hg0]]]]; [now apply (K k g) |].
    apply in_app_or in Hx. destruct Hx as [Hx | [<- | []]]; [| reflexivity].
    destruct Hg0 as [Hg0 | ->]; [now apply (K (key a) g0) | contradiction].
  - intros x (k & g & H & Hx). apply in_or_app.
    apply In_insert_group in H; destruct H as [H1 | [-> [g0 [-> Hg0]]]].
    + left. apply S. now exists k, g.
    + apply in_app_or in Hx. destruct Hx as [Hx | [<- | []]].
      * destruct Hg0 as [Hg0 | ->]; [| contradiction].
        left. apply S. now exists (key a), g0.
      * right. now left.
  - intros x Hx. apply in_app_or in Hx. destruct Hx as [Hx | [<- | []]].
    + apply placed_insert_old. now apply C.
    + destruct (placed_insert_new (key a) a r) as (g & H1 & H2).
      now exists (key a), g.
Qed.

Lemma grouped_fold (items l : list A) (r : record A) :
  grouped l r ->
  grouped (l ++ items)
          (fold_left (fun r a => insert_group (key a) a r) items r).
Proof.
  revert l r. induction items as [| a items IH]; intros l r G; simpl.
  - now rewrite app_nil_r.
  - replace (l ++ a :: items)%list with ((l ++ [a]) ++ items)%list
      by now rewrite <- app_assoc.
    apply IH. now apply grouped_insert.
Qed.

Theorem groupBy_grouped (items : list A) : grouped items (groupBy key items).
Proof.
  apply (grouped_fold items (l := [])). apply grouped_nil.
Qed.

(** Enumeration reorders the properties and loses none. *)
Lemma insert_sorted_perm (e : string * list A) (l : record A) :
  Permutation (insert_sorted e l) (e :: l).
Proof.
  induction l as [| e' l IH]; simpl; [reflexivity |].
  destruct (index_le e e'); [reflexivity |].
  rewrite IH. apply perm_swap.
Qed.

Lemma sort_index_perm (l : record A) : Permutation (sort_index l) l.
Proof.
  induction l as [| e l IH]; simpl; [reflexivity |].
  rewrite insert_sorted_perm. now constructor.
Qed.

Lemma filter_split_perm (B : Type) (f : B -> bool) (l : list B) :
  Permutation (filter f l ++ filter (fun x => negb (f x)) l) l.
Proof.
  induction l as [| x l IH]; simpl; [reflexivity |].
  destruct (f x); simpl.
  - now constructor.
  - rewrite <- Permutation_middle. now constructor.
Qed.

Theorem entries_perm (r : record A) : Permutation (entries r) r.
Proof.
  unfold entries. rewrite sort_index_perm. apply filter_split_perm.
Qed.

Lemma entries_In (r : record A) (e : string * list A) :
  In e (entries r) <-> In e r.
Proof.
  split; apply Permutation_in; [| symmetry]; apply entries_perm.
Qed.

Lemma entries_keys_NoDup (r : record A) :
  NoDup (keys r) -> NoDup (keys (entries r)).
Proof.
  apply Permutation_NoDup. apply Permutation_map. symmetry. apply entries_perm.
Qed.

(** Two entries under one key are one entry. *)
Lemma NoDup_keys_functional (r : record A) (k : string) (g g' : list A) :
  NoDup (keys r) -> In (k, g) r -> In (k, g') r -> g = g'.
Proof.
  induction r as [| [k0 g0] r IH]; simpl; [intros _ [] |].
  intros ND H H'. inversion ND as [| ? ? Hnot ND']; subst.
  destruct H as [E | H], H' as [E' | H'].
  - congruence.
  - inversion E; subst. exfalso. apply Hnot.
    change k with (fst (k, g')). now apply in_map.
  - inversion E'; subst. exfalso. apply Hnot.
    change k with (fst (k, g)). now apply in_map.
  - now apply IH.
Qed.

End Groups.

End RecordFacts.

(** * Facts about computations *)

Module EffFacts.

Import Eff.

Section Laws.

Variable E : Type.
Variable X : Type.
Variable P : E -> Prop.

Local Abbreviation M := (Eff.M E X).

Lemma emits_only_ret (A : Type) (a : A) : emits_only P (ret a : M A).
Proof. intros h H. exact H. Qed.

Lemma emits_only_throw (A : Type) (x : X) : emits_only P (throw x : M A).
Proof. intros h H. exact H. Qed.

Lemma emits_only_exit (A : Type) (c : Z) : emits_only P (exit c : M A).
Proof. intros h H. exact H. Qed.

Lemma emits_only_diverge (A : Type) : emits_only P (diverge : M A).
Proof. intros h H. exact H. Qed.

Lemma emits_only_ask (A : Type) (f : list E -> A) :
  emits_only P (ask f : M A).
Proof. intros h H. exact H. Qed.

Lemma emits_only_emit (e : E) : P e -> emits_only P (emit e : M unit).
Proof.
  intros He h H. simpl. apply Forall_app. split; [exact H | now constructor].
Qed.

Lemma emits_only_bind (A B : Type) (m : M A) (k : A -> M B) :
  emits_only P m -> (forall a, emits_only P (k a)) ->
  emits_only P (bind m k).
Proof.
  intros Hm Hk h H. unfold bind. specialize (Hm h H).
  destruct (m h) as [[a | x | c |] h']; simpl in *; try exact Hm.
  now apply Hk.
Qed.

Lemma emits_only_try_catch (A : Type) (m : M A) (handler : X -> M A) :
  emits_only P m -> (forall x, emits_only P (handler x)) ->
  emits_only P (try_catch m handler).
Proof.
  intros Hm Hh h H. unfold try_catch. specialize (Hm h H).
  destruct (m h) as [[a | x | c |] h']; simpl in *; try exact Hm.
  now apply Hh.
Qed.

Lemma emits_only_forM (A : Type) (l : list A) (body : A -> M unit) :
  (forall a, In a l -> emits_only P (body a)) ->
  emits_only P (forM l body).
Proof.
  induction l as [| a l IH]; intros H; simpl.
  - apply emits_only_ret.
  - apply emits_only_bind; [apply H; now left |].
    intros _. apply IH. intros b Hb. apply H. now right.
Qed.

Lemma emits_only_mapM (A B : Type) (f : A -> M B) (l : list A) :
  (forall a, In a l -> emits_only P (f a)) ->
  emits_only P (mapM f l).
Proof.
  induction l as [| a l IH]; intros H; simpl.
  - apply emits_only_ret.
  - apply emits_only_bind; [apply H; now left |].
    intros b. apply emits_only_bind.
    + apply IH. intros c Hc. apply H. now right.
    + intros bs. apply emits_only_ret.
Qed.

(** A loop whose body always completes and never throws completes. *)
Lemma forM_returns (A : Type) (l : list A) (body : A -> M unit) :
  (forall a h, fst (body a h) = Ret tt) ->
  forall h, fst (forM l body h) = Ret tt.
Proof.
  intros Hb. induction l as [| a l IH]; intros h; simpl; [reflexivity |].
  unfold bind. specialize (Hb a h).
  destruct (body a h) as [r h']. simpl in Hb. subst r. apply IH.
Qed.

Lemma forM_app (A : Type) (l1 l2 : list A) (body : A -> M unit) (h : list E) :
  fst (forM l1 body h) = Ret tt ->
  forM (l1 ++ l2) body h = forM l2 body (snd (forM l1 body h)).
Proof.
  revert h. induction l1 as [| a l1 IH]; intros h; simpl; [reflexivity |].
  unfold bind. destruct (body a h) as [[[] | x | c |] h']; simpl;
    try discriminate.
  apply IH.
Qed.

End Laws.

(** Event properties that hold by the shape of the code. *)
Ltac emits :=
  repeat first
    [ apply emits_only_ret | apply emits_only_throw | apply emits_only_exit
    | apply emits_only_diverge | apply emits_only_ask
    | apply emits_only_bind | apply emits_only_try_catch
    | apply emits_only_mapM | apply emits_only_forM
    | apply emits_only_emit; solve [congruence | exact I]
    | match goal with
      | |- forall _, _ => intro
      | |- emits_only _ (match ?x with _ => _ end) => destruct x
      end ].

(** Unfolds the operations of a computation applied to a history. *)
Ltac run :=
  unfold Eff.bind, Eff.emit, Eff.ask, Eff.ret, Eff.throw, Eff.exit,
    Eff.try_catch; cbn beta iota.

End EffFacts.

(** * mackerel-alert-stats.ts: properties *)

Module AlertStatsFacts.

Import JS Eff AlertStats JSFacts RecordFacts EffFacts.

Section World.

Variable w : World.

(** ** Mean time to repair *)

(** The difference of the two dates is a whole number of minutes, hence
    even, and below 2^54: it is a binary64 value, and so is its quotient
    by 60000. *)
Lemma minutesOpen_closedAfter (k : Z) (alert : Alert) (h : list event) :
  closedAfter (ofZ k) alert -> (Z.abs k <= maxMinutes)%Z ->
  minutesOpen w alert h = (Ret (ofZ k), h).
Proof.
  intros (o & c & Ho & Hc & Hv) Hk. unfold minutesOpen, bind.
  change maxMinutes with 288000000000%Z in Hk.
  rewrite Hc. unfold ret. rewrite Ho, Hv, mul_ofZ, add_ofZ.
  replace (o + k * 60000 - o)%Z with (k * 60000)%Z by lia.
  rewrite sub64_ofZ_even;
    replace (o + k * 60000 - o)%Z with (k * 60000)%Z by lia.
  - rewrite div64_ofZ_exact by lia. reflexivity.
  - exists (k * 30000)%Z. lia.
  - change (2 ^ 54)%Z with 18014398509481984%Z. lia.
Qed.

Lemma mapM_minutesOpen (k : Z) (alerts : list Alert) (h : list event) :
  Forall (closedAfter (ofZ k)) alerts -> (Z.abs k <= maxMinutes)%Z ->
  mapM (minutesOpen w) alerts h = (Ret (repeat (ofZ k) (List.length alerts)), h).
Proof.
  intros Hall Hk.
  induction Hall as [| a l Ha _ IH]; simpl; [reflexivity |].
  unfold bind at 1. rewrite (minutesOpen_closedAfter _ Ha Hk).
  unfold bind at 1. now rewrite IH.
Qed.

(** While the partial sums stay within 2^53, none of them is rounded. *)
Lemma sum_repeat (k s : Z) (n : nat) :
  (Z.abs s + Z.of_nat n * Z.abs k <= 2 ^ 53)%Z ->
  fold_left (fun acc cur => add64 acc cur) (repeat (ofZ k) n) (ofZ s)
  = ofZ (s + Z.of_nat n * k).
Proof.
  revert s. induction n as [| n IH]; intros s Hs.
  - simpl. f_equal. lia.
  - cbn [repeat fold_left]. rewrite add64_ofZ by lia.
    rewrite IH by lia. f_equal. lia.
Qed.

(** An alert list is empty or not, and [getMTTR] of the empty list is 0. *)
Lemma getMTTR_nil (h : list event) : getMTTR w [] h = (Ret (ofZ 0), h).
Proof. reflexivity. Qed.

(** ** The first page *)

(** Whenever the clock is not before the bound, [getAlerts] asks for one
    page and returns it. *)
Lemma getAlerts_first_page (fuel : nat) (from : Date) (page : Page)
    (h : list event) :
  date_ge (clock w (h ++ [EvNow])) from = true ->
  alerts_list w (h ++ [EvNow; EvAlertsList None]) = Some page ->
  getAlerts w (S fuel) from h
  = (Ret (alerts page), h ++ [EvNow; EvAlertsList None]).
Proof.
  intros Hclock Hpage.
  unfold getAlerts, now, bind, emit, ask. simpl.
  unfold cli_alerts_list, bind, emit, ask.
  rewrite <- app_assoc. simpl. rewrite Hpage. unfold ret.
  destruct page as [resAlerts resCursor]. simpl.
  now rewrite Hclock.
Qed.

(** ** The two windows *)

Lemma placed_groupBy_filter (p : Alert -> bool) (alerts : list Alert)
    (a : Alert) :
  placed a (groupBy groupKey (filter p alerts)) <-> In a alerts /\ p a = true.
Proof.
  rewrite <- filter_In.
  destruct (groupBy_grouped groupKey (filter p alerts)) as [_ _ _ S C].
  split; [apply S | apply C].
Qed.

Lemma prevOf_valid (from to : Date) (f t : Z) :
  valueOf from = ofZ f -> valueOf to = ofZ t ->
  (Z.abs (2 * f - t) <= maxTime)%Z ->
  valueOf (prevOf from to) = ofZ (2 * f - t).
Proof.
  intros Hf Ht Hr. unfold prevOf, newDate. cbn [valueOf].
  rewrite Hf, Ht, mul_ofZ, sub_ofZ. now apply TimeClip_ofZ.
Qed.

(** ** Availability *)

Lemma windowMinOf_whole (from to : Date) (f t : Z) :
  valueOf from = ofZ f -> valueOf to = ofZ t ->
  windowMinOf from to = ofZ ((2 * (t - f) + 60000) / 120000).
Proof.
  intros Hf Ht. unfold windowMinOf. rewrite Hf, Ht, sub_ofZ.
  unfold div, ofZ at 1 2, fin, Math_round.
  change (Qeq_bool (inject_Z 60000) 0) with false. cbv iota. f_equal.
  rewrite (Qfloor_comp _ (inject_Z (t - f) / inject_Z 60000 + (1 # 2))).
  - replace (2 * (t - f) + 60000)%Z with ((t - f) * 1 * 2 + 60000)%Z by lia.
    reflexivity.
  - now rewrite Qred_correct.
Qed.

Lemma availability_no_downTime (windowMin : Z) :
  (1 <= windowMin)%Z -> availability (ofZ windowMin) (ofZ 0) = ofZ 100.
Proof.
  intros H. unfold availability. rewrite sub_ofZ, mul_ofZ.
  rewrite Z.sub_0_r. apply div_ofZ_exact. lia.
Qed.

(** ** The report loop *)

Lemma getAlertStats_emits (P : event -> Prop) (alerts : list Alert) :
  P EvNow -> emits_only P (getAlertStats w alerts).
Proof.
  intros HP. unfold getAlertStats, getMTTR, minutesOpen, now.
  apply emits_only_bind; [| emits].
  destruct (Nat.eqb (List.length alerts) 0); [emits |].
  apply emits_only_bind; [| emits].
  apply emits_only_mapM. intros a _.
  apply emits_only_bind; [| emits].
  destruct (closedAt a); [emits |].
  apply emits_only_bind; [now apply emits_only_emit | emits].
Qed.

Lemma reportMonitor_other (k k' : string) (g : list Alert) (windowMin : number)
    (prevAlertsByMonitor : record Alert) :
  k' <> k ->
  emits_only (fun e => e <> EvMonitorsGet k)
             (reportMonitor w windowMin prevAlertsByMonitor (k', g)).
Proof.
  intros Hk. unfold reportMonitor, cli_monitors_get_name.
  apply emits_only_bind; [emits |]. intros first.
  destruct (String.eqb (type first) "check"); [emits |].
  destruct (monitorId first); [| emits].
  apply emits_only_bind; [emits |]. intros monitorName.
  apply emits_only_bind; [apply getAlertStats_emits; congruence |].
  intros currentStats.
  apply emits_only_bind; [apply getAlertStats_emits; congruence |].
  intros prevStats. emits.
Qed.

Lemma reportMonitor_skips (windowMin : number)
    (prevAlertsByMonitor : record Alert) (k : string) (first : Alert)
    (rest : list Alert) (h : list event) :
  isCheck first \/ isDeleted first ->
  reportMonitor w windowMin prevAlertsByMonitor (k, first :: rest) h
  = (Ret tt, h).
Proof.
  unfold reportMonitor, isCheck, isDeleted, bind, ret.
  intros [H | H]; rewrite H; [reflexivity |].
  now destruct (String.eqb (type first) "check").
Qed.

(** C5.  A group of the current window whose alerts are all of type
    "check", or all without a monitor id, is passed over by the report
    loop: its iteration ends normally and leaves the history as it was
    (no name lookup, no line), and the whole loop makes no name lookup
    under that group's key. *)
Theorem report_skips_check_and_deleted (prev from to : Date)
    (fetched : list Alert) (windowMin : number) (key : string)
    (group : list Alert) :
  let alertsByMonitor := fst (splitWindows prev from to fetched) in
  let prevAlertsByMonitor := snd (splitWindows prev from to fetched) in
  In (key, group) (entries alertsByMonitor) ->
  Forall isCheck group \/ Forall isDeleted group ->
  (forall h,
     reportMonitor w windowMin prevAlertsByMonitor (key, group) h
     = (Ret tt, h)) /\
  emits_only (fun e => e <> EvMonitorsGet key)
             (forM (entries alertsByMonitor)
                   (reportMonitor w windowMin prevAlertsByMonitor)).
Proof.
  intros cur prv Hin Hall.
  pose proof (groupBy_grouped groupKey (filter (inWindow from to) fetched))
    as G. fold cur in G. change (grouped groupKey (filter (inWindow from to) fetched) cur) in G.
  assert (forall h, reportMonitor w windowMin prv (key, group) h = (Ret tt, h))
    as Hskip.
  { intros h. destruct group as [| first rest].
    - apply (proj1 (entries_In _ _)) in Hin.
      now apply (grouped_nonempty G) in Hin.
    - apply reportMonitor_skips.
      destruct Hall as [H | H]; inversion H; auto. }
  split; [exact Hskip |].
  apply emits_only_forM. intros [k' g'] Hin'.
  destruct (String.eqb_spec k' key) as [-> | Hne].
  - assert (g' = group) as ->.
    { apply (@NoDup_keys_functional _ (entries cur) key); auto.
      apply entries_keys_NoDup. apply (grouped_keys G). }
    intros h Hh. now rewrite Hskip.
  - now apply reportMonitor_other.
Qed.

(** The test of a window, for an alert opened at a valid date. *)
Lemma inWindow_ofZ (lo hi : Date) (l u o : Z) (alert : Alert) :
  valueOf lo = ofZ l -> valueOf hi = ofZ u ->
  valueOf (openedAt alert) = ofZ o ->
  inWindow lo hi alert = true <-> (l <= o < u)%Z.
Proof.
  intros Hl Hu Ho. unfold inWindow, date_ge, date_lt.
  rewrite Hl, Hu, Ho. unfold ge, lt, ofZ.
  rewrite Qle_bool_inject_Z, Qltb_inject_Z, andb_true_iff, Z.leb_le, Z.ltb_lt.
  reflexivity.
Qed.

(** The split of any list of alerts, for a previous start
    [2*from - to] that is a representable date. *)
Lemma splitWindows_disjoint_cover (from to : Date) (f t : Z)
    (fetched : list Alert) :
  valueOf from = ofZ f -> valueOf to = ofZ t ->
  (Z.abs (2 * f - t) <= maxTime)%Z ->
  let prev := prevOf from to in
  let alertsByMonitor := fst (splitWindows prev from to fetched) in
  let prevAlertsByMonitor := snd (splitWindows prev from to fetched) in
  valueOf prev = ofZ (2 * f - t) /\
  sub (valueOf to) (valueOf from) = sub (valueOf from) (valueOf prev) /\
  (forall alert,
     placed alert alertsByMonitor \/ placed alert prevAlertsByMonitor ->
     In alert fetched) /\
  forall alert o, In alert fetched -> valueOf (openedAt alert) = ofZ o ->
    (placed alert alertsByMonitor <-> (f <= o < t)%Z) /\
    (placed alert prevAlertsByMonitor <-> (2 * f - t <= o < f)%Z) /\
    ((2 * f - t <= o < t)%Z ->
     (placed alert alertsByMonitor /\ ~ placed alert prevAlertsByMonitor) \/
     (placed alert prevAlertsByMonitor /\ ~ placed alert alertsByMonitor)).
Proof.
  intros Hf Ht Hr prev cur prv.
  assert (valueOf prev = ofZ (2 * f - t)) as Hp
    by now apply prevOf_valid.
  split; [exact Hp |]. split.
  { rewrite Hp, Hf, Ht, !sub_ofZ. f_equal. lia. }
  unfold cur, prv, splitWindows. cbn [fst snd]. split.
  { intros a [H | H]; apply placed_groupBy_filter in H; tauto. }
  intros a o Ha Ho. rewrite !placed_groupBy_filter.
  rewrite (@inWindow_ofZ from to f t o a Hf Ht Ho),
    (@inWindow_ofZ prev from (2 * f - t) f o a Hp Hf Ho).
  repeat split; try tauto; try lia.
  intros Hin. destruct (Z.le_gt_cases f o); [left | right]; split;
    try (split; [exact Ha | lia]); intros [_ H']; lia.
Qed.

(** [getAlerts] returns only for a bound that is a valid date: the loop
    leaves through [currentOpenedAt >= from], false for an invalid one. *)
Lemma getAlerts_loop_bound_valid (fuel : nat) (from : Date)
    (alerts : list Alert) (cursor : option string) (currentOpenedAt : Date)
    (h h' : list event) (fetched : list Alert) :
  getAlerts_loop w fuel from alerts cursor currentOpenedAt h
  = (Ret fetched, h') ->
  valueOf from <> NaN.
Proof.
  revert alerts cursor currentOpenedAt h.
  induction fuel as [| fuel IH]; intros alerts cursor currentOpenedAt h;
    cbn [getAlerts_loop]; [discriminate |].
  unfold cli_alerts_list, delay. run.
  destruct (alerts_list w _) as [[resAlerts resCursor] |]; run;
    [| discriminate].
  destruct (date_ge currentOpenedAt from) eqn:Hge.
  - intros _ HNaN. unfold date_ge in Hge. rewrite HNaN, ge_NaN_r in Hge.
    discriminate.
  - destruct (nth_error resAlerts _) as [lastAlert |]; run;
      [apply IH | discriminate].
Qed.

(** C2.  Whenever [getAlertsByMonitor], called as the script calls it
    with dates at [f] and [t] milliseconds, returns its two records: the
    previous start is the date at [2*f - t], the two windows have the
    same length, and the records hold fetched alerts only.  A fetched
    alert opened at [o] milliseconds sits in a group of the current
    record exactly when [f <= o < t], and in a group of the previous
    record exactly when [2*f - t <= o < f]; opened anywhere from
    [2*f - t] on and before [t], it sits in exactly one of the two. *)
Theorem window_split_disjoint_cover (fuel : nat) (from to : Date) (f t : Z)
    (h h' : list event) (alertsByMonitor prevAlertsByMonitor : record Alert) :
  valueOf from = ofZ f -> valueOf to = ofZ t ->
  let prev := prevOf from to in
  getAlertsByMonitor w fuel prev from to h
  = (Ret (alertsByMonitor, prevAlertsByMonitor), h') ->
  valueOf prev = ofZ (2 * f - t) /\
  sub (valueOf to) (valueOf from) = sub (valueOf from) (valueOf prev) /\
  exists fetched,
    getAlerts w fuel prev h = (Ret fetched, h') /\
    (forall alert,
       placed alert alertsByMonitor \/ placed alert prevAlertsByMonitor ->
       In alert fetched) /\
    forall alert o, In alert fetched -> valueOf (openedAt alert) = ofZ o ->
      (placed alert alertsByMonitor <-> (f <= o < t)%Z) /\
      (placed alert prevAlertsByMonitor <-> (2 * f - t <= o < f)%Z) /\
      ((2 * f - t <= o < t)%Z ->
       (placed alert alertsByMonitor /\ ~ placed alert prevAlertsByMonitor) \/
       (placed alert prevAlertsByMonitor /\ ~ placed alert alertsByMonitor)).
Proof.
  intros Hf Ht prev Hrun.
  unfold getAlertsByMonitor, bind in Hrun.
  destruct (getAlerts w fuel prev h) as [[fetched | x | c |] h1] eqn:Hget;
    try discriminate.
  unfold ret in Hrun. inversion Hrun as [[Hcur Hprv Hh]]. subst h1.
  assert (Z.abs (2 * f - t) <= maxTime)%Z as Hr.
  { destruct (Z.le_gt_cases (Z.abs (2 * f - t)) maxTime) as [L | G];
      [exact L | exfalso].
    unfold getAlerts, now in Hget. revert Hget. run. intros Hget.
    apply getAlerts_loop_bound_valid in Hget. apply Hget.
    unfold prev, prevOf, newDate. cbn [valueOf].
    rewrite Hf, Ht, mul_ofZ, sub_ofZ. now apply TimeClip_ofZ_NaN. }
  destruct (splitWindows_disjoint_cover from to fetched Hf Ht Hr)
    as (Hp & Hlen & Hsound & Hcover).
  split; [exact Hp |]. split; [exact Hlen |].
  exists fetched. split; [reflexivity |]. split; [exact Hsound | exact Hcover].
Qed.

(** C3, as amended.  For a time range of at least 30000 ms (so that the
    window rounds to one minute or more), statistics with no down time
    give an availability of exactly 100. *)
Theorem availability_full_without_downTime (from to : Date) (f t : Z)
    (stats : AlertStats) :
  valueOf from = ofZ f -> valueOf to = ofZ t ->
  (30000 <= t - f)%Z ->
  downTime stats = ofZ 0 ->
  availability (windowMinOf from to) (downTime stats) = ofZ 100.
Proof.
  intros Hf Ht Hd H0. rewrite H0. erewrite windowMinOf_whole by eassumption.
  apply availability_no_downTime.
  apply Z.div_le_lower_bound; lia.
Qed.

(** C4, as amended.  For a non-empty list of [n] alerts each closed a
    whole number [k] of minutes after it opened, with [k] a span between
    two dates and [n * |k|] at most 2^53, [getMTTR] returns exactly [k]
    (and reads no clock): no difference, quotient or partial sum of the
    computation is rounded. *)
Theorem getMTTR_whole_minutes (k : Z) (alerts : list Alert) (h : list event) :
  alerts <> [] ->
  Forall (closedAfter (ofZ k)) alerts ->
  (Z.abs k <= maxMinutes)%Z ->
  (Z.of_nat (List.length alerts) * Z.abs k <= 2 ^ 53)%Z ->
  getMTTR w alerts h = (Ret (ofZ k), h).
Proof.
  intros Hne Hall Hk Hsum. unfold getMTTR.
  destruct alerts as [| a l]; [contradiction |].
  cbn [Nat.eqb List.length]. unfold bind.
  rewrite (mapM_minutesOpen h Hall Hk). unfold ret.
  rewrite sum_repeat by (cbn [Z.abs Z.add]; exact Hsum).
  unfold ofNat. cbn [Z.add].
  rewrite Z.mul_comm, div64_ofZ_exact.
  - now rewrite Number_toFixed0_ofZ.
  - cbn [List.length]. lia.
  - change maxMinutes with 288000000000%Z in Hk.
    change (2 ^ 53)%Z with 9007199254740992%Z. lia.
Qed.

End World.

(** ** Runs on the sample data *)

Import Sample.

(** C1.  With the clock at 1000000 ms and the bound at 500000 ms, the
    first page holds one alert, opened at 900000 ms, after the bound.
    [getAlerts] makes its one request and returns that page: the oldest
    alert fetched is still newer than the bound, and no second page is
    asked for. *)
Theorem getAlerts_returns_after_first_page :
  let bound := dateAt 500000 in
  Forall (fun alert => date_lt bound (openedAt alert) = true) [recent] /\
  forall fuel,
    getAlerts pagedWorld (S fuel) bound []
    = (Ret [recent], [EvNow; EvAlertsList None]) /\
    List.length (filter isAlertsList [EvNow; EvAlertsList None]) = 1%nat.
Proof.
  split; [repeat constructor |].
  intros fuel. split; [| reflexivity].
  now apply (@getAlerts_first_page pagedWorld fuel (dateAt 500000)
               (mkPage [recent] (Some "c1"%string)) []).
Qed.

Lemma window_split_witness :
  let from := dateAt 2000000 in
  let to := dateAt 4000000 in
  let w := AlertStatsViews.Sample.mixedWorld in
  exists alertsByMonitor prevAlertsByMonitor,
    getAlertsByMonitor w 1 (prevOf from to) from to []
    = (Ret (alertsByMonitor, prevAlertsByMonitor), [EvNow; EvAlertsList None]) /\
    (placed AlertStatsViews.Sample.late alertsByMonitor /\
     ~ placed AlertStatsViews.Sample.late prevAlertsByMonitor) /\
    (placed AlertStatsViews.Sample.atFrom alertsByMonitor /\
     ~ placed AlertStatsViews.Sample.atFrom prevAlertsByMonitor) /\
    (placed recent prevAlertsByMonitor /\ ~ placed recent alertsByMonitor) /\
    (placed hourLong1 prevAlertsByMonitor /\ ~ placed hourLong1 alertsByMonitor) /\
    (~ placed AlertStatsViews.Sample.atTo alertsByMonitor /\
     ~ placed AlertStatsViews.Sample.atTo prevAlertsByMonitor).
Proof.
  cbv zeta. eexists. eexists. split; [reflexivity |].
  destruct (@window_split_disjoint_cover AlertStatsViews.Sample.mixedWorld 1
              (dateAt 2000000) (dateAt 4000000) 2000000 4000000
              [] [EvNow; EvAlertsList None] _ _
              eq_refl eq_refl eq_refl)
    as (_ & _ & fetched & Hget & _ & Hcover).
  assert (fetched = AlertStatsViews.Sample.mixedPage) as ->
    by (vm_compute in Hget; now inversion Hget).
  pose proof (Hcover AlertStatsViews.Sample.late 3000000%Z) as H1.
  pose proof (Hcover AlertStatsViews.Sample.atFrom 2000000%Z) as H2.
  pose proof (Hcover recent 900000%Z) as H3.
  pose proof (Hcover hourLong1 0%Z) as H4.
  pose proof (Hcover AlertStatsViews.Sample.atTo 4000000%Z) as H5.
  unfold AlertStatsViews.Sample.mixedPage in *. cbn [In] in *.
  repeat split;
    first [ apply H1 | apply H2 | apply H3 | apply H4 | apply H5
          | intros F; first [ apply H1 in F | apply H2 in F | apply H3 in F
                            | apply H4 in F | apply H5 in F ] ];
    auto 8; try reflexivity; try lia.
Defined.

(** C3 as stated fails on a window shorter than 30 seconds: the window
    rounds to 0 minutes and the availability is 0/0.  In a run of the
    script over the window from 0 to 1000 ms, the previous window has no
    alert, hence no down time, and the line printed carries NaN as its
    availability. *)
Lemma availability_short_window_NaN :
  lt (valueOf (dateAt 0)) (valueOf (dateAt 1000)) = true /\
  getAlertStats busyWorld [] [] = (Ret (mkAlertStats (ofZ 0) (ofZ 0) (ofZ 0)), []) /\
  downTime (mkAlertStats (ofZ 0) (ofZ 0) (ofZ 0)) = ofZ 0 /\
  windowMinOf (dateAt 0) (dateAt 1000) = ofZ 0 /\
  availability (windowMinOf (dateAt 0) (dateAt 1000))
               (downTime (mkAlertStats (ofZ 0) (ofZ 0) (ofZ 0))) = NaN /\
  NaN <> ofZ 100 /\
  script busyWorld 1 (Some "key"%string) (dateAt 0) (dateAt 1000) []
  = (Ret tt,
     [EvNow; EvAlertsList None;
      EvHeader (dateAt 0) (dateAt 1000) (dateAt (-1000));
      EvColumns; EvMonitorsGet "m1";
      EvLine "web" (ofZ 2) (ofZ 0) (ofZ 60) (ofZ 0) NegInf NaN]).
Proof.
  repeat split; discriminate.
Qed.

Lemma availability_full_witness :
  (30000 <= 3600000 - 0)%Z /\
  availability (windowMinOf (dateAt 0) (dateAt 3600000))
               (downTime (mkAlertStats (ofZ 0) (ofZ 0) (ofZ 0))) = ofZ 100.
Proof.
  split; [lia |].
  apply (availability_full_without_downTime (dateAt 0) (dateAt 3600000)
           (f := 0) (t := 3600000)); [reflexivity | reflexivity | lia | reflexivity].
Defined.

(** C4 as stated fails for a [k] that is not whole: an alert closed a
    quarter of a minute after it opened has a mean time to repair of 0. *)
Lemma getMTTR_quarter_minute :
  closedAfter (fin (1 # 4)) quarterMinute /\
  getMTTR busyWorld [quarterMinute] [] = (Ret (ofZ 0), []) /\
  ofZ 0 <> fin (1 # 4).
Proof.
  split; [| split; [reflexivity | discriminate]].
  exists 0%Z, (dateAt 15000). repeat split.
Qed.

Lemma getMTTR_whole_witness :
  [hourLong1; hourLong2] <> [] /\
  getMTTR busyWorld [hourLong1; hourLong2] [] = (Ret (ofZ 60), []).
Proof.
  split; [discriminate |].
  apply (getMTTR_whole_minutes busyWorld (k := 60));
    [discriminate | | vm_compute; discriminate | vm_compute; discriminate].
  repeat constructor; exists 0%Z, (dateAt 3600000); repeat split.
Defined.

Lemma report_skips_witness :
  let from := dateAt 0 in
  let to := dateAt 3600000 in
  let fetched := [hourLong1; checkAlert; orphanAlert] in
  let groups := splitWindows (prevOf from to) from to fetched in
  In ("m3"%string, [checkAlert]) (entries (fst groups)) /\
  (forall h,
     reportMonitor busyWorld (windowMinOf from to) (snd groups)
                   ("m3"%string, [checkAlert]) h = (Ret tt, h)) /\
  emits_only (fun e => e <> EvMonitorsGet "m3")
             (forM (entries (fst groups))
                   (reportMonitor busyWorld (windowMinOf from to) (snd groups))).
Proof.
  split.
  - vm_compute. tauto.
  - apply (@report_skips_check_and_deleted busyWorld
             (prevOf (dateAt 0) (dateAt 3600000)) (dateAt 0) (dateAt 3600000)
             [hourLong1; checkAlert; orphanAlert]
             (windowMinOf (dateAt 0) (dateAt 3600000))
             "m3"%string [checkAlert]).
    + vm_compute. tauto.
    + left. repeat constructor.
Defined.

(** C10.  Two alerts on one monitor, each open for the whole hour of a
    one-hour window: the down time, count times mean time to repair, is
    120 minutes against a window of 60, and the line printed for the
    monitor carries an availability of -100. *)
Theorem availability_not_clamped :
  exists (alerts : list Alert) (stats : AlertStats) (trace : list event),
    let from := dateAt 0 in
    let to := dateAt 3600000 in
    getAlertStats busyWorld alerts [] = (Ret stats, []) /\
    downTime stats = mul (count stats) (mttr stats) /\
    lt (windowMinOf from to) (downTime stats) = true /\
    lt (availability (windowMinOf from to) (downTime stats)) (ofZ 0) = true /\
    script busyWorld 1 (Some "key"%string) from to [] = (Ret tt, trace) /\
    exists name c pc m pm pa,
      In (EvLine name c pc m pm
                 (availability (windowMinOf from to) (downTime stats)) pa)
         trace.
Proof.
  exists [hourLong1; hourLong2],
         (mkAlertStats (ofZ 2) (ofZ 60) (ofZ 120)),
         [EvNow; EvAlertsList None;
          EvHeader (dateAt 0) (dateAt 3600000) (dateAt (-3600000));
          EvColumns; EvMonitorsGet "m1";
          EvLine "web" (ofZ 2) (ofZ 0) (ofZ 60) (ofZ 0) (ofZ (-100)) (ofZ 100)].
  cbv zeta. repeat split.
  exists "web"%string, (ofZ 2), (ofZ 0), (ofZ 60), (ofZ 0), (ofZ 100).
  simpl. tauto.
Qed.

End AlertStatsFacts.

(** * list_monitors.ts, both copies: properties *)

Module ListMonitorsFacts.

Import JS.

(** ** The current script *)

Lemma keeps_role_svcA (monitor : ListMonitors.Monitor) (ea : bool) :
  ListMonitors.nameMatched (ListMonitors.type monitor) = false ->
  ListMonitors.scopes monitor
  = Some (ListMonitors.ScopesArray ["svcA:role"%string]) ->
  ListMonitors.keeps (map trim (split "," "svcA")) ea monitor = true /\
  ListMonitors.keeps (map trim (split "," "svcB")) ea monitor = false.
Proof.
  intros Hty Hsc. unfold ListMonitors.keeps. rewrite Hty, Hsc.
  now destruct ea.
Qed.

Lemma keeps_noScopes (services : list string) (ea : bool)
    (monitor : ListMonitors.Monitor) :
  ListMonitors.nameMatched (ListMonitors.type monitor) = false ->
  ListMonitors.noScopes monitor ->
  ListMonitors.keeps services ea monitor = negb ea.
Proof.
  intros Hty Hno. unfold ListMonitors.keeps, ListMonitors.noScopes in *.
  rewrite Hty. destruct (ListMonitors.scopes monitor) as [sc |];
    [| reflexivity].
  rewrite Hno. now destruct ea.
Qed.

(** ** The earlier copy *)

Lemma excluded_false (service : string) (monitor : Part000.Monitor) :
  Part000.notExcludedFrom service monitor ->
  match Part000.excludeScopes monitor with
  | Some l =>
      Nat.ltb 0 (List.length l) && existsb (Part000.servicePartIs service) l
  | None => false
  end = false.
Proof.
  unfold Part000.notExcludedFrom.
  destruct (Part000.excludeScopes monitor) as [l |]; [| reflexivity].
  intros ->. apply andb_false_r.
Qed.

Lemma legacy_keeps_role_svcA (monitor : Part000.Monitor) (ea : bool) :
  Part000.nameMatched (Part000.type monitor) = false ->
  Part000.scopes monitor = Some ["svcA:role"%string] ->
  Part000.notExcludedFrom "svcA" monitor ->
  Part000.keeps "svcA" ea monitor = true.
Proof.
  intros Hty Hsc Hex. unfold Part000.keeps.
  rewrite Hty, (excluded_false _ _ Hex), Hsc. now destruct ea.
Qed.

Lemma legacy_keeps_role_svcB (monitor : Part000.Monitor) (ea : bool) :
  Part000.nameMatched (Part000.type monitor) = false ->
  Part000.scopes monitor = Some ["svcA:role"%string] ->
  Part000.keeps "svcB" ea monitor = false.
Proof.
  intros Hty Hsc. unfold Part000.keeps. rewrite Hty, Hsc.
  destruct (match Part000.excludeScopes monitor with
            | Some l => _ | None => _ end); [reflexivity |].
  now destruct ea.
Qed.

Lemma legacy_keeps_noScopes_excludeAll (service : string)
    (monitor : Part000.Monitor) :
  Part000.nameMatched (Part000.type monitor) = false ->
  Part000.noScopes monitor ->
  Part000.keeps service true monitor = false.
Proof.
  intros Hty Hno. unfold Part000.keeps, Part000.noScopes in *.
  rewrite Hty, Hno.
  now destruct (match Part000.excludeScopes monitor with
                | Some l => _ | None => _ end).
Qed.

Lemma legacy_keeps_noScopes_includeAll (service : string)
    (monitor : Part000.Monitor) :
  Part000.nameMatched (Part000.type monitor) = false ->
  Part000.noScopes monitor ->
  Part000.notExcludedFrom service monitor ->
  Part000.keeps service false monitor = true.
Proof.
  intros Hty Hno Hex. unfold Part000.keeps, Part000.noScopes in *.
  now rewrite Hty, (excluded_false _ _ Hex), Hno.
Qed.

(** ** The filter on one monitor, in both copies *)

Import Part000.Sample.

(** C6 as stated fails on the earlier copy: a monitor scoped to
    svcA:role that excludes svcA:db is dropped by the filter for svcA. *)
Lemma legacy_filter_drops_excluded_role :
  Part000.nameMatched (Part000.type excludedRoleMonitor) = false /\
  Part000.scopes excludedRoleMonitor = Some ["svcA:role"%string] /\
  Part000.filterByService [excludedRoleMonitor] "svcA" false = [] /\
  ~ In excludedRoleMonitor
       (Part000.filterByService [excludedRoleMonitor] "svcA" false).
Proof.
  repeat split. intros [].
Qed.

(** C6, as amended.  A monitor that is not matched on its name and whose
    scopes are [["svcA:role"]] is excluded by the filter for svcB; it is
    included by the filter for svcA, in the earlier copy provided none of
    its exclude scopes belongs to svcA. *)
Theorem filterByService_role_scope
    (monitor : ListMonitors.Monitor) (monitors : list ListMonitors.Monitor)
    (legacy : Part000.Monitor) (legacyMonitors : list Part000.Monitor)
    (excludeAllServices : bool) :
  ListMonitors.nameMatched (ListMonitors.type monitor) = false ->
  ListMonitors.scopes monitor
  = Some (ListMonitors.ScopesArray ["svcA:role"%string]) ->
  In monitor monitors ->
  Part000.nameMatched (Part000.type legacy) = false ->
  Part000.scopes legacy = Some ["svcA:role"%string] ->
  In legacy legacyMonitors ->
  (In monitor (ListMonitors.filterByService monitors "svcA" excludeAllServices)
   /\
   ~ In monitor (ListMonitors.filterByService monitors "svcB" excludeAllServices))
  /\
  ((Part000.notExcludedFrom "svcA" legacy ->
    In legacy (Part000.filterByService legacyMonitors "svcA" excludeAllServices))
   /\
   ~ In legacy (Part000.filterByService legacyMonitors "svcB" excludeAllServices)).
Proof.
  intros Hty Hsc Hin Hty' Hsc' Hin'.
  unfold ListMonitors.filterByService, Part000.filterByService.
  rewrite !filter_In.
  destruct (keeps_role_svcA monitor excludeAllServices Hty Hsc) as [HA HB].
  repeat split; auto.
  - intros [_ H]. congruence.
  - now apply legacy_keeps_role_svcA.
  - intros [_ H].
    rewrite (legacy_keeps_role_svcB legacy excludeAllServices Hty' Hsc') in H.
    discriminate.
Qed.

Lemma filterByService_role_witness :
  (In ListMonitors.Sample.roleMonitor
      (ListMonitors.filterByService
         [ListMonitors.Sample.bareMonitor; ListMonitors.Sample.roleMonitor]
         "svcA" true)
   /\
   ~ In ListMonitors.Sample.roleMonitor
        (ListMonitors.filterByService
           [ListMonitors.Sample.bareMonitor; ListMonitors.Sample.roleMonitor]
           "svcB" true))
  /\
  (In roleMonitor
      (Part000.filterByService [bareMonitor; roleMonitor] "svcA" true)
   /\
   ~ In roleMonitor
        (Part000.filterByService [bareMonitor; roleMonitor] "svcB" true)).
Proof.
  destruct (@filterByService_role_scope
              ListMonitors.Sample.roleMonitor
              [ListMonitors.Sample.bareMonitor; ListMonitors.Sample.roleMonitor]
              roleMonitor [bareMonitor; roleMonitor] true)
    as [Hnew [HsvcA HsvcB]].
  - reflexivity.
  - reflexivity.
  - right. left. reflexivity.
  - reflexivity.
  - reflexivity.
  - right. left. reflexivity.
  - split; [exact Hnew |]. split; [apply HsvcA; exact I | exact HsvcB].
Defined.

(** C7 as stated fails on the earlier copy: with excludeAllServices
    false, a monitor without scopes that excludes svcA:db is dropped by
    the filter for svcA. *)
Lemma legacy_filter_drops_excluded_bare :
  Part000.nameMatched (Part000.type excludedBareMonitor) = false /\
  Part000.noScopes excludedBareMonitor /\
  Part000.filterByService [excludedBareMonitor] "svcA" false = [] /\
  ~ In excludedBareMonitor
       (Part000.filterByService [excludedBareMonitor] "svcA" false).
Proof.
  repeat split. intros [].
Qed.

(** C7, as amended.  A monitor that is not matched on its name and whose
    scopes are absent or empty is dropped when excludeAllServices is
    true; when it is false the monitor is included, in the earlier copy
    provided none of its exclude scopes belongs to the service asked
    for. *)
Theorem filterByService_without_scopes (service : string)
    (monitor : ListMonitors.Monitor) (monitors : list ListMonitors.Monitor)
    (legacy : Part000.Monitor) (legacyMonitors : list Part000.Monitor) :
  ListMonitors.nameMatched (ListMonitors.type monitor) = false ->
  ListMonitors.noScopes monitor ->
  In monitor monitors ->
  Part000.nameMatched (Part000.type legacy) = false ->
  Part000.noScopes legacy ->
  In legacy legacyMonitors ->
  (~ In monitor (ListMonitors.filterByService monitors service true)
   /\
   In monitor (ListMonitors.filterByService monitors service false))
  /\
  (~ In legacy (Part000.filterByService legacyMonitors service true)
   /\
   (Part000.notExcludedFrom service legacy ->
    In legacy (Part000.filterByService legacyMonitors service false))).
Proof.
  intros Hty Hno Hin Hty' Hno' Hin'.
  unfold ListMonitors.filterByService, Part000.filterByService.
  rewrite !filter_In, !(keeps_noScopes _ _ monitor Hty Hno).
  rewrite (@legacy_keeps_noScopes_excludeAll service legacy Hty' Hno').
  repeat split; auto.
  - intros [_ H]. discriminate.
  - intros [_ H]. discriminate.
  - now apply legacy_keeps_noScopes_includeAll.
Qed.

Lemma filterByService_without_scopes_witness :
  (~ In ListMonitors.Sample.bareMonitor
        (ListMonitors.filterByService
           [ListMonitors.Sample.bareMonitor; ListMonitors.Sample.roleMonitor]
           "svcA, svcB" true)
   /\
   In ListMonitors.Sample.bareMonitor
      (ListMonitors.filterByService
         [ListMonitors.Sample.bareMonitor; ListMonitors.Sample.roleMonitor]
         "svcA, svcB" false))
  /\
  (~ In bareMonitor
        (Part000.filterByService [bareMonitor; roleMonitor] "svcA, svcB" true)
   /\
   In bareMonitor
      (Part000.filterByService [bareMonitor; roleMonitor] "svcA, svcB" false)).
Proof.
  destruct (@filterByService_without_scopes "svcA, svcB"
              ListMonitors.Sample.bareMonitor
              [ListMonitors.Sample.bareMonitor; ListMonitors.Sample.roleMonitor]
              bareMonitor [bareMonitor; roleMonitor])
    as [Hnew [Hdrop Hkeep]].
  - reflexivity.
  - exact I.
  - left. reflexivity.
  - reflexivity.
  - reflexivity.
  - left. reflexivity.
  - split; [exact Hnew |]. split; [exact Hdrop | apply Hkeep; exact I].
Defined.

End ListMonitorsFacts.

(** * github/make_team_maintainer.ts: properties *)

Module MakeTeamMaintainerFacts.

Import Eff Http MakeTeamMaintainer EffFacts.

Section World.

Variable w : World.
Variables org username token : string.

Local Abbreviation body := (setMaintainerOf w org username token).

(** Every iteration logs its team, sends its request and ends normally,
    whatever the answer. *)
Lemma setMaintainerOf_runs (team : Team) (h : list event) :
  exists t,
    body team h
    = (Ret tt, h ++ requestEvents org username token (name team) ++ t).
Proof.
  unfold setMaintainerOf, fetch, response_text, response_json. run.
  rewrite <- app_assoc.
  destruct (membership_response w _) as [response |]; run.
  - destruct (ok response); cbn [negb]; run.
    + destruct (json response) as [data |]; run.
      * eexists. now rewrite <- !app_assoc.
      * eexists. now rewrite <- !app_assoc.
    + destruct (text response) as [errorText |]; run.
      * eexists. now rewrite <- !app_assoc.
      * eexists. now rewrite <- !app_assoc.
  - eexists. now rewrite <- !app_assoc.
Qed.

(** An iteration whose request is answered with an error status logs the
    status and the body, and ends normally. *)
Lemma setMaintainerOf_http_error (team : Team) (h : list event)
    (response : Response Membership) (errorText : string) :
  membership_response w (h ++ requestEvents org username token (name team))
  = Some response ->
  ok response = false ->
  text response = Some errorText ->
  body team h
  = (Ret tt,
     h ++ httpErrorEvents org username token (name team)
            (status response) errorText).
Proof.
  intros Hr Hok Ht.
  unfold setMaintainerOf, fetch, response_text, response_json. run.
  rewrite <- app_assoc. cbn [app]. unfold requestEvents in Hr.
  rewrite Hr. run. rewrite Hok. cbn [negb]. rewrite Ht. run.
  unfold httpErrorEvents, requestEvents. now rewrite <- !app_assoc.
Qed.

Lemma setMaintainerOf_returns (team : Team) (h : list event) :
  fst (body team h) = Ret tt.
Proof.
  destruct (setMaintainerOf_runs team h) as [t ->]. reflexivity.
Qed.

(** The loop runs every iteration. *)
Lemma forM_setMaintainerOf (teams : list Team) (h : list event) :
  exists tail,
    forM teams body h = (Ret tt, h ++ tail) /\
    forall team, In team teams ->
      In (EvLog (MsgProcessing (name team))) tail /\
      In (EvFetch (PutMembership org (name team) username token)) tail.
Proof.
  revert h. induction teams as [| team teams IH]; intros h.
  - exists []. split; [now rewrite app_nil_r | intros ? []].
  - cbn [forM]. unfold bind at 1.
    destruct (setMaintainerOf_runs team h) as [t ->].
    destruct (IH (h ++ requestEvents org username token (name team) ++ t))
      as (tail & -> & Htail).
    exists (requestEvents org username token (name team) ++ t ++ tail).
    split; [now rewrite <- !app_assoc |].
    intros team' [<- | Hin].
    + split; [left; reflexivity | right; left; reflexivity].
    + destruct (Htail team' Hin) as [H1 H2].
      split; apply in_or_app; right; apply in_or_app; right; assumption.
Qed.

(** The loop of [setMaintainer] after a request answered with an error
    status. *)
Lemma setMaintainer_after_http_error (before after : list Team) (team : Team)
    (h : list event) (response : Response Membership) (errorText : string) :
  let teams := (before ++ team :: after)%list in
  let started :=
    (h ++ [EvLog (MsgSetting username (List.length teams) org)])%list in
  let reached := snd (forM before body started) in
  membership_response w
    (reached ++ requestEvents org username token (name team)) = Some response ->
  ok response = false ->
  text response = Some errorText ->
  exists tail,
    setMaintainer w org username teams token h
    = (Ret tt,
       reached
       ++ httpErrorEvents org username token (name team)
            (status response) errorText
       ++ tail ++ [EvLog MsgDone]) /\
    forall next, In next after ->
      In (EvLog (MsgProcessing (name next))) tail /\
      In (EvFetch (PutMembership org (name next) username token)) tail.
Proof.
  intros teams started reached Hr Hok Ht.
  unfold setMaintainer. unfold bind at 1, emit at 1. fold teams started.
  unfold bind at 1. unfold teams at 1.
  rewrite forM_app by apply forM_returns, setMaintainerOf_returns.
  fold reached. cbn [forM]. unfold bind at 1.
  rewrite (setMaintainerOf_http_error team reached Hr Hok Ht).
  destruct (forM_setMaintainerOf after
              (reached ++ httpErrorEvents org username token (name team)
                            (status response) errorText))
    as (tail & -> & Htail).
  exists tail. split; [| exact Htail].
  unfold emit. now rewrite <- !app_assoc.
Qed.

End World.

(** With --dry-run in front, [main] emits no membership request and
    never enters [setMaintainer]. *)
Lemma main_dry_run_readOnly (w : World) (rest : list string)
    (GITHUB_TOKEN : option string) :
  emits_only readOnly (main w ("--dry-run"%string :: rest) GITHUB_TOKEN).
Proof.
  unfold main, getTeams, fetch, response_text, response_json.
  cbn [nth_error]. emits.
Qed.

End MakeTeamMaintainerFacts.

(** * src/unnamed/part_001: properties *)

Module Part001Facts.

Import Eff Http Part001 EffFacts.

Section World.

Variable w : World.
Variables org username token : string.

Local Abbreviation body := (setMaintainerOf w org username token).

Lemma gql_setMaintainerOf_runs (team : Team) (h : list event) :
  exists t,
    body team h
    = (Ret tt, h ++ requestEvents org username token (slug team) ++ t).
Proof.
  unfold setMaintainerOf, fetch, response_text, response_json. run.
  rewrite <- app_assoc.
  destruct (membership_response w _) as [response |]; run.
  - destruct (ok response); cbn [negb]; run.
    + destruct (json response) as [data |]; run.
      * eexists. now rewrite <- !app_assoc.
      * eexists. now rewrite <- !app_assoc.
    + destruct (text response) as [errorText |]; run.
      * eexists. now rewrite <- !app_assoc.
      * eexists. now rewrite <- !app_assoc.
  - eexists. now rewrite <- !app_assoc.
Qed.

Lemma gql_setMaintainerOf_http_error (team : Team) (h : list event)
    (response : Response Membership) (errorText : string) :
  membership_response w (h ++ requestEvents org username token (slug team))
  = Some response ->
  ok response = false ->
  text response = Some errorText ->
  body team h
  = (Ret tt,
     h ++ httpErrorEvents org username token (slug team)
            (status response) errorText).
Proof.
  intros Hr Hok Ht.
  unfold setMaintainerOf, fetch, response_text, response_json. run.
  rewrite <- app_assoc. cbn [app]. unfold requestEvents in Hr.
  rewrite Hr. run. rewrite Hok. cbn [negb]. rewrite Ht. run.
  unfold httpErrorEvents, requestEvents. now rewrite <- !app_assoc.
Qed.

Lemma gql_setMaintainerOf_returns (team : Team) (h : list event) :
  fst (body team h) = Ret tt.
Proof.
  destruct (gql_setMaintainerOf_runs team h) as [t ->]. reflexivity.
Qed.

Lemma gql_forM_setMaintainerOf (teams : list Team) (h : list event) :
  exists tail,
    forM teams body h = (Ret tt, h ++ tail) /\
    forall team, In team teams ->
      In (EvLog (MsgProcessing (slug team))) tail /\
      In (EvFetch (PutMembership org (slug team) username token)) tail.
Proof.
  revert h. induction teams as [| team teams IH]; intros h.
  - exists []. split; [now rewrite app_nil_r | intros ? []].
  - cbn [forM]. unfold bind at 1.
    destruct (gql_setMaintainerOf_runs team h) as [t ->].
    destruct (IH (h ++ requestEvents org username token (slug team) ++ t))
      as (tail & -> & Htail).
    exists (requestEvents org username token (slug team) ++ t ++ tail).
    split; [now rewrite <- !app_assoc |].
    intros team' [<- | Hin].
    + split; [left; reflexivity | right; left; reflexivity].
    + destruct (Htail team' Hin) as [H1 H2].
      split; apply in_or_app; right; apply in_or_app; right; assumption.
Qed.

Lemma gql_setMaintainer_after_http_error (before after : list Team) (team : Team)
    (h : list event) (response : Response Membership) (errorText : string) :
  let teams := (before ++ team :: after)%list in
  let started :=
    (h ++ [EvLog (MsgSetting username (List.length teams) org)])%list in
  let reached := snd (forM before body started) in
  membership_response w
    (reached ++ requestEvents org username token (slug team)) = Some response ->
  ok response = false ->
  text response = Some errorText ->
  exists tail,
    setMaintainer w org username teams token h
    = (Ret tt,
       reached
       ++ httpErrorEvents org username token (slug team)
            (status response) errorText
       ++ tail ++ [EvLog MsgDone]) /\
    forall next, In next after ->
      In (EvLog (MsgProcessing (slug next))) tail /\
      In (EvFetch (PutMembership org (slug next) username token)) tail.
Proof.
  intros teams started reached Hr Hok Ht.
  unfold setMaintainer. unfold bind at 1, emit at 1. fold teams started.
  unfold bind at 1. unfold teams at 1.
  rewrite forM_app by apply forM_returns, gql_setMaintainerOf_returns.
  fold reached. cbn [forM]. unfold bind at 1.
  rewrite (gql_setMaintainerOf_http_error team reached Hr Hok Ht).
  destruct (gql_forM_setMaintainerOf after
              (reached ++ httpErrorEvents org username token (slug team)
                            (status response) errorText))
    as (tail & -> & Htail).
  exists tail. split; [| exact Htail].
  unfold emit. now rewrite <- !app_assoc.
Qed.

(** ** The queries *)

Lemma executeGraphQL_readOnly (D : Type) (r : request)
    (answer : list event -> option (Response (GraphQLBody D))) :
  readOnly (EvFetch r) -> emits_only readOnly (executeGraphQL r answer).
Proof.
  intros Hr. unfold executeGraphQL, fetch, response_text, response_json.
  apply emits_only_bind; [| emits].
  apply emits_only_bind; [now apply emits_only_emit | emits].
Qed.

Lemma getAdditionalMembers_loop_readOnly (fuel : nat) (teamSlug : string)
    (members : list TeamMember) (cursor : option string) (hasNext : bool) :
  emits_only readOnly
    (getAdditionalMembers_loop w fuel org teamSlug token members cursor hasNext).
Proof.
  revert members cursor hasNext.
  induction fuel as [| fuel IH]; intros members cursor [|];
    cbn [getAdditionalMembers_loop]; try solve [emits].
  apply emits_only_bind.
  - apply executeGraphQL_readOnly. exact I.
  - intros [teamMembers |]; [apply IH | emits].
Qed.

Lemma teamOfNode_readOnly (fuel : nat) (node : GraphQLTeamNode) :
  emits_only readOnly (teamOfNode w fuel org token node).
Proof.
  unfold teamOfNode, getAdditionalMembers.
  apply emits_only_bind; [| emits].
  destruct (hasNextPage _); [| emits].
  destruct (truthy _); [| emits].
  apply emits_only_bind; [emits |]. intros _.
  apply emits_only_bind; [apply getAdditionalMembers_loop_readOnly | emits].
Qed.

Lemma getAllTeamsWithMembers_loop_readOnly (fuel inner : nat)
    (teams : list Team) (cursor : option string) (hasNext : bool) :
  emits_only readOnly
    (getAllTeamsWithMembers_loop w fuel inner org token teams cursor hasNext).
Proof.
  revert teams cursor hasNext.
  induction fuel as [| fuel IH]; intros teams cursor [|];
    cbn [getAllTeamsWithMembers_loop]; try solve [emits].
  apply emits_only_bind; [apply executeGraphQL_readOnly; exact I |].
  intros teamsData. apply emits_only_bind.
  - apply emits_only_mapM. intros node _. apply teamOfNode_readOnly.
  - intros page. apply emits_only_bind; [emits |]. intros _. apply IH.
Qed.

End World.

Lemma gql_main_dry_run_readOnly (w : World) (fuel : nat) (rest : list string)
    (GITHUB_TOKEN : option string) :
  emits_only readOnly (main w fuel ("--dry-run"%string :: rest) GITHUB_TOKEN).
Proof.
  unfold main, getAllTeamsWithMembers, filterTeamsByUser, teamIfMember.
  cbn [nth_error].
  repeat match goal with
         | |- emits_only _ (match ?x with _ => _ end) => destruct x
         end; try solve [emits].
  apply emits_only_try_catch; [| emits].
  apply emits_only_bind; [emits |]. intros _.
  apply emits_only_bind; [apply getAllTeamsWithMembers_loop_readOnly |].
  emits.
Qed.

End Part001Facts.

(** * The two maintainer scripts together *)

Module MaintainerFacts.

Import Eff Http EffFacts.

(** C8.  In both scripts, when the membership request for one team is
    answered with a status outside 200..299 (and a readable body), the
    iteration logs the status and the body and the loop goes on:
    [setMaintainer] ends normally, without leaving the process, after an
    iteration for each remaining team, every one of which logs its team
    and sends its request. *)
Theorem setMaintainer_continues_after_http_error
    (w : MakeTeamMaintainer.World) (w' : Part001.World)
    (org username token : string)
    (before after : list MakeTeamMaintainer.Team)
    (team : MakeTeamMaintainer.Team)
    (before' after' : list Part001.Team) (team' : Part001.Team)
    (h : list MakeTeamMaintainer.event) (h' : list Part001.event)
    (response : Response MakeTeamMaintainer.Membership)
    (response' : Response Part001.Membership)
    (errorText errorText' : string) :
  let teams := (before ++ team :: after)%list in
  let reached :=
    snd (forM before (MakeTeamMaintainer.setMaintainerOf w org username token)
           (h ++ [MakeTeamMaintainer.EvLog
                    (MakeTeamMaintainer.MsgSetting username
                       (List.length teams) org)])) in
  let teams' := (before' ++ team' :: after')%list in
  let reached' :=
    snd (forM before' (Part001.setMaintainerOf w' org username token)
           (h' ++ [Part001.EvLog
                     (Part001.MsgSetting username (List.length teams') org)])) in
  MakeTeamMaintainer.membership_response w
    (reached ++ MakeTeamMaintainer.requestEvents org username token
                  (MakeTeamMaintainer.name team)) = Some response ->
  ok response = false ->
  text response = Some errorText ->
  Part001.membership_response w'
    (reached' ++ Part001.requestEvents org username token
                   (Part001.slug team')) = Some response' ->
  ok response' = false ->
  text response' = Some errorText' ->
  (exists tail,
     MakeTeamMaintainer.setMaintainer w org username teams token h
     = (Ret tt,
        reached
        ++ MakeTeamMaintainer.httpErrorEvents org username token
             (MakeTeamMaintainer.name team) (status response) errorText
        ++ tail ++ [MakeTeamMaintainer.EvLog MakeTeamMaintainer.MsgDone]) /\
     forall next, In next after ->
       In (MakeTeamMaintainer.EvLog
             (MakeTeamMaintainer.MsgProcessing (MakeTeamMaintainer.name next)))
          tail /\
       In (MakeTeamMaintainer.EvFetch
             (MakeTeamMaintainer.PutMembership org
                (MakeTeamMaintainer.name next) username token))
          tail)
  /\
  (exists tail,
     Part001.setMaintainer w' org username teams' token h'
     = (Ret tt,
        reached'
        ++ Part001.httpErrorEvents org username token
             (Part001.slug team') (status response') errorText'
        ++ tail ++ [Part001.EvLog Part001.MsgDone]) /\
     forall next, In next after' ->
       In (Part001.EvLog (Part001.MsgProcessing (Part001.slug next))) tail /\
       In (Part001.EvFetch
             (Part001.PutMembership org (Part001.slug next) username token))
          tail).
Proof.
  intros teams reached teams' reached' Hr Hok Ht Hr' Hok' Ht'. split.
  - now apply MakeTeamMaintainerFacts.setMaintainer_after_http_error.
  - now apply Part001Facts.gql_setMaintainer_after_http_error.
Qed.

Lemma setMaintainer_continues_witness :
  (exists tail,
     MakeTeamMaintainer.setMaintainer MakeTeamMaintainer.Sample.world
       "org" "octo"
       [MakeTeamMaintainer.Sample.alpha; MakeTeamMaintainer.Sample.beta;
        MakeTeamMaintainer.Sample.gamma] "tok" []
     = (Ret tt,
        [MakeTeamMaintainer.EvLog (MakeTeamMaintainer.MsgSetting "octo" 3 "org");
         MakeTeamMaintainer.EvLog (MakeTeamMaintainer.MsgProcessing "alpha");
         MakeTeamMaintainer.EvFetch
           (MakeTeamMaintainer.PutMembership "org" "alpha" "octo" "tok");
         MakeTeamMaintainer.EvLog
           (MakeTeamMaintainer.MsgSuccess "octo" "maintainer" "alpha")]
        ++ MakeTeamMaintainer.httpErrorEvents "org" "octo" "tok" "beta" 403
             "Forbidden"
        ++ tail ++ [MakeTeamMaintainer.EvLog MakeTeamMaintainer.MsgDone]) /\
     forall next, In next [MakeTeamMaintainer.Sample.gamma] ->
       In (MakeTeamMaintainer.EvLog
             (MakeTeamMaintainer.MsgProcessing (MakeTeamMaintainer.name next)))
          tail /\
       In (MakeTeamMaintainer.EvFetch
             (MakeTeamMaintainer.PutMembership "org"
                (MakeTeamMaintainer.name next) "octo" "tok"))
          tail)
  /\
  (exists tail,
     Part001.setMaintainer Part001.Sample.world "org" "octo"
       [Part001.Sample.alpha; Part001.Sample.beta; Part001.Sample.gamma]
       "tok" []
     = (Ret tt,
        [Part001.EvLog (Part001.MsgSetting "octo" 3 "org");
         Part001.EvLog (Part001.MsgProcessing "alpha");
         Part001.EvFetch (Part001.PutMembership "org" "alpha" "octo" "tok");
         Part001.EvLog (Part001.MsgSuccess "octo" "maintainer" "alpha")]
        ++ Part001.httpErrorEvents "org" "octo" "tok" "beta" 403 "Forbidden"
        ++ tail ++ [Part001.EvLog Part001.MsgDone]) /\
     forall next, In next [Part001.Sample.gamma] ->
       In (Part001.EvLog (Part001.MsgProcessing (Part001.slug next))) tail /\
       In (Part001.EvFetch
             (Part001.PutMembership "org" (Part001.slug next) "octo" "tok"))
          tail).
Proof.
  apply (@setMaintainer_continues_after_http_error
           MakeTeamMaintainer.Sample.world Part001.Sample.world
           "org" "octo" "tok"
           [MakeTeamMaintainer.Sample.alpha] [MakeTeamMaintainer.Sample.gamma]
           MakeTeamMaintainer.Sample.beta
           [Part001.Sample.alpha] [Part001.Sample.gamma] Part001.Sample.beta
           [] []
           (mkResponse 403 (Some "Forbidden"%string) None)
           (mkResponse 403 (Some "Forbidden"%string) None)
           "Forbidden" "Forbidden"); reflexivity.
Defined.

(** C9.  A run of either script whose first argument is --dry-run holds
    no membership request (the only PUT) and never enters
    [setMaintainer]: every event of the run is a read of team data or a
    line on the console. *)
Theorem dry_run_is_read_only
    (w : MakeTeamMaintainer.World) (w' : Part001.World) (fuel : nat)
    (rest : list string) (GITHUB_TOKEN : option string) :
  Forall MakeTeamMaintainer.readOnly
    (snd (MakeTeamMaintainer.main w ("--dry-run"%string :: rest)
            GITHUB_TOKEN []))
  /\
  Forall Part001.readOnly
    (snd (Part001.main w' fuel ("--dry-run"%string :: rest) GITHUB_TOKEN [])).
Proof.
  split.
  - now apply MakeTeamMaintainerFacts.main_dry_run_readOnly.
  - now apply Part001Facts.gql_main_dry_run_readOnly.
Qed.

End MaintainerFacts.

(** * Facts about the way computations end *)

Module EffOutcomeFacts.

Import Eff EffOutcome.

Section Laws.

Variable E : Type.
Variable X : Type.
Variable Q : result X unit -> Prop.

Local Abbreviation M := (Eff.M E X).

Lemma fails_only_ret (A : Type) (a : A) : fails_only Q (ret a : M A).
Proof. intros h. now left. Qed.

Lemma fails_only_emit (e : E) : fails_only Q (emit e : M unit).
Proof. intros h. now left. Qed.

Lemma fails_only_ask (A : Type) (f : list E -> A) : fails_only Q (ask f : M A).
Proof. intros h. now left. Qed.

Lemma fails_only_throw (A : Type) (x : X) :
  Q (Throw x) -> fails_only Q (throw x : M A).
Proof. intros H h. now right. Qed.

Lemma fails_only_exit (A : Type) (c : Z) :
  Q (Exit c) -> fails_only Q (exit c : M A).
Proof. intros H h. now right. Qed.

Lemma fails_only_diverge (A : Type) : Q Diverge -> fails_only Q (diverge : M A).
Proof. intros H h. now right. Qed.

Lemma fails_only_bind (A B : Type) (m : M A) (k : A -> M B) :
  fails_only Q m -> (forall a, fails_only Q (k a)) ->
  fails_only Q (bind m k).
Proof.
  intros Hm Hk h. unfold bind. specialize (Hm h).
  destruct (m h) as [[a | x | c |] h']; cbn in *;
    try (destruct Hm as [Hm | Hm]; [discriminate | now right]).
  apply Hk.
Qed.

Lemma fails_only_forM (A : Type) (l : list A) (body : A -> M unit) :
  (forall a, fails_only Q (body a)) -> fails_only Q (forM l body).
Proof.
  intros H. induction l as [| a l IH]; cbn [forM].
  - apply fails_only_ret.
  - apply fails_only_bind; [apply H | intros _; exact IH].
Qed.

Lemma fails_only_mapM (A B : Type) (f : A -> M B) (l : list A) :
  (forall a, fails_only Q (f a)) -> fails_only Q (mapM f l).
Proof.
  intros H. induction l as [| a l IH]; cbn [mapM].
  - apply fails_only_ret.
  - apply fails_only_bind; [apply H |]. intros b.
    apply fails_only_bind; [exact IH |]. intros bs. apply fails_only_ret.
Qed.

End Laws.

(** A [try] whose handler fails only in the ways [Q] allows: what the
    body throws does not matter. *)
Lemma fails_only_try_catch (E X A : Type) (Q : result X unit -> Prop)
    (m : Eff.M E X A) (handler : X -> Eff.M E X A) :
  fails_only (fun o => Q o \/ exists x, o = Throw x) m ->
  (forall x, fails_only Q (handler x)) ->
  fails_only Q (try_catch m handler).
Proof.
  intros Hm Hh h. unfold try_catch. specialize (Hm h).
  destruct (m h) as [[a | x | c |] h']; cbn in *.
  - now left.
  - apply Hh.
  - destruct Hm as [Hm | [Hm | [x Hm]]]; try discriminate. now right.
  - destruct Hm as [Hm | [Hm | [x Hm]]]; try discriminate. now right.
Qed.

Ltac fails :=
  repeat first
    [ apply fails_only_ret | apply fails_only_emit | apply fails_only_ask
    | apply fails_only_throw; solve [eauto 6]
    | apply fails_only_exit; solve [eauto 6]
    | apply fails_only_diverge; solve [eauto 6]
    | apply fails_only_bind | apply fails_only_forM | apply fails_only_mapM
    | apply fails_only_try_catch
    | match goal with
      | |- forall _, _ => intro
      | |- fails_only _ (match ?x with _ => _ end) => destruct x
      end ].

(** ** Previews *)

Section PreviewLaws.

Variable E : Type.
Variable X : Type.
Variable shown : E -> list string.
Variable asked : E -> list string.

Local Abbreviation M := (Eff.M E X).
Local Abbreviation quiet := (EffOutcome.quiet shown asked).
Local Abbreviation previews := (@EffOutcome.previews E X shown asked).

Lemma quiet_history (h : list E) :
  Forall quiet h -> flat_map shown h = [] /\ flat_map asked h = [].
Proof.
  induction 1 as [| e h [Hs Ha] _ [IHs IHa]]; cbn [flat_map]; [now split |].
  now rewrite Hs, Ha, IHs, IHa.
Qed.

(** A computation that shows and asks nothing previews itself. *)
Lemma previews_quiet (m : M unit) : emits_only quiet m -> previews m m.
Proof.
  intros Hm h Hq. split; [reflexivity |].
  destruct (quiet_history (Hm h Hq)) as [-> ->]. reflexivity.
Qed.

Lemma previews_bind (A : Type) (m : M A) (dry real : A -> M unit) :
  emits_only quiet m -> (forall a, previews (dry a) (real a)) ->
  previews (bind m dry) (bind m real).
Proof.
  intros Hm Hk h Hq. unfold bind. specialize (Hm h Hq).
  destruct (m h) as [[a | x | c |] h']; cbn [fst snd] in *;
    try (split; [reflexivity |];
         destruct (quiet_history Hm) as [-> ->]; reflexivity).
  now apply Hk.
Qed.

(** A handler that logs the error and leaves the process. *)
Lemma previews_try_catch (dry real : M unit) (log : X -> E) (code : Z) :
  previews dry real -> (forall x, quiet (log x)) ->
  previews (try_catch dry (fun x => bind (emit (log x)) (fun _ => exit code)))
           (try_catch real (fun x => bind (emit (log x)) (fun _ => exit code))).
Proof.
  intros H Hlog h Hq. destruct (H h Hq) as [Ho Ht]. unfold try_catch.
  destruct (dry h) as [[[] | x | c |] hd], (real h) as [[[] | x' | c' |] hr];
    cbn [fst snd outcome] in *; try discriminate; try (now split).
  inversion Ho; subst x'. unfold bind, emit, exit. cbn [fst snd outcome].
  split; [reflexivity |].
  rewrite !flat_map_app, Ht. cbn [flat_map].
  destruct (Hlog x) as [-> ->]. reflexivity.
Qed.

End PreviewLaws.

Ltac emits_by tac :=
  repeat first
    [ apply EffFacts.emits_only_ret | apply EffFacts.emits_only_throw
    | apply EffFacts.emits_only_exit | apply EffFacts.emits_only_diverge
    | apply EffFacts.emits_only_ask | apply EffFacts.emits_only_bind
    | apply EffFacts.emits_only_try_catch | apply EffFacts.emits_only_mapM
    | apply EffFacts.emits_only_forM
    | apply EffFacts.emits_only_emit; solve [tac]
    | match goal with
      | |- forall _, _ => intro
      | |- emits_only _ (match ?x with _ => _ end) => destruct x
      end ].

End EffOutcomeFacts.

(** * mackerel-alert-stats.ts: further properties *)

Module AlertStatsMore.

Import JS Eff AlertStats AlertStatsViews JSFacts RecordFacts EffFacts.

Section World.

Variable w : World.

(** ** The page loop *)

Lemma getAlerts_loop_paced (fuel : nat) (from : Date) (alerts : list Alert)
    (cursor : option string) (currentOpenedAt : Date) (h : list event) :
  fst (getAlerts_loop w fuel from alerts cursor currentOpenedAt h) <> Diverge ->
  exists cursors,
    snd (getAlerts_loop w fuel from alerts cursor currentOpenedAt h)
    = h ++ paced (cursor :: cursors).
Proof.
  revert alerts cursor currentOpenedAt h.
  induction fuel as [| fuel IH]; intros alerts cursor currentOpenedAt h;
    cbn [getAlerts_loop]; [intros H; now contradiction H |].
  unfold cli_alerts_list, delay. run.
  destruct (alerts_list w _) as [[resAlerts resCursor] |]; run;
    [| intros _; now exists []].
  destruct (date_ge currentOpenedAt from); [intros _; now exists [] |].
  destruct (nth_error resAlerts _) as [lastAlert |]; run;
    [| intros _; now exists []].
  intros Hd. destruct (IH _ _ _ _ Hd) as [cursors ->].
  exists (resCursor :: cursors). now rewrite <- !app_assoc.
Qed.

(** X1. A run of [getAlerts] that ends asks for its pages one after the
    other, the first without a cursor, with one delay of 1000 ms between
    a request and the next. *)
Theorem getAlerts_requests_are_paced (fuel : nat) (from : Date)
    (h : list event) :
  fst (getAlerts w fuel from h) <> Diverge ->
  exists cursors,
    snd (getAlerts w fuel from h) = h ++ EvNow :: paced (None :: cursors).
Proof.
  unfold getAlerts, now. run. intros Hd.
  destruct (getAlerts_loop_paced _ _ _ _ _ _ Hd) as [cursors ->].
  exists cursors. now rewrite <- app_assoc.
Qed.

(** X2. With a bound that is an invalid date, [getAlerts] never returns
    a list: it goes on until a request fails, a page comes back empty, or
    for ever. *)
Theorem getAlerts_invalid_bound_never_returns (fuel : nat) (from : Date)
    (h : list event) :
  valueOf from = NaN ->
  forall fetched, fst (getAlerts w fuel from h) <> Ret fetched.
Proof.
  intros HNaN fetched. unfold getAlerts, now. run.
  destruct (getAlerts_loop w fuel from [] None _ _) as [r h'] eqn:Hrun.
  cbn [fst]. intros ->.
  now apply AlertStatsFacts.getAlerts_loop_bound_valid in Hrun.
Qed.

(** X3. At any turn of the loop of [getAlerts], the first or a later
    one, whatever has been fetched so far: when the bound is not reached
    and the page asked for comes back empty, the read of the last
    alert's [openedAt] is a TypeError, thrown right after the request,
    before any delay. *)
Theorem getAlerts_empty_page_throws (fuel : nat) (from : Date)
    (alerts : list Alert) (cursor resCursor : option string)
    (currentOpenedAt : Date) (h : list event) :
  date_ge currentOpenedAt from = false ->
  alerts_list w (h ++ [EvAlertsList cursor]) = Some (mkPage [] resCursor) ->
  getAlerts_loop w (S fuel) from alerts cursor currentOpenedAt h
  = (Throw TypeError, h ++ [EvAlertsList cursor]).
Proof.
  intros Hbound Hpage. cbn [getAlerts_loop]. unfold cli_alerts_list. run.
  rewrite Hpage. run. now rewrite Hbound.
Qed.

(** ** The guards of the script *)

(** X4. Without an API key, with an invalid date, or with a range that
    does not run forward, the script throws an [Error] at once: no
    request is made and nothing is printed. *)
Theorem script_rejects_bad_input (fuel : nat) (apiKey : option string)
    (from to : Date) (h : list event) :
  apiKey = None \/ valueOf from = NaN \/ valueOf to = NaN \/
  lt (valueOf from) (valueOf to) = false ->
  exists message,
    script w fuel apiKey from to h = (Throw (Error message), h).
Proof.
  unfold script. intros [-> | H]; [now eexists |].
  destruct apiKey as [key |]; [| now eexists].
  destruct H as [H | [H | H]].
  - rewrite H. now eexists.
  - rewrite H. destruct (isNaN (valueOf from)); now eexists.
  - rewrite H. destruct (isNaN (valueOf from)); [now eexists |].
    destruct (isNaN (valueOf to)); now eexists.
Qed.

(** ** The report loop *)

(** X5. A name lookup that fails is not caught: the report stops there
    with the rejection, prints no line for that monitor and does not
    come to the monitors after it. *)
Theorem report_stops_at_failed_lookup (windowMin : number)
    (prevAlertsByMonitor : record Alert) (key : string)
    (first : Alert) (rest : list Alert) (others : record Alert)
    (h : list event) (monitor : string) :
  String.eqb (type first) "check" = false ->
  monitorId first = Some monitor ->
  monitors_get w (h ++ [EvMonitorsGet key]) = None ->
  forM ((key, first :: rest) :: others)
       (reportMonitor w windowMin prevAlertsByMonitor) h
  = (Throw Rejected, h ++ [EvMonitorsGet key]).
Proof.
  intros Hty Hid Hget. cbn [forM]. unfold reportMonitor at 1.
  unfold cli_monitors_get_name. run.
  now rewrite Hty, Hid, Hget.
Qed.

End World.

Lemma getAlerts_paced_witness :
  exists cursors,
    snd (getAlerts Sample.threePageWorld 5 (dateAt 2000000) [])
    = [] ++ EvNow :: paced (None :: cursors).
Proof.
  apply (@getAlerts_requests_are_paced Sample.threePageWorld 5
           (dateAt 2000000) []).
  vm_compute. discriminate.
Defined.

Lemma getAlerts_invalid_bound_witness :
  valueOf (prevOf (dateAt (-8000000000000000)) (dateAt 8000000000000000)) = NaN /\
  forall fetched,
    fst (getAlerts Sample.threePageWorld 5
           (prevOf (dateAt (-8000000000000000)) (dateAt 8000000000000000)) [])
    <> Ret fetched.
Proof.
  split; [reflexivity |].
  apply (@getAlerts_invalid_bound_never_returns Sample.threePageWorld 5
           (prevOf (dateAt (-8000000000000000)) (dateAt 8000000000000000)) []).
  reflexivity.
Defined.

(** The third page of the sample world is empty: the run below reaches
    the third turn of the loop with two alerts fetched, and ends there. *)
Lemma getAlerts_empty_page_witness :
  let turns :=
    [EvNow; EvAlertsList None; EvDelay 1000;
     EvAlertsList (Some "c1"%string); EvDelay 1000] in
  getAlerts_loop Sample.threePageWorld 3 (dateAt 5000000)
    [AlertStats.Sample.recent; Sample.late] (Some "c2"%string)
    (openedAt Sample.late) turns
  = (Throw TypeError, turns ++ [EvAlertsList (Some "c2"%string)]) /\
  getAlerts Sample.threePageWorld 5 (dateAt 5000000) []
  = (Throw TypeError, turns ++ [EvAlertsList (Some "c2"%string)]).
Proof.
  split; [| reflexivity].
  apply (@getAlerts_empty_page_throws Sample.threePageWorld 2
           (dateAt 5000000) [AlertStats.Sample.recent; Sample.late]
           (Some "c2"%string) None (openedAt Sample.late)); reflexivity.
Defined.

Lemma script_rejects_witness :
  exists message,
    script AlertStats.Sample.busyWorld 3 (Some "key"%string)
           (dateAt 2000) (dateAt 1000) []
    = (Throw (Error message), []).
Proof.
  apply (@script_rejects_bad_input AlertStats.Sample.busyWorld 3
           (Some "key"%string) (dateAt 2000) (dateAt 1000) []).
  right. right. right. reflexivity.
Defined.

Lemma report_stops_witness :
  forM [("m1"%string, [AlertStats.Sample.hourLong1]);
        ("m2"%string, [AlertStats.Sample.recent])]
       (reportMonitor Sample.namelessWorld (ofZ 60) []) []
  = (Throw Rejected, [] ++ [EvMonitorsGet "m1"]).
Proof.
  apply (@report_stops_at_failed_lookup Sample.namelessWorld (ofZ 60) []
           "m1"%string AlertStats.Sample.hourLong1 []
           [("m2"%string, [AlertStats.Sample.recent])] [] "m1"%string);
    reflexivity.
Defined.

(** ** The mean time to repair *)

Lemma Qfloor_unique (x : Q) (z : Z) :
  inject_Z z <= x -> x < inject_Z z + 1 -> Qfloor x = z.
Proof.
  intros Lo Hi.
  pose proof (Qfloor_le x) as L. pose proof (Qlt_floor x) as U.
  rewrite inject_Z_plus in U. change (inject_Z 1) with 1 in U.
  assert (inject_Z z < inject_Z (Qfloor x) + 1) as A by lra.
  assert (inject_Z (Qfloor x) < inject_Z z + 1) as B by lra.
  change 1 with (inject_Z 1) in A, B. rewrite <- inject_Z_plus in A, B.
  rewrite <- Zlt_Qlt in A, B. lia.
Qed.

(** [Number(x.toFixed(0))] for a value within a half of a whole number
    [j] that is not negative, the upper half left out. *)
Lemma Number_toFixed0_within (r : Q) (j : Z) :
  (0 <= j < 2 ^ 53)%Z -> 0 <= r ->
  inject_Z j - (1 # 2) <= r -> r < inject_Z j + (1 # 2) ->
  Number_toFixed0 (fin r) = ofZ j.
Proof.
  intros Hj H0 Lo Hi. unfold Number_toFixed0, fin.
  assert (inject_Z j < inject_Z (2 ^ 53)) as Hj' by (rewrite <- Zlt_Qlt; lia).
  change (inject_Z (2 ^ 53)) with 9007199254740992 in Hj'.
  destruct (Qle_bool ten21 (Qabs (Qred r))) eqn:Big.
  { exfalso. apply Qle_bool_iff in Big.
    rewrite Qred_correct, Qabs_pos in Big by exact H0.
    change ten21 with 1000000000000000000000 in Big. lra. }
  assert (Qltb (Qred r) 0 = false) as ->.
  { unfold Qltb. apply negb_false_iff, Qle_bool_iff.
    now rewrite Qred_correct. }
  f_equal. f_equal. apply Qfloor_unique; rewrite Qred_correct; lra.
Qed.

(** The mean of a total below 2^52 over at most 2^32 items, rounded to
    binary64 and then to a whole number, is the whole number nearest to
    the exact mean, a half going up: the rounding error of the quotient
    is too small to cross a half. *)
Lemma Number_toFixed0_mean (total n : Z) :
  (0 <= total < 2 ^ 52)%Z -> (0 < n < 2 ^ 32)%Z ->
  Number_toFixed0 (div64 (ofZ total) (ofZ n))
  = ofZ ((2 * total + n) / (2 * n)).
Proof.
  intros Ht Hn.
  change (2 ^ 52)%Z with 4503599627370496%Z in Ht.
  change (2 ^ 32)%Z with 4294967296%Z in Hn.
  set (j := ((2 * total + n) / (2 * n))%Z).
  pose proof (Z.mul_div_le (2 * total + n) (2 * n) ltac:(lia)) as Jlo.
  pose proof (Z.mul_succ_div_gt (2 * total + n) (2 * n) ltac:(lia)) as Jhi.
  fold j in Jlo, Jhi.
  assert (0 <= j <= total)%Z as Hj.
  { split; [apply Z.div_pos; lia |]. nia. }
  assert (0 < inject_Z n) as HN
    by (change 0 with (inject_Z 0); rewrite <- Zlt_Qlt; lia).
  unfold div64, div, ofZ at 1 2. change 0 with (inject_Z 0) at 1.
  rewrite Qeq_bool_inject_Z.
  destruct (Z.eqb_spec n 0) as [E | _]; [lia |].
  unfold fin, binary64.
  set (q := Qred (inject_Z total / inject_Z n)).
  assert (q * inject_Z n == inject_Z total) as Hq.
  { unfold q. rewrite Qred_correct. field. lra. }
  assert (inject_Z (2 * n * j) <= inject_Z (2 * total + n)) as Jlo'
    by now rewrite <- Zle_Qle.
  assert (inject_Z (2 * total + n) < inject_Z (2 * n * Z.succ j)) as Jhi'
    by now rewrite <- Zlt_Qlt.
  unfold Z.succ in Jhi'.
  rewrite !inject_Z_plus, !inject_Z_mult in Jlo', Jhi'.
  rewrite ?inject_Z_plus in Jhi'.
  change (inject_Z 2) with 2 in Jlo', Jhi'.
  change (inject_Z 1) with 1 in Jhi'.
  assert (inject_Z total < 4503599627370496) as Ht'
    by (change 4503599627370496 with (inject_Z 4503599627370496);
        rewrite <- Zlt_Qlt; lia).
  assert (0 <= inject_Z total) as Ht0
    by (change 0 with (inject_Z 0); rewrite <- Zle_Qle; lia).
  assert (0 <= q) as Hq0.
  { unfold q. rewrite Qred_correct. apply Qle_shift_div_l; [exact HN | lra]. }
  destruct (Z.eq_dec total 0) as [T0 | TN].
  { (* nothing to divide *)
    assert (q == 0) as Q0.
    { unfold q. rewrite Qred_correct, T0. field. lra. }
    assert (round64 q = fin q) as ->.
    { apply (@round64_exact q 0 0); [| reflexivity | lia].
      rewrite Q0. reflexivity. }
    assert (j = 0)%Z as -> by nia.
    apply Number_toFixed0_within; try lra; [lia | |];
      change (inject_Z 0) with 0; lra. }
  destruct (Z.eq_dec (2 * n * j) (2 * total + n)) as [Tie | NoTie].
  { (* the mean is a whole number and a half: a binary64 value *)
    assert (q == inject_Z j - (1 # 2)) as Qj.
    { apply (Qmult_inj_r _ _ (inject_Z n)); [lra |]. rewrite Hq.
      assert (inject_Z (2 * n * j) == inject_Z (2 * total + n)) as T
        by now rewrite Tie.
      rewrite !inject_Z_plus, !inject_Z_mult in T.
      change (inject_Z 2) with 2 in T. lra. }
    assert (round64 q = fin q) as ->.
    { apply (@round64_exact q (2 * j - 1) (-1)); [| lia | lia].
      rewrite Qj. unfold Z.sub.
      rewrite inject_Z_plus, inject_Z_opp, inject_Z_mult.
      change (2 ^ (-1)) with (1 # 2). change (inject_Z 2) with 2.
      change (inject_Z 1) with 1. lra. }
    apply Number_toFixed0_within; try lra. lia. }
  (* otherwise the mean is at least 1/(2n) away from a half *)
  assert (inject_Z (2 * n * j) + 1 <= inject_Z (2 * total + n)) as Jlo''.
  { change 1 with (inject_Z 1). rewrite <- inject_Z_plus, <- Zle_Qle. lia. }
  rewrite !inject_Z_plus, !inject_Z_mult in Jlo''.
  change (inject_Z 2) with 2 in Jlo''.
  assert (inject_Z (2 * total + n) + 1 <= inject_Z (2 * n * (j + 1))) as Jhi''.
  { change 1 with (inject_Z 1) at 1. rewrite <- inject_Z_plus, <- Zle_Qle. lia. }
  rewrite !inject_Z_plus, !inject_Z_mult, ?inject_Z_plus in Jhi''.
  change (inject_Z 2) with 2 in Jhi''. change (inject_Z 1) with 1 in Jhi''.
  assert (1 <= inject_Z total) as T1
    by (change 1 with (inject_Z 1); rewrite <- Zle_Qle; lia).
  assert (inject_Z n < 4294967296) as HN'
    by (change 4294967296 with (inject_Z 4294967296); rewrite <- Zlt_Qlt; lia).
  assert (Qabs q == q) as Aq by now apply Qabs_pos.
  assert ((1 # 4294967296) <= q) as Qlo.
  { apply (Qmult_le_r _ _ (inject_Z n)); [exact HN |]. rewrite Hq. lra. }
  assert (q <= inject_Z total) as Qhi.
  { assert (1 <= inject_Z n) as N1
      by (change 1 with (inject_Z 1); rewrite <- Zle_Qle; lia).
    assert (q * 1 <= q * inject_Z n) as M
      by (rewrite !(Qmult_comm q); now apply Qmult_le_compat_r).
    lra. }
  destruct (@round64_error q) as (r & -> & Herr).
  { rewrite Aq. eapply Qle_trans; [| exact Qlo].
    apply (pow2_le (a := -1022) (b := -32)). lia. }
  { rewrite Aq. eapply Qle_lt_trans; [exact Qhi |].
    eapply Qlt_le_trans; [exact Ht' |].
    change 4503599627370496 with (2 ^ 52).
    apply (pow2_le (a := 52) (b := 1023)). lia. }
  rewrite Aq in Herr. change (2 ^ (-53)) with (1 # 9007199254740992) in Herr.
  apply Qabs_Qle_condition in Herr. destruct Herr as [E1 E2].
  (* the error, multiplied by the number of items, is below a half *)
  assert ((r - q) * inject_Z n <= (q * (1 # 9007199254740992)) * inject_Z n)
    as M1 by (apply Qmult_le_compat_r; lra).
  assert ((- (q * (1 # 9007199254740992))) * inject_Z n <= (r - q) * inject_Z n)
    as M2 by (apply Qmult_le_compat_r; lra).
  assert ((q * (1 # 9007199254740992)) * inject_Z n
          == inject_Z total * (1 # 9007199254740992)) as Eu
    by (rewrite <- Hq; ring).
  assert ((r - q) * inject_Z n == r * inject_Z n - inject_Z total) as Er
    by (rewrite <- Hq; ring).
  assert ((- (q * (1 # 9007199254740992))) * inject_Z n
          == - (inject_Z total * (1 # 9007199254740992))) as Eu'
    by (rewrite <- Hq; ring).
  rewrite Eu, Er in M1. rewrite Eu', Er in M2.
  assert ((inject_Z j - (1 # 2)) * inject_Z n <= r * inject_Z n) as L1
    by (ring_simplify; lra).
  assert (r * inject_Z n < (inject_Z j + (1 # 2)) * inject_Z n) as L2
    by (ring_simplify; lra).
  apply Qmult_le_r in L1; [| exact HN]. apply Qmult_lt_r in L2; [| exact HN].
  apply Number_toFixed0_within; try lra. lia.
Qed.

Section Mean.

Variable w : World.

(** The difference of the two dates is a whole number of minutes, hence
    even, and below 2^54: it is a binary64 value, and so is its quotient
    by 60000. *)
Lemma minutesOpen_closedSpan (alert : Alert) (span : Z * Z) (h : list event) :
  closedSpan alert span -> wholeMinutes span ->
  minutesOpen w alert h = (Ret (ofZ (minutesOf span)), h).
Proof.
  intros (Ho & d & Hc & Hd) (Ha & Hb & Hle & k & Hk).
  unfold minutesOpen, bind. rewrite Hc. unfold ret. rewrite Ho, Hd.
  unfold minutesOf. unfold maxTime in *.
  rewrite sub64_ofZ_even.
  - rewrite Hk, Z.div_mul by lia. rewrite div64_ofZ_exact; [reflexivity | lia |].
    change (2 ^ 53)%Z with 9007199254740992%Z. lia.
  - exists (k * 30000)%Z. lia.
  - change (2 ^ 54)%Z with 18014398509481984%Z. lia.
Qed.

Lemma mapM_minutesOpen_spans (alerts : list Alert) (spans : list (Z * Z))
    (h : list event) :
  Forall2 closedSpan alerts spans -> Forall wholeMinutes spans ->
  mapM (minutesOpen w) alerts h
  = (Ret (map (fun span => ofZ (minutesOf span)) spans), h).
Proof.
  induction 1 as [| a sp l sps Ha _ IH]; intros Hw; cbn [mapM map];
    [reflexivity |].
  inversion Hw as [| ? ? Hsp Hsps]; subst.
  unfold bind at 1. rewrite (minutesOpen_closedSpan h Ha Hsp).
  unfold bind at 1. now rewrite IH.
Qed.

Lemma minutesOf_nonneg (span : Z * Z) : wholeMinutes span -> (0 <= minutesOf span)%Z.
Proof.
  intros (_ & _ & Hle & _). unfold minutesOf. apply Z.div_pos; lia.
Qed.

Lemma totalMinutes_nonneg (spans : list (Z * Z)) :
  Forall wholeMinutes spans -> (0 <= totalMinutes spans)%Z.
Proof.
  induction 1 as [| sp spans Hsp _ IH]; cbn [totalMinutes fold_right]; [lia |].
  fold (totalMinutes spans). pose proof (minutesOf_nonneg Hsp). lia.
Qed.

(** While the total stays within 2^53, no partial sum is rounded. *)
Lemma sum_minutes (spans : list (Z * Z)) (s : Z) :
  Forall wholeMinutes spans ->
  (0 <= s)%Z -> (s + totalMinutes spans <= 2 ^ 53)%Z ->
  fold_left (fun acc cur => add64 acc cur)
    (map (fun span => ofZ (minutesOf span)) spans) (ofZ s)
  = ofZ (s + totalMinutes spans).
Proof.
  intros Hall. revert s.
  induction Hall as [| sp spans Hsp Hall IH]; intros s Hs Hb;
    cbn [map fold_left totalMinutes fold_right] in *.
  - f_equal. lia.
  - fold (totalMinutes spans) in *.
    pose proof (minutesOf_nonneg Hsp). pose proof (totalMinutes_nonneg Hall).
    rewrite add64_ofZ by lia. rewrite IH by lia. f_equal. lia.
Qed.

(** X6. For a list of fewer than 2^32 closed alerts, each open for a
    whole number of minutes, with less than 2^52 minutes between them,
    [getMTTR] returns the whole number nearest to the mean of the open
    times, a half going up, and reads no clock: the differences, the
    quotients by 60000 and the partial sums are not rounded, and the
    rounding of the mean to binary64 does not move it across a half. *)
Theorem getMTTR_nearest_minute (alerts : list Alert) (spans : list (Z * Z))
    (h : list event) :
  alerts <> [] ->
  Forall2 closedSpan alerts spans ->
  Forall wholeMinutes spans ->
  let n := Z.of_nat (List.length alerts) in
  let total := totalMinutes spans in
  (n < 2 ^ 32)%Z -> (total < 2 ^ 52)%Z ->
  getMTTR w alerts h = (Ret (ofZ ((2 * total + n) / (2 * n))), h).
Proof.
  intros Hne Hall Hw n total Hn Ht. unfold getMTTR, ofNat.
  destruct alerts as [| a l]; [contradiction |].
  cbn [Nat.eqb List.length]. fold (List.length (a :: l)). fold n.
  unfold bind. rewrite (mapM_minutesOpen_spans h Hall Hw). unfold ret.
  pose proof (totalMinutes_nonneg Hw) as H0. fold total in H0.
  rewrite sum_minutes; [| exact Hw | lia |].
  - cbn [Z.add]. fold total.
    rewrite Number_toFixed0_mean; [reflexivity | lia |].
    split; [unfold n; cbn [List.length]; lia | exact Hn].
  - cbn [Z.add]. fold total. change (2 ^ 53)%Z with 9007199254740992%Z.
    change (2 ^ 52)%Z with 4503599627370496%Z in Ht. lia.
Qed.

End Mean.

Lemma getMTTR_nearest_witness :
  getMTTR Sample.busyWorld [Sample.recent; Sample.hourLong1; Sample.recent] []
  = (Ret (ofZ 21), []).
Proof.
  apply (@getMTTR_nearest_minute Sample.busyWorld
           [Sample.recent; Sample.hourLong1; Sample.recent]
           [(900000, 960000); (0, 3600000); (900000, 960000)]%Z []).
  - discriminate.
  - repeat constructor; eexists; split; reflexivity.
  - repeat constructor; try (vm_compute; discriminate).
    + exists 1%Z. reflexivity.
    + exists 60%Z. reflexivity.
    + exists 1%Z. reflexivity.
  - vm_compute. reflexivity.
  - vm_compute. reflexivity.
Defined.

(** ** Availability *)

Lemma availability_whole (windowMin downTime : Z) :
  (1 <= windowMin)%Z ->
  availability (ofZ windowMin) (ofZ downTime)
  = fin (inject_Z (100 * (windowMin - downTime)) / inject_Z windowMin).
Proof.
  intros H. unfold availability. rewrite sub_ofZ, mul_ofZ.
  unfold div, ofZ. change 0 with (inject_Z 0). rewrite Qeq_bool_inject_Z.
  destruct (Z.eqb_spec windowMin 0); [lia | reflexivity].
Qed.

Lemma quotient_sign (a b : Z) :
  (1 <= b)%Z -> (0 <= inject_Z a / inject_Z b <-> (0 <= a)%Z).
Proof.
  intros Hb. destruct b as [| p | p]; try lia.
  unfold Qle, Qdiv, Qmult, Qinv, inject_Z. simpl. lia.
Qed.

Lemma quotient_le (a b c : Z) :
  (1 <= b)%Z -> (inject_Z a / inject_Z b <= inject_Z c <-> (a <= c * b)%Z).
Proof.
  intros Hb. destruct b as [| p | p]; try lia.
  unfold Qle, Qdiv, Qmult, Qinv, inject_Z. simpl. lia.
Qed.

(** X7. For a window of at least one whole minute and a whole down time,
    the availability is negative exactly when the down time exceeds the
    window, and it is at most 100 exactly when the down time is not
    negative: the value is clamped at neither end. *)
Theorem availability_sign_and_ceiling (windowMin downTime : Z) :
  (1 <= windowMin)%Z ->
  lt (availability (ofZ windowMin) (ofZ downTime)) (ofZ 0)
  = (windowMin <? downTime)%Z /\
  ge (ofZ 100) (availability (ofZ windowMin) (ofZ downTime))
  = (0 <=? downTime)%Z.
Proof.
  intros H. rewrite (availability_whole downTime H). unfold fin, lt, ge, ofZ.
  split.
  - unfold Qltb. apply eq_true_iff_eq.
    rewrite negb_true_iff, <- not_true_iff_false, Qle_bool_iff.
    change (inject_Z 0) with 0. rewrite Qred_correct, (quotient_sign _ H).
    rewrite Z.ltb_lt. lia.
  - apply eq_true_iff_eq.
    rewrite Qle_bool_iff, Qred_correct, (quotient_le _ _ H), Z.leb_le. lia.
Qed.

Lemma availability_sign_witness :
  lt (availability (ofZ 60) (ofZ 120)) (ofZ 0) = (60 <? 120)%Z /\
  ge (ofZ 100) (availability (ofZ 60) (ofZ 120)) = (0 <=? 120)%Z.
Proof.
  apply (@availability_sign_and_ceiling 60 120). lia.
Defined.

(** ** The groups of a monitor *)

Lemma lookup_insert_group (k k' : string) (a : Alert) (r : record Alert) :
  lookupOrEmpty k (insert_group k' a r)
  = (lookupOrEmpty k r ++ (if String.eqb k' k then [a] else []))%list.
Proof.
  unfold lookupOrEmpty.
  induction r as [| [k0 g0] r IH]; cbn [insert_group lookup].
  - rewrite String.eqb_sym. now destruct (String.eqb k' k).
  - destruct (String.eqb_spec k' k0) as [-> | Hne]; cbn [lookup].
    + rewrite String.eqb_sym.
      destruct (String.eqb k0 k); [reflexivity | now rewrite app_nil_r].
    + destruct (String.eqb_spec k k0) as [-> | Hne'].
      * destruct (String.eqb_spec k' k0); [contradiction |].
        now rewrite app_nil_r.
      * exact IH.
Qed.

Lemma lookup_fold (k : string) (items : list Alert) (r : record Alert) :
  lookupOrEmpty k (fold_left (fun r a => insert_group (groupKey a) a r) items r)
  = (lookupOrEmpty k r ++ filter (ofMonitor k) items)%list.
Proof.
  revert r. induction items as [| a items IH]; intros r; cbn [fold_left filter].
  - now rewrite app_nil_r.
  - rewrite IH, lookup_insert_group, <- app_assoc. unfold ofMonitor.
    now destruct (String.eqb (groupKey a) k).
Qed.

Lemma lookup_groupBy (k : string) (items : list Alert) :
  lookupOrEmpty k (groupBy groupKey items) = filter (ofMonitor k) items.
Proof. apply (lookup_fold k items []). Qed.

Lemma In_lookup (r : record Alert) (k : string) (g : list Alert) :
  NoDup (keys r) -> In (k, g) r -> lookup k r = Some g.
Proof.
  induction r as [| [k0 g0] r IH]; cbn [lookup keys map In fst];
    [intros _ [] |].
  intros ND [E | H]; inversion ND as [| ? ? Hnot ND']; subst.
  - inversion E; subst. now rewrite String.eqb_refl.
  - destruct (String.eqb_spec k k0) as [-> | _]; [| now apply IH].
    exfalso. apply Hnot. change k0 with (fst (k0, g)). now apply in_map.
Qed.

Lemma lookup_In (r : record Alert) (k : string) (g : list Alert) :
  lookup k r = Some g -> In (k, g) r.
Proof.
  induction r as [| [k0 g0] r IH]; cbn [lookup In]; [discriminate |].
  destruct (String.eqb_spec k k0) as [-> | _].
  - intros E. inversion E. now left.
  - intros H. right. now apply IH.
Qed.

Lemma filter_filter (A : Type) (p q : A -> bool) (l : list A) :
  filter p (filter q l) = filter (fun a => p a && q a) l.
Proof.
  induction l as [| a l IH]; cbn [filter]; [reflexivity |].
  destruct (q a); cbn [filter]; rewrite ?andb_true_r, ?andb_false_r;
    [destruct (p a) |]; now rewrite IH.
Qed.

Lemma inWindow_openedWithin (lo hi : Date) (l u : Z) (alert : Alert) :
  valueOf lo = ofZ l -> valueOf hi = ofZ u ->
  inWindow lo hi alert = openedWithin l u alert.
Proof.
  intros Hl Hu. unfold inWindow, openedWithin, date_ge, date_lt.
  rewrite Hl, Hu. now destruct (valueOf (openedAt alert)).
Qed.

Lemma lookup_window (lo hi : Date) (l u : Z) (fetched : list Alert)
    (key : string) :
  valueOf lo = ofZ l -> valueOf hi = ofZ u ->
  lookupOrEmpty key (groupBy groupKey (filter (inWindow lo hi) fetched))
  = filter (fun alert => ofMonitor key alert && openedWithin l u alert) fetched.
Proof.
  intros Hl Hu. rewrite lookup_groupBy, filter_filter.
  apply filter_ext. intros a.
  now rewrite (@inWindow_openedWithin lo hi l u a Hl Hu).
Qed.

(** X8. For dates at [p], [f] and [t] milliseconds, the two records
    hold, under every key, exactly the fetched alerts of that key and
    window, in the order fetched (no alert of the key and window: no
    property, read as the empty list): those opened from [f] on and
    before [t] in the current record, those opened from [p] on and before
    [f] in the previous one.  The entries of the current record are
    these lists, as far as they are not empty. *)
Theorem groups_are_the_alerts_of_a_monitor (prev from to : Date) (p f t : Z)
    (fetched : list Alert) (key : string) :
  valueOf prev = ofZ p -> valueOf from = ofZ f -> valueOf to = ofZ t ->
  let current :=
    filter (fun alert => ofMonitor key alert && openedWithin f t alert)
           fetched in
  let previous :=
    filter (fun alert => ofMonitor key alert && openedWithin p f alert)
           fetched in
  lookupOrEmpty key (fst (splitWindows prev from to fetched)) = current /\
  lookupOrEmpty key (snd (splitWindows prev from to fetched)) = previous /\
  forall group,
    In (key, group) (entries (fst (splitWindows prev from to fetched)))
    <-> group = current /\ group <> [].
Proof.
  intros Hp Hf Ht current previous. unfold splitWindows. cbn [fst snd].
  pose proof (@lookup_window from to f t fetched key Hf Ht) as Hcur. fold current in Hcur.
  split; [exact Hcur |]. split; [exact (@lookup_window prev from p f fetched key Hp Hf) |].
  intros group.
  pose proof (groupBy_grouped groupKey (filter (inWindow from to) fetched)) as G.
  rewrite entries_In. split.
  - intros Hin. split;
      [| intros E; subst group; now apply (grouped_nonempty G) in Hin].
    pose proof (@In_lookup _ key group (grouped_keys G) Hin) as Hl.
    unfold lookupOrEmpty in Hcur. now rewrite Hl in Hcur.
  - intros [-> Hne]. apply lookup_In. unfold lookupOrEmpty in Hcur.
    destruct (lookup key _) as [g |]; [now rewrite Hcur | now symmetry in Hcur].
Qed.

Lemma groups_witness :
  lookupOrEmpty "m1" (fst (splitWindows (dateAt 0) (dateAt 2000000)
                             (dateAt 4000000) Sample.mixedPage))
  = [Sample.late] /\
  lookupOrEmpty "m1" (snd (splitWindows (dateAt 0) (dateAt 2000000)
                             (dateAt 4000000) Sample.mixedPage))
  = [AlertStats.Sample.recent; AlertStats.Sample.hourLong1] /\
  In ("m2"%string, [Sample.atFrom])
     (entries (fst (splitWindows (dateAt 0) (dateAt 2000000)
                      (dateAt 4000000) Sample.mixedPage))).
Proof.
  destruct (@groups_are_the_alerts_of_a_monitor (dateAt 0) (dateAt 2000000)
              (dateAt 4000000) 0 2000000 4000000 Sample.mixedPage "m1"
              eq_refl eq_refl eq_refl) as (H1 & H2 & _).
  destruct (@groups_are_the_alerts_of_a_monitor (dateAt 0) (dateAt 2000000)
              (dateAt 4000000) 0 2000000 4000000 Sample.mixedPage "m2"
              eq_refl eq_refl eq_refl) as (_ & _ & H3).
  split; [exact H1 |]. split; [exact H2 |].
  apply H3. split; [reflexivity | discriminate].
Defined.

End AlertStatsMore.

(** * list_monitors.ts, both copies: further properties *)

Module ListMonitorsMore.

Import JS ListMonitorsFacts.

(** ** Splitting the service list *)

Lemma split_nonempty (sep : ascii) (s : string) : split sep s <> [].
Proof.
  destruct s as [| c s]; cbn [split]; [discriminate |].
  destruct (Ascii.eqb c sep); [discriminate |].
  destruct (split sep s); discriminate.
Qed.

Lemma split_app (sep : ascii) (a b : string) :
  split sep (a ++ String sep b) = (split sep a ++ split sep b)%list.
Proof.
  induction a as [| c a IH]; cbn [append split].
  - now rewrite Ascii.eqb_refl.
  - rewrite IH. destruct (Ascii.eqb c sep); [reflexivity |].
    pose proof (split_nonempty sep a) as Hne.
    destruct (split sep a) as [| x t]; [contradiction | reflexivity].
Qed.

Lemma str_includes_empty (s : string) : str_includes s "" = true.
Proof. destruct s; reflexivity. Qed.

Lemma existsb_ext (A : Type) (f g : A -> bool) (l : list A) :
  (forall x, f x = g x) -> existsb f l = existsb g l.
Proof.
  intros H. induction l as [| x l IH]; cbn [existsb]; [reflexivity |].
  now rewrite H, IH.
Qed.

Lemma existsb_orb (A : Type) (f g : A -> bool) (l : list A) :
  existsb (fun x => f x || g x) l = existsb f l || existsb g l.
Proof.
  induction l as [| x l IH]; cbn [existsb]; [reflexivity |].
  rewrite IH. destruct (f x), (g x), (existsb f l), (existsb g l); reflexivity.
Qed.

(** ** The current script *)

Lemma keeps_app (s1 s2 : list string) (ea : bool)
    (monitor : ListMonitors.Monitor) :
  ListMonitors.keeps (s1 ++ s2) ea monitor
  = ListMonitors.keeps s1 ea monitor || ListMonitors.keeps s2 ea monitor.
Proof.
  unfold ListMonitors.keeps.
  destruct (ListMonitors.nameMatched _); [apply existsb_app |].
  destruct (ListMonitors.scopes monitor) as [sc |]; [| now destruct ea].
  destruct (ea && _); [reflexivity |].
  destruct (Nat.eqb _ 0); [reflexivity |].
  rewrite <- existsb_orb. apply existsb_ext. intros scope.
  apply existsb_app.
Qed.

(** X9. A filter of two comma-separated parts keeps a monitor exactly
    when the filter for one of the parts keeps it. *)
Theorem filterByService_comma_is_union
    (monitors : list ListMonitors.Monitor) (a b : string)
    (excludeAllServices : bool) (monitor : ListMonitors.Monitor) :
  In monitor
     (ListMonitors.filterByService monitors (a ++ "," ++ b) excludeAllServices)
  <->
  In monitor (ListMonitors.filterByService monitors a excludeAllServices) \/
  In monitor (ListMonitors.filterByService monitors b excludeAllServices).
Proof.
  unfold ListMonitors.filterByService. rewrite !filter_In.
  change (a ++ "," ++ b)%string with (a ++ String "," b)%string.
  rewrite split_app, map_app, keeps_app, orb_true_iff. tauto.
Qed.

(** X10. A filter that ends in a comma has an empty part, and every name
    contains the empty string: all monitors of the types matched on
    their name pass it. *)
Theorem filterByService_trailing_comma
    (monitors : list ListMonitors.Monitor) (a : string)
    (excludeAllServices : bool) (monitor : ListMonitors.Monitor) :
  ListMonitors.nameMatched (ListMonitors.type monitor) = true ->
  In monitor monitors ->
  In monitor
     (ListMonitors.filterByService monitors (a ++ ",") excludeAllServices).
Proof.
  intros Hty Hin. unfold ListMonitors.filterByService. apply filter_In.
  split; [exact Hin |].
  change (a ++ ",")%string with (a ++ String "," "")%string.
  rewrite split_app, map_app, keeps_app. apply orb_true_iff. right.
  unfold ListMonitors.keeps. rewrite Hty. cbn [split map trim trimStart trimEnd existsb].
  now rewrite str_includes_empty.
Qed.

Lemma filterByService_trailing_comma_witness :
  In ListMonitorsCli.Sample.pingMonitor
     (ListMonitors.filterByService
        [ListMonitors.Sample.roleMonitor; ListMonitorsCli.Sample.pingMonitor]
        ("svcA" ++ ",") true).
Proof.
  apply (@filterByService_trailing_comma
           [ListMonitors.Sample.roleMonitor; ListMonitorsCli.Sample.pingMonitor]
           "svcA" true ListMonitorsCli.Sample.pingMonitor).
  - reflexivity.
  - right. left. reflexivity.
Defined.

(** ** Both copies *)

Lemma keeps_excludeAll_irrelevant (services : list string)
    (monitor : ListMonitors.Monitor) :
  ListMonitors.nameMatched (ListMonitors.type monitor) = true \/
  ~ ListMonitors.noScopes monitor ->
  ListMonitors.keeps services true monitor
  = ListMonitors.keeps services false monitor.
Proof.
  unfold ListMonitors.keeps, ListMonitors.noScopes.
  intros [-> | H]; [reflexivity |].
  destruct (ListMonitors.nameMatched _); [reflexivity |].
  destruct (ListMonitors.scopes monitor) as [sc |]; [| now contradiction H].
  destruct (ListMonitors.scopesToIncludeArray sc); [now contradiction H |].
  reflexivity.
Qed.

Lemma legacy_keeps_excludeAll_irrelevant (service : string)
    (monitor : Part000.Monitor) :
  Part000.nameMatched (Part000.type monitor) = true \/
  ~ Part000.noScopes monitor ->
  Part000.keeps service true monitor = Part000.keeps service false monitor.
Proof.
  unfold Part000.keeps, Part000.noScopes.
  intros [-> | H]; [reflexivity |].
  destruct (Part000.nameMatched _); [reflexivity |].
  destruct (match Part000.excludeScopes monitor with
            | Some l => _ | None => _ end); [reflexivity |].
  destruct (Part000.missingOrEmpty _); [now contradiction H | reflexivity].
Qed.

(** X11. In both copies, excludeAllServices changes nothing for a monitor
    that is matched on its name or has a scope: the filter keeps it with
    the flag set exactly when it keeps it without. *)
Theorem excludeAllServices_only_concerns_missing_scopes (service : string)
    (monitor : ListMonitors.Monitor) (monitors : list ListMonitors.Monitor)
    (legacy : Part000.Monitor) (legacyMonitors : list Part000.Monitor) :
  ListMonitors.nameMatched (ListMonitors.type monitor) = true \/
  ~ ListMonitors.noScopes monitor ->
  Part000.nameMatched (Part000.type legacy) = true \/
  ~ Part000.noScopes legacy ->
  (In monitor (ListMonitors.filterByService monitors service true) <->
   In monitor (ListMonitors.filterByService monitors service false))
  /\
  (In legacy (Part000.filterByService legacyMonitors service true) <->
   In legacy (Part000.filterByService legacyMonitors service false)).
Proof.
  intros H H'. unfold ListMonitors.filterByService, Part000.filterByService.
  rewrite !filter_In.
  rewrite (@keeps_excludeAll_irrelevant _ monitor H).
  rewrite (@legacy_keeps_excludeAll_irrelevant service legacy H').
  split; reflexivity.
Qed.

Lemma excludeAllServices_witness :
  (In ListMonitors.Sample.roleMonitor
      (ListMonitors.filterByService [ListMonitors.Sample.roleMonitor]
         "svcA" true) <->
   In ListMonitors.Sample.roleMonitor
      (ListMonitors.filterByService [ListMonitors.Sample.roleMonitor]
         "svcA" false))
  /\
  (In Part000.Sample.roleMonitor
      (Part000.filterByService [Part000.Sample.roleMonitor] "svcA" true) <->
   In Part000.Sample.roleMonitor
      (Part000.filterByService [Part000.Sample.roleMonitor] "svcA" false)).
Proof.
  apply (@excludeAllServices_only_concerns_missing_scopes "svcA"
           ListMonitors.Sample.roleMonitor [ListMonitors.Sample.roleMonitor]
           Part000.Sample.roleMonitor [Part000.Sample.roleMonitor]).
  - right. intros H. discriminate H.
  - right. intros H. discriminate H.
Defined.

(** X12. In the earlier copy an exclude scope of the service asked for
    decides alone: a monitor that is not matched on its name and has
    one is dropped, whatever its scopes and the flag. *)
Theorem legacy_exclusion_decides (service : string)
    (monitor : Part000.Monitor) (monitors : list Part000.Monitor)
    (excluded : list string) (excludeAllServices : bool) :
  Part000.nameMatched (Part000.type monitor) = false ->
  Part000.excludeScopes monitor = Some excluded ->
  existsb (Part000.servicePartIs service) excluded = true ->
  ~ In monitor (Part000.filterByService monitors service excludeAllServices).
Proof.
  intros Hty Hex Hany. unfold Part000.filterByService. rewrite filter_In.
  intros [_ H]. unfold Part000.keeps in H. rewrite Hty, Hex, Hany in H.
  destruct excluded; [discriminate Hany | discriminate H].
Qed.

Lemma legacy_exclusion_witness :
  ~ In Part000.Sample.excludedRoleMonitor
       (Part000.filterByService
          [Part000.Sample.roleMonitor; Part000.Sample.excludedRoleMonitor]
          "svcA" false).
Proof.
  apply (@legacy_exclusion_decides "svcA" Part000.Sample.excludedRoleMonitor
           [Part000.Sample.roleMonitor; Part000.Sample.excludedRoleMonitor]
           ["svcA:db"%string] false); reflexivity.
Defined.

(** X13. The two copies agree on a filter that names one service (no
    comma, no blank at either end): for monitors with the same type, name
    and scopes, and no exclude scope of that service in the earlier
    copy, both keep the monitor or both drop it. *)
Theorem copies_agree_on_one_service (service : string)
    (excludeAllServices : bool)
    (monitor : ListMonitors.Monitor) (legacy : Part000.Monitor) :
  map trim (split "," service) = [service] ->
  ListMonitors.type monitor = Part000.type legacy ->
  ListMonitors.name monitor = Part000.name legacy ->
  ListMonitors.scopes monitor
  = option_map ListMonitors.ScopesArray (Part000.scopes legacy) ->
  Part000.notExcludedFrom service legacy ->
  (In monitor (ListMonitors.filterByService [monitor] service excludeAllServices)
   <->
   In legacy (Part000.filterByService [legacy] service excludeAllServices)).
Proof.
  intros Hone Hty Hname Hsc Hex.
  unfold ListMonitors.filterByService, Part000.filterByService.
  rewrite !filter_In, Hone.
  assert (ListMonitors.keeps [service] excludeAllServices monitor
          = Part000.keeps service excludeAllServices legacy) as ->.
  { unfold ListMonitors.keeps, Part000.keeps.
    rewrite Hty, Hname, Hsc, (excluded_false _ _ Hex).
    change (ListMonitors.nameMatched (Part000.type legacy))
      with (Part000.nameMatched (Part000.type legacy)).
    destruct (Part000.nameMatched _); [apply orb_false_r |].
    destruct (Part000.scopes legacy) as [l |];
      cbn [option_map ListMonitors.scopesToIncludeArray Part000.missingOrEmpty];
      [| now destruct excludeAllServices].
    destruct (excludeAllServices && _); [reflexivity |].
    destruct (Nat.eqb _ 0); [reflexivity |].
    apply existsb_ext. intros scope. unfold arr_includes, Part000.servicePartIs.
    cbn [existsb]. apply orb_false_r. }
  split; intros [_ H]; (split; [now left | exact H]).
Qed.

Lemma copies_agree_witness :
  In ListMonitors.Sample.roleMonitor
     (ListMonitors.filterByService [ListMonitors.Sample.roleMonitor] "svcA" true)
  <->
  In Part000.Sample.roleMonitor
     (Part000.filterByService [Part000.Sample.roleMonitor] "svcA" true).
Proof.
  apply (@copies_agree_on_one_service "svcA" true
           ListMonitors.Sample.roleMonitor Part000.Sample.roleMonitor);
    first [reflexivity | exact I].
Defined.

End ListMonitorsMore.

(** * mackerel/list_monitors.ts: properties of the command line *)

Module ListMonitorsCliFacts.

Import JS Eff Http EffOutcome ListMonitors ListMonitorsCli.
Import EffFacts EffOutcomeFacts.

Section World.

Variable w : World.
Variable serviceNameOf : Monitor -> option string.

(** ** Notification groups *)

(** X14. [getNotificationGroup] makes one request and returns the first
    group listed under the id asked for; when no group has that id it
    throws the not-found error for that id. *)
Theorem getNotificationGroup_finds (wanted : string)
    (groups : list NotificationGroup) (h : list event) :
  groups_response w (h ++ [EvListNotificationGroups]) = Some groups ->
  (exists group before after,
     getNotificationGroup w wanted h
     = (Ret group, h ++ [EvListNotificationGroups]) /\
     groups = (before ++ group :: after)%list /\
     groupId group = wanted /\
     Forall (fun g => groupId g <> wanted) before)
  \/
  (getNotificationGroup w wanted h
   = (Throw (NotFound wanted), h ++ [EvListNotificationGroups]) /\
   Forall (fun g => groupId g <> wanted) groups).
Proof.
  intros Hr. unfold getNotificationGroup. run. rewrite Hr. run.
  clear Hr. induction groups as [| g groups IH]; cbn [find].
  - right. now split.
  - destruct (String.eqb_spec (groupId g) wanted) as [E | Hne].
    + left. exists g, [], groups. repeat split; auto.
    + destruct IH as [(group & before & after & Hrun & -> & Hid & Hb) | [Hrun Hall]].
      * left. exists group, (g :: before), after.
        repeat split; auto.
      * right. split; [exact Hrun | now constructor].
Qed.

Lemma anyScopeAllowed_existsb (allowed scopes : list string) :
  anyScopeAllowed allowed scopes
  = existsb (fun scope => arr_includes allowed (split_head ":" scope)) scopes.
Proof.
  induction scopes as [| scope scopes IH]; cbn [anyScopeAllowed existsb];
    [reflexivity |].
  rewrite IH. now destruct (arr_includes allowed _).
Qed.

(** X15. For a monitor that has a scope, is not matched on its name, is
    not listed in the group by id and has no service name, the
    notification-group filter decides as the service filter does for
    the services of the group. *)
Theorem group_filter_agrees_with_service_filter
    (group : NotificationGroup) (monitor : Monitor)
    (excludeAllServices : bool) :
  nameMatched (type monitor) = false ->
  ~ noScopes monitor ->
  arr_includes (groupMonitors group) (id monitor) = false ->
  serviceNameOf monitor = None ->
  allowedBy serviceNameOf group monitor
  = Some (keeps (groupServices group) excludeAllServices monitor).
Proof.
  intros Hty Hsc Hid Hname. unfold allowedBy, keeps, noScopes in *.
  rewrite Hty, Hid, Hname. cbn [negb].
  destruct (scopes monitor) as [[| l | [include |] exclude] |];
    cbn [scopesToIncludeArray] in *; try now contradiction Hsc.
  - destruct l; [now contradiction Hsc |].
    rewrite anyScopeAllowed_existsb. cbn [List.length Nat.eqb].
    now rewrite andb_false_r.
  - destruct include; [now contradiction Hsc |].
    rewrite anyScopeAllowed_existsb. cbn [List.length Nat.eqb].
    now rewrite andb_false_r.
Qed.

(** ** [main] *)

(** X16. [main] ends in one of two ways only, for every command line and
    every answer of the API: it completes, or it leaves with exit code 1;
    no error gets out of it uncaught. *)
Theorem main_completes_or_exits_1 (args : list string)
    (MACKEREL_APIKEY : option string) (h : list event) :
  fst (main w serviceNameOf args MACKEREL_APIKEY h) = Ret tt \/
  fst (main w serviceNameOf args MACKEREL_APIKEY h) = Exit 1.
Proof.
  assert (fails_only (fun o => o = Exit 1)
            (main w serviceNameOf args MACKEREL_APIKEY)) as H.
  { unfold main, usage.
    destruct (truthy MACKEREL_APIKEY); [| fails].
    destruct (truthy (serviceFilter _)), (truthy (notificationGroupId _));
      try solve [fails];
      (apply fails_only_try_catch; [| fails]);
      unfold getMonitors, getNotificationGroup, displayMonitors, displayMonitor;
      fails. }
  specialize (H h).
  destruct (fst (main w serviceNameOf args MACKEREL_APIKEY h)) as [[] | x | c |];
    cbn in H; destruct H as [H | H]; try discriminate; auto.
Qed.

(** X17. With --format json, nothing goes to standard output but the JSON
    document: every other line the run writes goes to standard error. *)
Theorem main_json_prints_only_json (args : list string)
    (MACKEREL_APIKEY : option string) :
  format (parseArgs args initialFlags) = "json"%string ->
  Forall jsonOnly (snd (main w serviceNameOf args MACKEREL_APIKEY [])).
Proof.
  intros Hf.
  assert (emits_only jsonOnly (main w serviceNameOf args MACKEREL_APIKEY)) as H.
  { unfold main, usage, getMonitors, getNotificationGroup. rewrite Hf.
    cbn [notJson String.eqb Ascii.eqb Bool.eqb negb]. emits. }
  now apply H.
Qed.

(** X18. Without an API key, without a filter, or with both a service and
    a notification group, [main] leaves with exit code 1 and has made no
    request. *)
Theorem main_rejects_bad_command_line (args : list string)
    (MACKEREL_APIKEY : option string) :
  let flags := parseArgs args initialFlags in
  truthy MACKEREL_APIKEY = None \/
  (truthy (serviceFilter flags) = None /\
   truthy (notificationGroupId flags) = None) \/
  (truthy (serviceFilter flags) <> None /\
   truthy (notificationGroupId flags) <> None) ->
  fst (main w serviceNameOf args MACKEREL_APIKEY []) = Exit 1 /\
  Forall noRequest (snd (main w serviceNameOf args MACKEREL_APIKEY [])).
Proof.
  intros flags H. unfold main, usage. fold flags.
  destruct H as [-> | H]; [split; [reflexivity | repeat constructor] |].
  destruct (truthy MACKEREL_APIKEY);
    [| split; [reflexivity | repeat constructor]].
  destruct H as [[-> ->] | [H1 H2]];
    [split; [reflexivity | repeat constructor] |].
  destruct (truthy (serviceFilter flags)); [| now contradiction H1].
  destruct (truthy (notificationGroupId flags)); [| now contradiction H2].
  split; [reflexivity | repeat constructor].
Qed.

End World.

Import ListMonitorsCli.Sample.

Lemma getNotificationGroup_witness :
  (exists group before after,
     getNotificationGroup world "ng2" []
     = (Ret group, [EvListNotificationGroups]) /\
     [ops; dev] = (before ++ group :: after)%list /\
     groupId group = "ng2"%string /\
     Forall (fun g => groupId g <> "ng2"%string) before)
  \/
  (getNotificationGroup world "ng2" []
   = (Throw (NotFound "ng2"), [EvListNotificationGroups]) /\
   Forall (fun g => groupId g <> "ng2"%string) [ops; dev]).
Proof.
  apply (@getNotificationGroup_finds world "ng2" [ops; dev] []). reflexivity.
Defined.

Lemma group_filter_witness :
  allowedBy noServiceName dev objectMonitor
  = Some (keeps (groupServices dev) true objectMonitor).
Proof.
  apply (@group_filter_agrees_with_service_filter noServiceName dev
           objectMonitor true).
  - reflexivity.
  - intros H. discriminate H.
  - reflexivity.
  - reflexivity.
Defined.

Lemma main_json_witness :
  Forall jsonOnly
    (snd (main world noServiceName
            ["--format"; "json"; "--service"; "svcA"]%string
            (Some "key"%string) [])).
Proof.
  apply (@main_json_prints_only_json world noServiceName
           ["--format"; "json"; "--service"; "svcA"]%string (Some "key"%string)).
  reflexivity.
Defined.

Lemma main_rejects_witness :
  fst (main world noServiceName
         ["--service"; "svcA"; "--notificationGroupId"; "ng1"]%string
         (Some "key"%string) []) = Exit 1 /\
  Forall noRequest
    (snd (main world noServiceName
            ["--service"; "svcA"; "--notificationGroupId"; "ng1"]%string
            (Some "key"%string) [])).
Proof.
  apply (@main_rejects_bad_command_line world noServiceName
           ["--service"; "svcA"; "--notificationGroupId"; "ng1"]%string
           (Some "key"%string)).
  right. right. split; discriminate.
Defined.

End ListMonitorsCliFacts.

(** * The two maintainer scripts: further properties *)

Module MaintainerMore.

Import Eff Http EffOutcome EffFacts EffOutcomeFacts MaintainerViews.

(** ** The first argument *)

Ltac bit b := destruct b; try (cbv; reflexivity).

Ltac next_char a :=
  destruct a as [| [b0 b1 b2 b3 b4 b5 b6 b7] a]; [reflexivity |];
  bit b0; bit b1; bit b2; bit b3; bit b4; bit b5; bit b6; bit b7.

(** The test of the first argument against the flag, as a comparison of
    strings. *)
Lemma dry_run_match (B : Type) (args : list string) (x y : B) :
  match args with
  | "--dry-run"%string :: _ => x
  | _ => y
  end
  = if match args with
       | a :: _ => String.eqb a "--dry-run"
       | [] => false
       end
    then x else y.
Proof.
  destruct args as [| a rest]; [reflexivity |].
  do 9 next_char a. now destruct a.
Qed.

Lemma not_dry_run_head (args : list string) :
  notDryRun args ->
  match args with
  | a :: _ => String.eqb a "--dry-run"
  | [] => false
  end = false.
Proof.
  destruct args as [| a rest]; [reflexivity |]. cbn [notDryRun]. intros H.
  now destruct (String.eqb_spec a "--dry-run").
Qed.

(** ** The REST script *)

Module Rest.

Import MakeTeamMaintainer.

Local Abbreviation quiet := (EffOutcome.quiet printedName putSlug).

Section World.

Variable w : World.

Lemma setMaintainerOf_puts (org username token : string) (team : Team)
    (h : list event) :
  exists t,
    setMaintainerOf w org username token team h = (Ret tt, h ++ t) /\
    putSlugs t = [name team].
Proof.
  unfold setMaintainerOf, fetch, response_text, response_json. run.
  destruct (membership_response w _) as [response |]; run.
  - destruct (ok response); cbn [negb]; run.
    + destruct (json response) as [data |]; run;
        rewrite <- !app_assoc; cbn [app]; eexists; split; reflexivity.
    + destruct (text response) as [errorText |]; run;
        rewrite <- !app_assoc; cbn [app]; eexists; split; reflexivity.
  - rewrite <- !app_assoc; cbn [app]; eexists; split; reflexivity.
Qed.

Lemma forM_setMaintainerOf_puts (org username token : string)
    (teams : list Team) (h : list event) :
  exists t,
    forM teams (setMaintainerOf w org username token) h = (Ret tt, h ++ t) /\
    putSlugs t = map name teams.
Proof.
  revert h. induction teams as [| team teams IH]; intros h; cbn [forM map].
  - exists []. now rewrite app_nil_r.
  - unfold bind at 1.
    destruct (setMaintainerOf_puts org username token team h) as (t & -> & Ht).
    destruct (IH (h ++ t)) as (t' & -> & Ht').
    exists (t ++ t')%list. split; [now rewrite app_assoc |].
    unfold putSlugs in *. now rewrite flat_map_app, Ht, Ht'.
Qed.

Lemma setMaintainer_puts (org username token : string) (teams : list Team)
    (h : list event) :
  exists t,
    setMaintainer w org username teams token h = (Ret tt, h ++ t) /\
    putSlugs t = map name teams.
Proof.
  unfold setMaintainer. run.
  destruct (forM_setMaintainerOf_puts org username token teams
              (h ++ [EvLog (MsgSetting username (List.length teams) org)]))
    as (t & -> & Ht).
  exists ([EvLog (MsgSetting username (List.length teams) org)] ++ t
          ++ [EvLog MsgDone])%list.
  split; [now rewrite <- !app_assoc |].
  unfold putSlugs in *. rewrite !flat_map_app, Ht.
  cbn [flat_map app putSlug]. now rewrite app_nil_r.
Qed.

Lemma print_names (teams : list Team) (h : list event) :
  forM (X := error) teams
       (fun team => emit (EvLog (MsgTeamName (name team)))) h
  = (Ret tt, h ++ map (fun team => EvLog (MsgTeamName (name team))) teams).
Proof.
  revert h. induction teams as [| team teams IH]; intros h; cbn [forM map].
  - now rewrite app_nil_r.
  - run. now rewrite IH, <- app_assoc.
Qed.

Lemma printedNames_of_lines (teams : list Team) :
  printedNames (map (fun team => EvLog (MsgTeamName (name team))) teams)
  = map name teams.
Proof.
  induction teams as [| team teams IH]; [reflexivity |].
  cbn [map]. unfold printedNames in *. cbn [flat_map printedName app].
  now rewrite IH.
Qed.

Lemma getTeams_quiet (org user token : string) :
  emits_only quiet (getTeams w org user token).
Proof.
  unfold getTeams, fetch, response_text, response_json.
  emits_by ltac:(now split).
Qed.

(** What a dry run does with the teams previews what the run proper
    does with them. *)
Lemma branches_preview (org username token : string) (teams : list Team) :
  EffOutcome.previews printedName putSlug
    (emit (EvLog MsgDryRunHeader) ;;
     forM teams (fun team => emit (EvLog (MsgTeamName (name team)))))%eff
    (emit (EvLog (MsgJson teams)) ;;
     setMaintainer w org username teams token)%eff.
Proof.
  intros h Hq. run. rewrite print_names.
  destruct (setMaintainer_puts org username token teams
              (h ++ [EvLog (MsgJson teams)])) as (t & -> & Ht).
  cbn [fst snd outcome]. split; [reflexivity |].
  destruct (quiet_history Hq) as [Hs Ha].
  rewrite !flat_map_app, Hs, Ha. cbn [flat_map app printedName putSlug].
  fold (printedNames (map (fun team => EvLog (MsgTeamName (name team))) teams)).
  fold (putSlugs t). now rewrite printedNames_of_lines, Ht.
Qed.

Lemma main_previews (real : list string) (GITHUB_TOKEN : option string) :
  notDryRun real ->
  EffOutcome.previews printedName putSlug
    (main w ("--dry-run"%string :: real) GITHUB_TOKEN)
    (main w real GITHUB_TOKEN).
Proof.
  intros Hreal. unfold main. rewrite !dry_run_match.
  rewrite (not_dry_run_head real Hreal).
  change (String.eqb "--dry-run" "--dry-run") with true. cbv iota beta.
  change (nth_error ("--dry-run"%string :: real) 1) with (nth_error real 0).
  change (nth_error ("--dry-run"%string :: real) 2) with (nth_error real 1).
  destruct (truthy (nth_error real 0)) as [org |];
    [| apply previews_quiet; emits_by ltac:(now split)].
  destruct (truthy (nth_error real 1)) as [username |];
    [| apply previews_quiet; emits_by ltac:(now split)].
  destruct (truthy GITHUB_TOKEN) as [token |];
    [| apply previews_quiet; emits_by ltac:(now split)].
  apply (@previews_try_catch event error printedName putSlug _ _
           (fun e => EvError (MsgError e)) 1); [| now split].
  apply previews_bind; [emits_by ltac:(now split) |]. intros _.
  apply previews_bind; [apply getTeams_quiet |]. intros teams.
  apply previews_bind; [emits_by ltac:(now split) |]. intros _.
  apply branches_preview.
Qed.

End World.

(** [main] fails with exit code 1 only. *)
Lemma rest_main_fails (w : World) (args : list string)
    (GITHUB_TOKEN : option string) :
  fails_only (fun o => o = Exit 1) (main w args GITHUB_TOKEN).
Proof.
  unfold main, getTeams, setMaintainer, setMaintainerOf, fetch,
    response_text, response_json.
  fails.
Qed.

End Rest.

(** ** The GraphQL script *)

Module Gql.

Import Part001.

Local Abbreviation quiet := (EffOutcome.quiet gqlPrintedSlug gqlPutSlug).
Local Abbreviation stops :=
  (fun o : result error unit =>
     o = Exit 1 \/ o = Diverge \/ exists x, o = Throw x).

Section World.

Variable w : World.

Lemma gql_setMaintainerOf_puts (org username token : string) (team : Team)
    (h : list event) :
  exists t,
    setMaintainerOf w org username token team h = (Ret tt, h ++ t) /\
    gqlPutSlugs t = [slug team].
Proof.
  unfold setMaintainerOf, fetch, response_text, response_json. run.
  destruct (membership_response w _) as [response |]; run.
  - destruct (ok response); cbn [negb]; run.
    + destruct (json response) as [data |]; run;
        rewrite <- !app_assoc; cbn [app]; eexists; split; reflexivity.
    + destruct (text response) as [errorText |]; run;
        rewrite <- !app_assoc; cbn [app]; eexists; split; reflexivity.
  - rewrite <- !app_assoc; cbn [app]; eexists; split; reflexivity.
Qed.

Lemma gql_forM_setMaintainerOf_puts (org username token : string)
    (teams : list Team) (h : list event) :
  exists t,
    forM teams (setMaintainerOf w org username token) h = (Ret tt, h ++ t) /\
    gqlPutSlugs t = map slug teams.
Proof.
  revert h. induction teams as [| team teams IH]; intros h; cbn [forM map].
  - exists []. now rewrite app_nil_r.
  - unfold bind at 1.
    destruct (gql_setMaintainerOf_puts org username token team h) as (t & -> & Ht).
    destruct (IH (h ++ t)) as (t' & -> & Ht').
    exists (t ++ t')%list. split; [now rewrite app_assoc |].
    unfold gqlPutSlugs in *. now rewrite flat_map_app, Ht, Ht'.
Qed.

Lemma gql_setMaintainer_puts (org username token : string) (teams : list Team)
    (h : list event) :
  exists t,
    setMaintainer w org username teams token h = (Ret tt, h ++ t) /\
    gqlPutSlugs t = map slug teams.
Proof.
  unfold setMaintainer. run.
  destruct (gql_forM_setMaintainerOf_puts org username token teams
              (h ++ [EvLog (MsgSetting username (List.length teams) org)]))
    as (t & -> & Ht).
  exists ([EvLog (MsgSetting username (List.length teams) org)] ++ t
          ++ [EvLog MsgDone])%list.
  split; [now rewrite <- !app_assoc |].
  unfold gqlPutSlugs in *. rewrite !flat_map_app, Ht.
  cbn [flat_map app gqlPutSlug]. now rewrite app_nil_r.
Qed.

Lemma print_slugs (teams : list Team) (h : list event) :
  forM (X := error) teams
       (fun team => emit (EvLog (MsgTeamSlug (slug team)))) h
  = (Ret tt, h ++ map (fun team => EvLog (MsgTeamSlug (slug team))) teams).
Proof.
  revert h. induction teams as [| team teams IH]; intros h; cbn [forM map].
  - now rewrite app_nil_r.
  - run. now rewrite IH, <- app_assoc.
Qed.

Lemma printedSlugs_of_lines (teams : list Team) :
  gqlPrintedSlugs (map (fun team => EvLog (MsgTeamSlug (slug team))) teams)
  = map slug teams.
Proof.
  induction teams as [| team teams IH]; [reflexivity |].
  cbn [map]. unfold gqlPrintedSlugs in *. cbn [flat_map gqlPrintedSlug app].
  now rewrite IH.
Qed.

(** *** The queries show no slug, ask for no membership, and stop only
    by an exit with code 1, an exception or an endless pagination *)

Lemma executeGraphQL_quiet (D : Type) (r : request)
    (answer : list event -> option (Response (GraphQLBody D))) :
  quiet (EvFetch r) -> emits_only quiet (executeGraphQL r answer).
Proof.
  intros Hr. unfold executeGraphQL, fetch, response_text, response_json.
  apply emits_only_bind; [| emits_by ltac:(now split)].
  apply emits_only_bind;
    [now apply emits_only_emit | emits_by ltac:(now split)].
Qed.

Lemma executeGraphQL_stops (D : Type) (r : request)
    (answer : list event -> option (Response (GraphQLBody D))) :
  fails_only stops (executeGraphQL r answer).
Proof.
  unfold executeGraphQL, fetch, response_text, response_json. fails.
Qed.

Lemma getAdditionalMembers_loop_quiet (fuel : nat) (org teamSlug token : string)
    (members : list TeamMember) (cursor : option string) (hasNext : bool) :
  emits_only quiet
    (getAdditionalMembers_loop w fuel org teamSlug token members cursor hasNext).
Proof.
  revert members cursor hasNext.
  induction fuel as [| fuel IH]; intros members cursor [|];
    cbn [getAdditionalMembers_loop]; try solve [emits_by ltac:(now split)].
  apply emits_only_bind; [now apply executeGraphQL_quiet |].
  intros [teamMembers |]; [apply IH | emits_by ltac:(now split)].
Qed.

Lemma getAdditionalMembers_loop_stops (fuel : nat) (org teamSlug token : string)
    (members : list TeamMember) (cursor : option string) (hasNext : bool) :
  fails_only stops
    (getAdditionalMembers_loop w fuel org teamSlug token members cursor hasNext).
Proof.
  revert members cursor hasNext.
  induction fuel as [| fuel IH]; intros members cursor [|];
    cbn [getAdditionalMembers_loop]; try solve [fails].
  apply fails_only_bind; [apply executeGraphQL_stops |].
  intros [teamMembers |]; [apply IH | fails].
Qed.

Lemma teamOfNode_quiet (fuel : nat) (org token : string)
    (node : GraphQLTeamNode) :
  emits_only quiet (teamOfNode w fuel org token node).
Proof.
  unfold teamOfNode, getAdditionalMembers.
  apply emits_only_bind; [| emits_by ltac:(now split)].
  destruct (hasNextPage _); [| emits_by ltac:(now split)].
  destruct (truthy _); [| emits_by ltac:(now split)].
  apply emits_only_bind; [emits_by ltac:(now split) |]. intros _.
  apply emits_only_bind;
    [apply getAdditionalMembers_loop_quiet | emits_by ltac:(now split)].
Qed.

Lemma teamOfNode_stops (fuel : nat) (org token : string)
    (node : GraphQLTeamNode) :
  fails_only stops (teamOfNode w fuel org token node).
Proof.
  unfold teamOfNode, getAdditionalMembers.
  apply fails_only_bind; [| fails].
  destruct (hasNextPage _); [| fails].
  destruct (truthy _); [| fails].
  apply fails_only_bind; [fails |]. intros _.
  apply fails_only_bind; [apply getAdditionalMembers_loop_stops | fails].
Qed.

Lemma getAllTeamsWithMembers_loop_quiet (fuel inner : nat) (org token : string)
    (teams : list Team) (cursor : option string) (hasNext : bool) :
  emits_only quiet
    (getAllTeamsWithMembers_loop w fuel inner org token teams cursor hasNext).
Proof.
  revert teams cursor hasNext.
  induction fuel as [| fuel IH]; intros teams cursor [|];
    cbn [getAllTeamsWithMembers_loop]; try solve [emits_by ltac:(now split)].
  apply emits_only_bind; [now apply executeGraphQL_quiet |].
  intros teamsData. apply emits_only_bind.
  - apply emits_only_mapM. intros node _. apply teamOfNode_quiet.
  - intros page. apply emits_only_bind; [emits_by ltac:(now split) |].
    intros _. apply IH.
Qed.

Lemma getAllTeamsWithMembers_loop_stops (fuel inner : nat) (org token : string)
    (teams : list Team) (cursor : option string) (hasNext : bool) :
  fails_only stops
    (getAllTeamsWithMembers_loop w fuel inner org token teams cursor hasNext).
Proof.
  revert teams cursor hasNext.
  induction fuel as [| fuel IH]; intros teams cursor [|];
    cbn [getAllTeamsWithMembers_loop]; try solve [fails].
  apply fails_only_bind; [apply executeGraphQL_stops |].
  intros teamsData. apply fails_only_bind.
  - apply fails_only_mapM. intros node. apply teamOfNode_stops.
  - intros page. apply fails_only_bind; [fails |]. intros _. apply IH.
Qed.

(** *** The filter on membership *)

Lemma mapM_teamIfMember (username : string) (teams : list Team)
    (h : list event) :
  mapM (teamIfMember username) teams h
  = (Ret (map (fun team =>
                 if hasMember username team then Some team else None) teams),
     h ++ map (fun team => EvLog (MsgFoundIn (name team) (slug team)))
              (filter (hasMember username) teams)).
Proof.
  revert h. induction teams as [| team teams IH]; intros h;
    cbn [mapM map filter].
  - now rewrite app_nil_r.
  - unfold bind at 1, teamIfMember at 1. fold (hasMember username team).
    destruct (hasMember username team); run; rewrite IH; run;
      [now rewrite <- app_assoc | reflexivity].
Qed.

Lemma somes_filter (username : string) (teams : list Team) :
  somes (map (fun team => if hasMember username team then Some team else None)
             teams)
  = filter (hasMember username) teams.
Proof.
  induction teams as [| team teams IH]; [reflexivity |].
  cbn [map filter]. unfold somes in *. cbn [flat_map]. rewrite IH.
  now destruct (hasMember username team).
Qed.

Lemma mapM_teamOfNode_single (fuel : nat) (org token : string)
    (nodes : list GraphQLTeamNode) (h : list event) :
  Forall (fun node => hasNextPage (membersPageInfo (nodeMembers node)) = false)
         nodes ->
  mapM (teamOfNode w fuel org token) nodes h = (Ret (map teamOf nodes), h).
Proof.
  induction 1 as [| node nodes Hnode _ IH]; cbn [mapM map]; [reflexivity |].
  unfold bind at 1, teamOfNode at 1. rewrite Hnode. run. now rewrite IH.
Qed.

Lemma filterTeamsByUser_quiet (teams : list Team) (username : string) :
  emits_only quiet (filterTeamsByUser teams username).
Proof.
  unfold filterTeamsByUser, teamIfMember. cbv zeta.
  emits_by ltac:(now split).
Qed.

Lemma gql_branches_preview (org username token : string) (teams : list Team) :
  EffOutcome.previews gqlPrintedSlug gqlPutSlug
    (emit (EvLog MsgDryRunHeader) ;;
     forM teams (fun team => emit (EvLog (MsgTeamSlug (slug team)))))%eff
    (setMaintainer w org username teams token).
Proof.
  intros h Hq. run. rewrite print_slugs.
  destruct (gql_setMaintainer_puts org username token teams h) as (t & -> & Ht).
  cbn [fst snd outcome]. split; [reflexivity |].
  destruct (quiet_history Hq) as [Hs Ha].
  rewrite !flat_map_app, Hs, Ha. cbn [flat_map app gqlPrintedSlug gqlPutSlug].
  fold (gqlPrintedSlugs
          (map (fun team => EvLog (MsgTeamSlug (slug team))) teams)).
  fold (gqlPutSlugs t). now rewrite printedSlugs_of_lines, Ht.
Qed.

Lemma gql_main_previews (fuel : nat) (real : list string)
    (GITHUB_TOKEN : option string) :
  notDryRun real ->
  EffOutcome.previews gqlPrintedSlug gqlPutSlug
    (main w fuel ("--dry-run"%string :: real) GITHUB_TOKEN)
    (main w fuel real GITHUB_TOKEN).
Proof.
  intros Hreal. unfold main. rewrite !dry_run_match.
  rewrite (not_dry_run_head real Hreal).
  change (String.eqb "--dry-run" "--dry-run") with true. cbv iota beta.
  change (nth_error ("--dry-run"%string :: real) 1) with (nth_error real 0).
  change (nth_error ("--dry-run"%string :: real) 2) with (nth_error real 1).
  destruct (truthy (nth_error real 0)) as [org |];
    [| apply previews_quiet; emits_by ltac:(now split)].
  destruct (truthy (nth_error real 1)) as [username |];
    [| apply previews_quiet; emits_by ltac:(now split)].
  destruct (truthy GITHUB_TOKEN) as [token |];
    [| apply previews_quiet; emits_by ltac:(now split)].
  apply (@previews_try_catch event error gqlPrintedSlug gqlPutSlug _ _
           (fun e => EvError (MsgError e)) 1); [| now split].
  apply previews_bind; [emits_by ltac:(now split) |]. intros _.
  apply previews_bind; [apply getAllTeamsWithMembers_loop_quiet |].
  intros allTeams.
  apply previews_bind; [emits_by ltac:(now split) |]. intros _.
  apply previews_bind; [apply filterTeamsByUser_quiet |]. intros teams.
  apply previews_bind; [emits_by ltac:(now split) |]. intros _.
  apply previews_bind; [emits_by ltac:(now split) |]. intros _.
  apply gql_branches_preview.
Qed.

End World.

(** [main] stops early only by an exit with code 1 or in a pagination
    without end. *)
Lemma gql_main_fails (w : World) (fuel : nat) (args : list string)
    (GITHUB_TOKEN : option string) :
  fails_only (fun o => o = Exit 1 \/ o = Diverge)
             (main w fuel args GITHUB_TOKEN).
Proof.
  unfold main.
  destruct (match args with
            | "--dry-run"%string :: _ => _
            | _ => _
            end) as [[dryRun org] username].
  destruct (truthy org); [| fails].
  destruct (truthy username); [| fails].
  destruct (truthy GITHUB_TOKEN) as [token |]; [| fails].
  apply fails_only_try_catch; [| fails].
  apply fails_only_bind; [fails |]. intros _.
  apply fails_only_bind.
  { intros h.
    destruct (@getAllTeamsWithMembers_loop_stops w fuel fuel s token [] None
                true h) as [H | [H | [H | H]]]; auto. }
  intros allTeams. unfold filterTeamsByUser, teamIfMember, setMaintainer,
    setMaintainerOf, fetch, response_text, response_json. cbv zeta.
  fails.
Qed.

End Gql.

(** ** What the loops over the teams ask for *)

(** X19. [setMaintainer] of github/make_team_maintainer.ts returns
    normally whatever the API answers, having sent one membership request
    for each team, in the order of the list; the request is addressed by
    the name of the team. *)
Theorem rest_setMaintainer_one_request_per_team
    (w : MakeTeamMaintainer.World) (org username token : string)
    (teams : list MakeTeamMaintainer.Team)
    (h : list MakeTeamMaintainer.event) :
  exists t,
    MakeTeamMaintainer.setMaintainer w org username teams token h
      = (Ret tt, (h ++ t)%list) /\
    putSlugs t = map MakeTeamMaintainer.name teams.
Proof.
  apply Rest.setMaintainer_puts.
Qed.

(** X20. [setMaintainer] of the GraphQL script returns normally whatever
    the API answers, having sent one membership request for each team, in
    the order of the list; the request is addressed by the slug of the
    team. *)
Theorem gql_setMaintainer_one_request_per_team
    (w : Part001.World) (org username token : string)
    (teams : list Part001.Team) (h : list Part001.event) :
  exists t,
    Part001.setMaintainer w org username teams token h
      = (Ret tt, (h ++ t)%list) /\
    gqlPutSlugs t = map Part001.slug teams.
Proof.
  apply Gql.gql_setMaintainer_puts.
Qed.

(** ** A dry run lists the requests of the run proper *)

(** X21. For the same arguments, token and API, a dry run of
    github/make_team_maintainer.ts ends the way the run proper ends, and
    the team names it prints are the teams the run proper sends a
    membership request for, in the same order. *)
Theorem rest_dry_run_lists_the_requests
    (w : MakeTeamMaintainer.World) (real : list string)
    (GITHUB_TOKEN : option string) :
  notDryRun real ->
  outcome (fst (MakeTeamMaintainer.main w ("--dry-run"%string :: real)
                  GITHUB_TOKEN []))
  = outcome (fst (MakeTeamMaintainer.main w real GITHUB_TOKEN [])) /\
  printedNames (snd (MakeTeamMaintainer.main w ("--dry-run"%string :: real)
                       GITHUB_TOKEN []))
  = putSlugs (snd (MakeTeamMaintainer.main w real GITHUB_TOKEN [])).
Proof.
  intros Hreal. now apply (@Rest.main_previews w real GITHUB_TOKEN Hreal []).
Qed.

Lemma rest_dry_run_lists_witness :
  printedNames
    (snd (MakeTeamMaintainer.main MakeTeamMaintainer.Sample.world
            ["--dry-run"; "acme"; "octo"]%string (Some "t"%string) []))
  = ["alpha"; "beta"; "gamma"]%string /\
  putSlugs
    (snd (MakeTeamMaintainer.main MakeTeamMaintainer.Sample.world
            ["acme"; "octo"]%string (Some "t"%string) []))
  = ["alpha"; "beta"; "gamma"]%string.
Proof.
  assert (H : notDryRun ["acme"; "octo"]%string) by (cbn; discriminate).
  destruct (@rest_dry_run_lists_the_requests MakeTeamMaintainer.Sample.world
              ["acme"; "octo"]%string (Some "t"%string) H) as [_ E].
  split; [| rewrite <- E]; vm_compute; reflexivity.
Defined.

(** X22. For the same arguments, token and API, a dry run of the GraphQL
    script ends the way the run proper ends, and the team slugs it prints
    are the teams the run proper sends a membership request for, in the
    same order. *)
Theorem gql_dry_run_lists_the_requests
    (w : Part001.World) (fuel : nat) (real : list string)
    (GITHUB_TOKEN : option string) :
  notDryRun real ->
  outcome (fst (Part001.main w fuel ("--dry-run"%string :: real)
                  GITHUB_TOKEN []))
  = outcome (fst (Part001.main w fuel real GITHUB_TOKEN [])) /\
  gqlPrintedSlugs (snd (Part001.main w fuel ("--dry-run"%string :: real)
                          GITHUB_TOKEN []))
  = gqlPutSlugs (snd (Part001.main w fuel real GITHUB_TOKEN [])).
Proof.
  intros Hreal.
  now apply (@Gql.gql_main_previews w fuel real GITHUB_TOKEN Hreal []).
Qed.

Lemma gql_dry_run_lists_witness :
  gqlPrintedSlugs
    (snd (Part001.main Part001.Sample.world 3
            ["--dry-run"; "acme"; "octo"]%string (Some "t"%string) []))
  = ["alpha"; "beta"; "gamma"]%string /\
  gqlPutSlugs
    (snd (Part001.main Part001.Sample.world 3
            ["acme"; "octo"]%string (Some "t"%string) []))
  = ["alpha"; "beta"; "gamma"]%string.
Proof.
  assert (H : notDryRun ["acme"; "octo"]%string) by (cbn; discriminate).
  destruct (@gql_dry_run_lists_the_requests Part001.Sample.world 3
              ["acme"; "octo"]%string (Some "t"%string) H) as [_ E].
  split; [| rewrite <- E]; vm_compute; reflexivity.
Defined.

(** ** How the scripts end *)

(** X23. [main] of github/make_team_maintainer.ts either completes or
    leaves the process with exit code 1: no exception escapes it. *)
Theorem rest_main_completes_or_exits_1
    (w : MakeTeamMaintainer.World) (args : list string)
    (GITHUB_TOKEN : option string) (h : list MakeTeamMaintainer.event) :
  fst (MakeTeamMaintainer.main w args GITHUB_TOKEN h) = Ret tt \/
  fst (MakeTeamMaintainer.main w args GITHUB_TOKEN h) = Exit 1.
Proof.
  destruct (@Rest.rest_main_fails w args GITHUB_TOKEN h) as [H | H];
    destruct (fst (MakeTeamMaintainer.main w args GITHUB_TOKEN h))
      as [[] | x | c |]; cbn [outcome] in H; try discriminate; auto.
Qed.

(** X24. [main] of the GraphQL script completes, leaves the process with
    exit code 1, or pages without end: no exception escapes it. *)
Theorem gql_main_completes_exits_1_or_pages_on
    (w : Part001.World) (fuel : nat) (args : list string)
    (GITHUB_TOKEN : option string) (h : list Part001.event) :
  fst (Part001.main w fuel args GITHUB_TOKEN h) = Ret tt \/
  fst (Part001.main w fuel args GITHUB_TOKEN h) = Exit 1 \/
  fst (Part001.main w fuel args GITHUB_TOKEN h) = Diverge.
Proof.
  destruct (@Gql.gql_main_fails w fuel args GITHUB_TOKEN h) as [H | [H | H]];
    destruct (fst (Part001.main w fuel args GITHUB_TOKEN h))
      as [[] | x | c |]; cbn [outcome] in H; try discriminate; auto.
Qed.

(** X25. Without a value of GITHUB_TOKEN, or with an empty one,
    github/make_team_maintainer.ts leaves with exit code 1 and sends no
    request, whatever its arguments. *)
Theorem rest_main_without_token
    (w : MakeTeamMaintainer.World) (args : list string)
    (GITHUB_TOKEN : option string) :
  truthy GITHUB_TOKEN = None ->
  fst (MakeTeamMaintainer.main w args GITHUB_TOKEN []) = Exit 1 /\
  Forall noFetch (snd (MakeTeamMaintainer.main w args GITHUB_TOKEN [])).
Proof.
  intros Htoken. unfold MakeTeamMaintainer.main.
  destruct (match args with
            | "--dry-run"%string :: _ => _
            | _ => _
            end) as [[dryRun org] username].
  rewrite Htoken.
  destruct (truthy org); [destruct (truthy username) |];
    (split; [reflexivity | cbn; repeat constructor]).
Qed.

Lemma rest_main_without_token_witness :
  fst (MakeTeamMaintainer.main MakeTeamMaintainer.Sample.world
         ["acme"; "octo"]%string (Some ""%string) []) = Exit 1.
Proof.
  apply (@rest_main_without_token MakeTeamMaintainer.Sample.world
           ["acme"; "octo"]%string (Some ""%string)).
  reflexivity.
Defined.

(** X26. Without a value of GITHUB_TOKEN, or with an empty one, the
    GraphQL script leaves with exit code 1 and sends no request, whatever
    its arguments. *)
Theorem gql_main_without_token
    (w : Part001.World) (fuel : nat) (args : list string)
    (GITHUB_TOKEN : option string) :
  truthy GITHUB_TOKEN = None ->
  fst (Part001.main w fuel args GITHUB_TOKEN []) = Exit 1 /\
  Forall gqlNoFetch (snd (Part001.main w fuel args GITHUB_TOKEN [])).
Proof.
  intros Htoken. unfold Part001.main.
  destruct (match args with
            | "--dry-run"%string :: _ => _
            | _ => _
            end) as [[dryRun org] username].
  rewrite Htoken.
  destruct (truthy org); [destruct (truthy username) |];
    (split; [reflexivity | cbn; repeat constructor]).
Qed.

Lemma gql_main_without_token_witness :
  fst (Part001.main Part001.Sample.world 3
         ["acme"; "octo"]%string None []) = Exit 1.
Proof.
  apply (@gql_main_without_token Part001.Sample.world 3
           ["acme"; "octo"]%string None).
  reflexivity.
Defined.

(** X27. When the list of teams is answered with a status outside
    200..299, github/make_team_maintainer.ts prints the status and the
    body and leaves with exit code 1: the handler of [main] does not run,
    and no membership request is sent. *)
Theorem rest_main_stops_at_failed_team_list
    (w : MakeTeamMaintainer.World) (org username token : string)
    (response : Response (list MakeTeamMaintainer.Team))
    (errorText : string) :
  org <> ""%string -> username <> ""%string -> token <> ""%string ->
  org <> "--dry-run"%string ->
  MakeTeamMaintainer.teams_response w
    [MakeTeamMaintainer.EvLog (MakeTeamMaintainer.MsgFetching username org);
     MakeTeamMaintainer.EvFetch
       (MakeTeamMaintainer.GetTeams org username token)]
  = Some response ->
  ok response = false ->
  text response = Some errorText ->
  MakeTeamMaintainer.main w [org; username] (Some token) []
  = (Exit 1,
     [MakeTeamMaintainer.EvLog (MakeTeamMaintainer.MsgFetching username org);
      MakeTeamMaintainer.EvFetch
        (MakeTeamMaintainer.GetTeams org username token);
      MakeTeamMaintainer.EvError
        (MakeTeamMaintainer.MsgApiStatus (status response));
      MakeTeamMaintainer.EvError (MakeTeamMaintainer.MsgErrorText errorText)]).
Proof.
  intros Horg Huser Htoken Hflag Hw Hok Htext.
  remember [org; username] as args eqn:Eargs.
  unfold MakeTeamMaintainer.main. rewrite dry_run_match. subst args.
  rewrite (@not_dry_run_head [org; username] Hflag). cbn [nth_error].
  destruct org as [| c org]; [contradiction |].
  destruct username as [| c' username]; [contradiction |].
  destruct token as [| c'' token]; [contradiction |].
  cbn [truthy].
  unfold MakeTeamMaintainer.getTeams, MakeTeamMaintainer.fetch,
    MakeTeamMaintainer.response_text.
  unfold try_catch, bind, emit, ask, exit. cbn [app fst snd].
  rewrite Hw. unfold ret. cbv beta iota. rewrite Hok. cbv beta iota delta [negb].
  rewrite Htext. reflexivity.
Qed.

Lemma rest_main_stops_witness :
  fst (MakeTeamMaintainer.main Sample.closedWorld
         ["acme"; "octo"]%string (Some "t"%string) []) = Exit 1.
Proof.
  rewrite (@rest_main_stops_at_failed_team_list Sample.closedWorld
             "acme" "octo" "t"
             (mkResponse 404 (Some "Not Found"%string) None) "Not Found");
    first [reflexivity | discriminate].
Defined.

(** ** The teams of the GraphQL script *)

(** X28. [filterTeamsByUser] returns the teams that have the user among
    their members, in the order given, and prints one line for each of
    them after its opening line; it sends no request. *)
Theorem gql_filterTeamsByUser_keeps_the_members_teams
    (teams : list Part001.Team) (username : string)
    (h : list Part001.event) :
  Part001.filterTeamsByUser teams username h
  = (Ret (filter (hasMember username) teams),
     (h ++ Part001.EvLog (Part001.MsgFiltering username)
        :: map (fun team =>
                  Part001.EvLog (Part001.MsgFoundIn (Part001.name team)
                                                    (Part001.slug team)))
               (filter (hasMember username) teams))%list).
Proof.
  unfold Part001.filterTeamsByUser. unfold bind at 1, emit at 1.
  cbn [fst snd]. unfold bind at 1. rewrite Gql.mapM_teamIfMember.
  unfold ret. rewrite Gql.somes_filter, <- app_assoc. reflexivity.
Qed.

(** X29. When the first page of teams is the last and no team on it has
    a further page of members, [getAllTeamsWithMembers] sends that one
    query and returns the teams of the page in its order, each with the
    members listed on the page. *)
Theorem gql_single_page_takes_one_query
    (w : Part001.World) (fuel : nat) (org token : string)
    (h : list Part001.event)
    (response : Response (Part001.GraphQLBody Part001.TeamsConnection))
    (teamsData : Part001.TeamsConnection) :
  Part001.teams_response w
    (h ++ [Part001.EvFetch (Part001.PostTeamsQuery org None token)])
  = Some response ->
  ok response = true ->
  json response = Some (Part001.GraphQLData teamsData) ->
  Part001.hasNextPage (Part001.teamsPageInfo teamsData) = false ->
  Forall (fun node =>
            Part001.hasNextPage
              (Part001.membersPageInfo (Part001.nodeMembers node)) = false)
         (Part001.teamEdges teamsData) ->
  Part001.getAllTeamsWithMembers w (S fuel) org token h
  = (Ret (map teamOf (Part001.teamEdges teamsData)),
     (h ++ [Part001.EvFetch (Part001.PostTeamsQuery org None token);
            Part001.EvLog
              (Part001.MsgFetchedSoFar
                 (List.length (Part001.teamEdges teamsData)))])%list).
Proof.
  intros Hw Hok Hjson Hlast Hnodes.
  unfold Part001.getAllTeamsWithMembers.
  cbn [Part001.getAllTeamsWithMembers_loop].
  unfold Part001.executeGraphQL, Part001.fetch, Part001.response_json.
  unfold bind at 1. unfold bind at 1. unfold bind at 1. unfold emit at 1.
  cbn [fst snd]. unfold bind at 1, ask at 1. cbn [fst snd].
  rewrite Hw. unfold ret at 1. cbn [fst snd]. rewrite Hok. cbn [negb].
  unfold bind at 1. rewrite Hjson. unfold ret at 1. cbn [fst snd].
  unfold ret at 1. cbn [fst snd].
  unfold bind at 1. erewrite Gql.mapM_teamOfNode_single by exact Hnodes.
  cbn [fst snd app]. rewrite Hlast.
  destruct fuel; cbn [Part001.getAllTeamsWithMembers_loop];
    unfold bind, emit, ret; cbn [fst snd];
    rewrite length_map, <- app_assoc; reflexivity.
Qed.

Lemma gql_single_page_witness :
  fst (Part001.getAllTeamsWithMembers Part001.Sample.world 1 "acme" "t" [])
  = Ret [Part001.Sample.alpha; Part001.Sample.beta; Part001.Sample.gamma].
Proof.
  rewrite (@gql_single_page_takes_one_query Part001.Sample.world 0
             "acme" "t" []
             (mkResponse 200 (Some "{}"%string)
                (Some (Part001.GraphQLData
                         (Part001.mkTeams
                            (map Part001.Sample.nodeOf
                               [Part001.Sample.alpha; Part001.Sample.beta;
                                Part001.Sample.gamma])
                            (Part001.mkPageInfo false None)))))
             (Part001.mkTeams
                (map Part001.Sample.nodeOf
                   [Part001.Sample.alpha; Part001.Sample.beta;
                    Part001.Sample.gamma])
                (Part001.mkPageInfo false None)));
    first [reflexivity | repeat constructor].
Defined.

End MaintainerMore.
